(** * nano-banana: session/turn lifecycle and streaming relay

    A shallow embedding of [src/server.ts] and [src/sessionStore.ts]:
    the in-memory session registry, the file-backed session repository,
    the artifact directory, the chat endpoints ([POST /session],
    [POST /message], [GET /stream/session/:sessionId], [GET /session/:id],
    [DELETE /session/:id]) and the helper [deriveTitle].

    Conventions of the embedding:
    - JavaScript strings are sequences of UTF-16 code units;
    - the [ChatSession] objects that handlers share by reference live
      in an explicit heap, and the registry [Map] holds their addresses;
    - a handler is a function from the process state to the new state
      and what it sent; the stream handler, which is suspended while the
      remote model produces its chunks, is a state machine driven by
      the stimuli that wake it;
    - what a handler reads from outside (environment variables, clock,
      [nanoid], the [mime] table, the outcome of artifact writes) is an
      argument;
    - a handler is suspended wherever the source awaits; the second
      half of the definitions gives every handler in steps, from one
      await to the next, and the server as the interleaving of these
      steps; a handler as one function is its run with no other
      request in between;
    - [logEvent] and [console.error] write to a log that no handler
      reads back; they are left out, as are [/healthz], [/sessions]
      and the rename endpoint, of which [renameSessionFile] is kept.
      The legacy one-shot endpoints come after the chat endpoints. *)

From Stdlib Require Import NArith Ascii String DecimalString.
From Stdlib Require DecimalNat.
From stdpp Require Import base option list gmap.

Local Open Scope N_scope.
Local Open Scope list_scope.

(* ================================================================== *)
(** ** JavaScript strings *)
(* ================================================================== *)

Module JsString.

(** A JS string: its UTF-16 code units, in order. *)
Definition jsstring := list N.

(** An ASCII literal as a JS string. *)
Definition lit (s : string) : jsstring :=
map N_of_ascii (list_ascii_of_string s).

(** Template interpolation [`${n}`] of a non-negative integer. *)
Definition of_nat (n : nat) : jsstring :=
lit (NilZero.string_of_uint (Nat.to_uint n)).

(** ECMAScript WhiteSpace and LineTerminator code units: the class
  matched by the regular expression [\s] and stripped by
  [String.prototype.trim]. *)
Definition is_space (c : N) : bool :=
(9 <=? c) && (c <=? 13)
|| (c =? 32) || (c =? 160) || (c =? 5760)
|| (8192 <=? c) && (c <=? 8202)
|| (c =? 8232) || (c =? 8233) || (c =? 8239) || (c =? 8287)
|| (c =? 12288) || (c =? 65279).

Fixpoint trimStart (s : jsstring) : jsstring :=
match s with
| c :: s' => if is_space c then trimStart s' else s
| [] => []
end.

Fixpoint trimEnd (s : jsstring) : jsstring :=
match s with
| [] => []
| c :: s' =>
    match trimEnd s' with
    | [] => if is_space c then [] else [c]
    | r => c :: r
    end
end.

(** [s.trim()] *)
Definition trim (s : jsstring) : jsstring := trimEnd (trimStart s).

(** [s.replace(/\s+/g, ' ')]: every maximal run of white space becomes
  one U+0020.  [in_run] records that the previous code unit belonged
  to the run being replaced. *)
Fixpoint replace_ws_from (in_run : bool) (s : jsstring) : jsstring :=
match s with
| [] => []
| c :: s' =>
    if is_space c
    then (if in_run then replace_ws_from true s'
          else 32 :: replace_ws_from true s')
    else c :: replace_ws_from false s'
end.

Definition replace_ws (s : jsstring) : jsstring := replace_ws_from false s.

(** [s.slice(0, n)] for [0 <= n]. *)
Definition slice0 (n : nat) (s : jsstring) : jsstring := take n s.

(** A string is truthy when it is not empty. *)
Definition truthy (s : jsstring) : bool :=
match s with [] => false | _ => true end.

(** [s || d] on strings. *)
Definition or_default (s d : jsstring) : jsstring :=
if truthy s then s else d.

(** [o || d] where [o] may be [undefined]. *)
Definition opt_or (o : option jsstring) (d : jsstring) : jsstring :=
match o with Some s => or_default s d | None => d end.

End JsString.
Import JsString.

(* ================================================================== *)
(** ** [deriveTitle] (server.ts) *)
(* ================================================================== *)

(** U+2026 HORIZONTAL ELLIPSIS *)
Definition ellipsis : jsstring := [8230].

(** The literal pieces of the image-count label: U+56FE U+7247 U+5BF9
    U+8BDD U+FF08, then the count, then U+5F20 U+FF09. *)
Definition images_label_prefix : jsstring := [22270; 29255; 23545; 35805; 65288].
Definition images_label_suffix : jsstring := [24352; 65289].

(** The literal prefix of the fallback title: U+4F1A U+8BDD U+0020. *)
Definition session_label_prefix : jsstring := [20250; 35805; 32].

Definition images_label (imageCount : nat) : jsstring :=
  images_label_prefix ++ of_nat imageCount ++ images_label_suffix.

(** [`... ${new Date().toLocaleString()}`]; [now_locale] is what
    [new Date().toLocaleString()] returns at the call. *)
Definition session_label (now_locale : jsstring) : jsstring :=
  session_label_prefix ++ now_locale.

Definition maxLen : nat := 30.

Definition deriveTitle (now_locale : jsstring)
    (text : option jsstring) (imageCount : nat) : jsstring :=
  match text with
  | Some t =>
      if truthy t && (0 <? length (trim t))%nat then
        let oneLine := trim (replace_ws t) in
        if (maxLen <? length oneLine)%nat
        then slice0 maxLen oneLine ++ ellipsis
        else oneLine
      else if (0 <? imageCount)%nat then images_label imageCount
      else session_label now_locale
  | None =>
      if (0 <? imageCount)%nat then images_label imageCount
      else session_label now_locale
  end.

(* ================================================================== *)
(** ** Data model *)
(* ================================================================== *)

Inductive Role := user | model.

#[global] Instance Role_eq_dec : EqDecision Role.
Proof. solve_decision. Defined.

(** The two shapes of part the server itself builds: [{ text }] and
    [{ inlineData: { mimeType, data } }]. *)
Inductive Part :=
| Text (text : jsstring)
| InlineData (mimeType data : jsstring).

Module ChatMessage.
Record t := mk { role : Role; parts : list Part }.
End ChatMessage.

Module ChatSession.
(** [interface ChatSession { id; history; generating; turn }] *)
Record t := mk {
id : jsstring;
history : list ChatMessage.t;
generating : bool;
turn : nat
}.

Definition set_generating (b : bool) (s : t) : t :=
mk (id s) (history s) b (turn s).

(** [sess.history.push(m)] *)
Definition push (m : ChatMessage.t) (s : t) : t :=
mk (id s) (history s ++ [m]) (generating s) (turn s).

(** [sess.turn += 1] *)
Definition bump (s : t) : t :=
mk (id s) (history s) (generating s) (S (turn s)).

(** What a read through a dangling reference would give; objects are
  never freed, so no handler ever sees it. *)
Definition blank : t := mk [] [] false 0.
End ChatSession.

Module ChatSessionFile.
(** [interface ChatSessionFile] (sessionStore.ts) *)
Record t := mk {
id : jsstring;
title : jsstring;
createdAt : jsstring;
updatedAt : jsstring;
history : list ChatMessage.t
}.

Definition set_title (x : jsstring) (f : t) : t :=
mk (id f) x (createdAt f) (updatedAt f) (history f).

Definition set_updatedAt (x : jsstring) (f : t) : t :=
mk (id f) (title f) (createdAt f) x (history f).
End ChatSessionFile.

(** An uploaded file as multer's memory storage hands it over. *)
Record UploadedFile := { mimetype : jsstring; buffer : list N }.

(** What is written to an artifact file: the bytes of an upload, or
    [Buffer.from(data, 'base64')] for a generated image, kept as the
    text it is decoded from. *)
Inductive Blob :=
| Bytes (bs : list N)
| FromBase64 (data : jsstring).

(** ** The process state

    [heap] holds every [ChatSession] object allocated so far; a handler
    that has read [sessions.get(id)] keeps the object's address, so a
    later [sessions.set] or [sessions.delete] does not redirect it.
    [sessions] is the registry [Map], [artifacts] the artifact
    directory (file name to content).

    [store] is the directory tree that the paths built by [sessPath]
    reach, file by file: [file_of name] is the file that
    [path.join(SESS_DIR, name)] names, that is, what the platform's
    [path.join] makes of the name (it resolves [./] and [../] and
    doubled separators, so that the names [a.json] and [./a.json] are
    one path) and what the file system makes of the path (it may fold
    case).  No handler changes [file_of].  [store] holds the files that
    parse as session documents; a file of another kind is taken to be
    absent.  The artifact directory is kept apart from this tree: a
    session id whose path leads into the artifact directory, or an
    artifact name that leads out of it, is not covered. *)
Record World := mkWorld {
  heap : list ChatSession.t;
  sessions : gmap jsstring nat;
  store : gmap jsstring ChatSessionFile.t;
  artifacts : gmap jsstring Blob;
  file_of : jsstring -> jsstring
}.

Definition with_heap (h : list ChatSession.t) (w : World) : World :=
  mkWorld h (sessions w) (store w) (artifacts w) (file_of w).
Definition with_sessions (m : gmap jsstring nat) (w : World) : World :=
  mkWorld (heap w) m (store w) (artifacts w) (file_of w).
Definition with_store (m : gmap jsstring ChatSessionFile.t) (w : World) : World :=
  mkWorld (heap w) (sessions w) m (artifacts w) (file_of w).
Definition with_artifacts (m : gmap jsstring Blob) (w : World) : World :=
  mkWorld (heap w) (sessions w) (store w) m (file_of w).

(** Nothing allocated, registered or stored, on a platform where every
    name is a file of its own. *)
Definition empty_world : World := mkWorld [] ∅ ∅ ∅ (fun name => name).

(** ** The environment a handler runs in

    Everything a handler reads from outside the process state: the
    environment variables, the clock, the [mime] package's table,
    whether the artifact directory accepts a write (by file name) and
    whether [writeFile] on a session document succeeds (by file).  A
    read of a session document fails when there is no such document,
    [unlink] when there is no such file. *)
Record Env := {
  GEMINI_API_KEY : option jsstring;
  GENAI_MODEL : option jsstring;
  mime_getExtension : jsstring -> option jsstring;
  now_iso : jsstring;       (* new Date().toISOString() *)
  now_locale : jsstring;    (* new Date().toLocaleString() *)
  artifact_write_ok : jsstring -> bool;
  session_write_ok : jsstring -> bool
}.

(* ================================================================== *)
(** ** Heap and registry access *)
(* ================================================================== *)

(** Dereference a session object. *)
Definition deref (w : World) (l : nat) : ChatSession.t :=
  default ChatSession.blank (heap w !! l).

(** Mutate a session object in place. *)
Definition mutate (l : nat) (f : ChatSession.t -> ChatSession.t) (w : World) : World :=
  with_heap (alter f l (heap w)) w.

(** [sessions.get(id)]: the address and the object behind it. *)
Definition sessions_get (w : World) (sid : jsstring) : option (nat * ChatSession.t) :=
  l ← sessions w !! sid; s ← heap w !! l; Some (l, s).

(** [sessions.set(id, { ... })] with a freshly built object. *)
Definition sessions_set (sid : jsstring) (s : ChatSession.t) (w : World) : World :=
  with_sessions (<[sid := length (heap w)]> (sessions w))
    (with_heap (heap w ++ [s]) w).

(** [sessions.delete(id)] *)
Definition sessions_delete (sid : jsstring) (w : World) : World :=
  with_sessions (delete sid (sessions w)) w.

(* ================================================================== *)
(** ** Session repository (sessionStore.ts)

    A [None] result stands for a rejected promise (a thrown error).
    Documents are held file by file, as the value [JSON.parse] gives
    for the file's content. *)
(* ================================================================== *)

(** [path.join(SESS_DIR, `${id}.json`)], as the file it names. *)
Definition sessPath (w : World) (sid : jsstring) : jsstring :=
  file_of w (sid ++ lit ".json").

(** What a [writeFile(sessPath(f.id), JSON.stringify(f))] that succeeds
    leaves behind. *)
Definition writeSession (f : ChatSessionFile.t) (w : World) : World :=
  with_store (<[sessPath w (ChatSessionFile.id f) := f]> (store w)) w.

(** [await writeFile(sessPath(f.id), JSON.stringify(f, null, 2), 'utf8')] *)
Definition writeFile (env : Env) (f : ChatSessionFile.t) (w : World)
    : option World :=
  if session_write_ok env (sessPath w (ChatSessionFile.id f))
  then Some (writeSession f w)
  else None.

Definition createSessionFile (env : Env) (sid title : jsstring) (w : World)
    : option (World * ChatSessionFile.t) :=
  let now := now_iso env in
  let file := ChatSessionFile.mk sid title now now [] in
  w' ← writeFile env file w;
  Some (w', file).

Definition loadSessionFile (w : World) (sid : jsstring) : option ChatSessionFile.t :=
  store w !! sessPath w sid.

Definition saveSessionFile (env : Env) (file : ChatSessionFile.t) (w : World)
    : option World :=
  writeFile env (ChatSessionFile.set_updatedAt (now_iso env) file) w.

Definition renameSessionFile (env : Env) (sid title : jsstring) (w : World)
    : option (World * ChatSessionFile.t) :=
  file ← loadSessionFile w sid;
  let file := ChatSessionFile.set_title title file in
  w' ← saveSessionFile env file w;
  Some (w', ChatSessionFile.set_updatedAt (now_iso env) file).

(** [unlink] rejects when there is no such file. *)
Definition unlink (sid : jsstring) (w : World) : option World :=
  match store w !! sessPath w sid with
  | Some _ => Some (with_store (delete (sessPath w sid) (store w)) w)
  | None => None
  end.

(** [try { await unlink(...) } catch { /* ignore */ }] *)
Definition deleteSessionFile (sid : jsstring) (w : World) : World :=
  match unlink sid w with
  | Some w' => w'
  | None => w
  end.

(* ================================================================== *)
(** ** Artifact helpers (server.ts) *)
(* ================================================================== *)

(** [mkdir] and [writeFile], taken as one operation: the caller reads
    nothing between the two. *)
Definition saveBufferToArtifacts (env : Env) (fileName : jsstring)
    (buf : Blob) (w : World) : option World :=
  if artifact_write_ok env fileName
  then Some (with_artifacts (<[fileName := buf]> (artifacts w)) w)
  else None.

(** [mime.getExtension(mimeType || '') || 'png'] *)
Definition extFromMime (env : Env) (mimeType : jsstring) : jsstring :=
  opt_or (mime_getExtension env mimeType) (lit "png").

(** [buffer.toString('base64')] *)
Definition b64_digit (n : N) : N :=
  if n <? 26 then 65 + n
  else if n <? 52 then 97 + (n - 26)
  else if n <? 62 then 48 + (n - 52)
  else if n =? 62 then 43 else 47.

Fixpoint base64 (bs : list N) : jsstring :=
  match bs with
  | [] => []
  | [a] => [b64_digit (a / 4); b64_digit ((a mod 4) * 16); 61; 61]
  | [a; b] =>
      [b64_digit (a / 4); b64_digit ((a mod 4) * 16 + b / 16);
       b64_digit ((b mod 16) * 4); 61]
  | a :: b :: c :: rest =>
      b64_digit (a / 4) :: b64_digit ((a mod 4) * 16 + b / 16)
      :: b64_digit ((b mod 16) * 4 + c / 64) :: b64_digit (c mod 64)
      :: base64 rest
  end.

(* ================================================================== *)
(** ** JSON endpoints (server.ts) *)
(* ================================================================== *)

(** The bodies the endpoints send with [res.json]. *)
Inductive Body :=
| BError (error : jsstring)                   (* { error } *)
| BSession (sessionId title : jsstring)       (* { sessionId, title } *)
| BTurn (sessionId : jsstring) (turn : nat)   (* { sessionId, turn } *)
| BOk                                         (* { ok: true } *)
| BFile (file : ChatSessionFile.t).           (* the session document *)

Record Response := { status : nat; body : Body }.

Definition json (st : nat) (b : Body) : Response := {| status := st; body := b |}.




(** [POST /session].  [newId] is what [nanoid(10)] returns.  The
    handler has no [try]: when the document cannot be written its
    promise rejects after the session was registered and before any
    response is sent ([None]); what the framework and the runtime make
    of the rejection is outside this model. *)
Definition createSession (env : Env) (newId : jsstring) (w : World)
    : World * option Response :=
  let title := session_label (now_locale env) in
  let w1 := sessions_set newId (ChatSession.mk newId [] false 0) w in
  match createSessionFile env newId title w1 with
  | Some (w2, _) => (w2, Some (json 200 (BSession newId title)))
  | None => (w1, None)
  end.

(** [file.history.filter(m => m.role === 'model').length] *)
Definition count_model (h : list ChatMessage.t) : nat :=
  length (filter (fun m => ChatMessage.role m = model) h).

(** [GET /session/:id]: load the document and warm the registry. *)
Definition loadSession (sid : jsstring) (w : World) : World * Response :=
  match loadSessionFile w sid with
  | Some file =>
      let s := ChatSession.mk (ChatSessionFile.id file)
                 (ChatSessionFile.history file) false
                 (count_model (ChatSessionFile.history file)) in
      (sessions_set sid s w, json 200 (BFile file))
  | None => (w, json 404 (BError (lit "Not found")))
  end.

(** [DELETE /session/:id] *)
Definition deleteSession (sid : jsstring) (w : World) : World * Response :=
  let w1 := deleteSessionFile sid w in
  let w2 := sessions_delete sid w1 in
  (w2, json 200 BOk).

(** *** [POST /message] *)

Record MessageRequest := {
  body_sessionId : option jsstring;
  body_text : option jsstring;
  files : list UploadedFile
}.

(** [upload.array('image', 12)]: the route hands its handler at most 12
    uploads; a request with more ends in the framework's error handler
    and never reaches [acceptMessage]. *)
Definition max_uploads : nat := 12.

(** [`session-${sessionId}-${who}-${turn}-${idx}.${ext}`] *)
Definition artifact_name (sessionId who : jsstring) (turn idx : nat)
    (ext : jsstring) : jsstring :=
  lit "session-" ++ sessionId ++ lit "-" ++ who ++ lit "-" ++ of_nat turn
    ++ lit "-" ++ of_nat idx ++ lit "." ++ ext.

(** The loop over [files]: each upload is written to the artifact
    directory, then its part is pushed.  A failed write throws out of
    the loop; what was written before stays.  (multer hands over no
    hole, so the [if (!f) continue] guard never fires.) *)
Fixpoint save_uploads (env : Env) (sessionId : jsstring) (l : nat)
    (idx : nat) (fs : list UploadedFile) (parts : list Part) (w : World)
    : World * option (list Part) :=
  match fs with
  | [] => (w, Some parts)
  | f :: fs' =>
      let mimeType := or_default (mimetype f) (lit "image/png") in
      let b64 := base64 (buffer f) in
      let ext := extFromMime env mimeType in
      let fileName :=
        artifact_name sessionId (lit "user")
          (ChatSession.turn (deref w l) + 1) idx ext in
      match saveBufferToArtifacts env fileName (Bytes (buffer f)) w with
      | Some w' =>
          save_uploads env sessionId l (S idx) fs'
            (parts ++ [InlineData mimeType b64]) w'
      | None => (w, None)
      end
  end.

(** The handler called [acceptMessage] in the specification. *)
Definition acceptMessage (env : Env) (req : MessageRequest) (w : World)
    : World * Response :=
  let sessionId := opt_or (body_sessionId req) [] in
  let text := trim <$> body_text req in
  match sessions_get w sessionId with
  | None => (w, json 400 (BError (lit "Invalid sessionId")))
  | Some (l, sess) =>
      if ChatSession.generating sess
      then (w, json 409 (BError (lit "Generation in progress, please wait")))
      else
        let parts0 :=
          match text with
          | Some t => if truthy t then [Text t] else []
          | None => []
          end in
        match save_uploads env sessionId l 0 (files req) parts0 w with
        | (w1, None) => (w1, json 500 (BError (lit "Failed to accept message")))
        | (w1, Some parts) =>
            if bool_decide (length parts = 0%nat)
            then (w1, json 400 (BError (lit "Empty message")))
            else
              let w2 := mutate l (ChatSession.push (ChatMessage.mk user parts)) w1 in
              let w3 :=
                if bool_decide (ChatSession.turn (deref w2 l) = 0%nat) then
                  let title := deriveTitle (now_locale env) text (length (files req)) in
                  match renameSessionFile env sessionId title w2 with
                  | Some (w', _) => w'
                  | None => w2
                  end
                else w2 in
              (w3, json 200 (BTurn sessionId (ChatSession.turn (deref w3 l) + 1)))
        end
  end.

(* ================================================================== *)
(** ** Server-sent events (server.ts, SSE helpers) *)
(* ================================================================== *)

(** The events the chat stream sends: the event name with its payload. *)
Inductive SseEvent :=
| EvStatus (message : jsstring)           (* status { message } *)
| EvText (delta : jsstring)               (* text { delta } *)
| EvImage (mimeType data : jsstring)      (* image { mimeType, data } *)
| EvError (message : jsstring)            (* error { message } *)
| EvDone.                                 (* done {} *)

(** What is written to the response: an event ([sseSend] writes its
    [event:] and [data:] lines one after the other), or the keep-alive
    comment [: ping <Date.now()>]. *)
Inductive Frame :=
| Event (e : SseEvent)
| PingComment (now : N).

(** The response object.  [client_gone] is set by the transport when the
    peer closes the connection; the handlers below never read it. *)
Record Res := mkRes {
  sse_headers : bool;
  written : list Frame;
  ended : bool;
  client_gone : bool
}.

(** The response as express passes it to a handler. *)
Definition new_res : Res := mkRes false [] false false.

Definition sseInit (res : Res) : Res :=
  mkRes true (written res) (ended res) (client_gone res).

Definition res_write (f : Frame) (res : Res) : Res :=
  mkRes (sse_headers res) (written res ++ [f]) (ended res) (client_gone res).

Definition sseSend (res : Res) (e : SseEvent) : Res := res_write (Event e) res.

Definition ssePing (res : Res) (now : N) : Res := res_write (PingComment now) res.

Definition res_end (res : Res) : Res :=
  mkRes (sse_headers res) (written res) true (client_gone res).

Definition client_closes (res : Res) : Res :=
  mkRes (sse_headers res) (written res) (ended res) true.

(** The events among the written frames, in order. *)
Definition events (res : Res) : list SseEvent :=
  omap (fun f => match f with Event e => Some e | PingComment _ => None end)
       (written res).

(* ================================================================== *)
(** ** [GET /stream/session/:sessionId] *)
(* ================================================================== *)

(** A part as the remote model delivers it: any of the fields may be
    missing.  [p_text] is [Some] exactly when [typeof p.text] is
    ['string']. *)
Record RawInlineData := {
  rid_mimeType : option jsstring;
  rid_data : option jsstring
}.

Record RawPart := {
  p_inlineData : option RawInlineData;
  p_text : option jsstring
}.

(** A chunk, reduced to [chunk?.candidates?.[0]?.content?.parts]. *)
Definition Chunk := option (list RawPart).

Record JsError := { err_message : option jsstring }.

(** What can wake the suspended handler or touch its response. *)
Inductive Stimulus :=
| Yields (c : Chunk)        (* the chunk sequence produces a chunk *)
| Throws (e : JsError)      (* the call or the sequence raises *)
| Completes                 (* the chunk sequence is exhausted *)
| TimerFires (now : N)      (* the 15 s interval elapses *)
| ClientCloses.             (* the peer drops the connection *)

(** The request handed to [ai.models.generateContentStream]. *)
Record GenRequest := {
  gr_model : jsstring;
  gr_image_modality : bool;   (* ['IMAGE','TEXT'] rather than ['TEXT'] *)
  gr_contents : list ChatMessage.t
}.

(** The suspended handler: its captured variables. *)
Record StreamTask := mkTask {
  t_sessionId : jsstring;
  t_sess : nat;                      (* the object [sess] refers to *)
  t_res : Res;
  t_ping : bool;                     (* the interval timer is armed *)
  t_request : GenRequest;
  t_assistantParts : list Part;
  t_genIndex : nat
}.

Definition task_with_res (r : Res) (t : StreamTask) : StreamTask :=
  mkTask (t_sessionId t) (t_sess t) r (t_ping t) (t_request t)
         (t_assistantParts t) (t_genIndex t).

Inductive StreamState :=
| Running (t : StreamTask)
| Closed (res : Res) (ping : bool).

(** [[...history].reverse().find(m => m.role === 'user')] *)
Definition lastUser (h : list ChatMessage.t) : option ChatMessage.t :=
  head (filter (fun m => ChatMessage.role m = user) (rev h)).

Definition part_has_image (p : Part) : bool :=
  match p with
  | InlineData _ data => truthy data
  | Text _ => false
  end.

Definition hasImages (h : list ChatMessage.t) : bool :=
  match lastUser h with
  | Some m => existsb part_has_image (ChatMessage.parts m)
  | None => false
  end.

(** The [finally] block. *)
Definition stream_finally (l : nat) (res : Res) (w : World) : World * StreamState :=
  (mutate l (ChatSession.set_generating false) w, Closed (res_end res) false).

(** From the request to the first suspension. *)
Definition stream_start (env : Env) (sessionId : jsstring) (w : World)
    : World * StreamState :=
  let res := sseInit new_res in
  match sessions_get w sessionId with
  | None =>
      (w, Closed (res_end (sseSend res (EvError (lit "Invalid sessionId")))) false)
  | Some (l, sess) =>
      if ChatSession.generating sess
      then (w, Closed (res_end (sseSend res (EvError (lit "Already generating")))) false)
      else
        if truthy (opt_or (GEMINI_API_KEY env) [])
        then
          let model_name := opt_or (GENAI_MODEL env) (lit "gemini-2.5-flash-image-preview") in
          let request :=
            {| gr_model := model_name;
               gr_image_modality := hasImages (ChatSession.history sess);
               gr_contents := ChatSession.history sess |} in
          let w1 := mutate l (ChatSession.set_generating true) w in
          let res1 := sseSend res (EvStatus (lit "Generating...")) in
          (w1, Running (mkTask sessionId l res1 true request [] 0))
        else
          let res1 := res_end (sseSend res (EvError (lit "GEMINI_API_KEY is not set"))) in
          stream_finally l res1 w
  end.

(** [p?.inlineData?.data], when truthy, with the part's [mimeType]. *)
Definition inline_image (p : RawPart) : option (option jsstring * jsstring) :=
  d ← p_inlineData p;
  data ← rid_data d;
  if truthy data then Some (rid_mimeType d, data) else None.

(** The body of the inner loop, for one part. *)
Definition relay_part (env : Env) (st : World * StreamTask) (p : RawPart)
    : World * StreamTask :=
  let '(w, t) := st in
  match inline_image p with
  | Some (mt, data) =>
      let outMime := opt_or mt (lit "image/png") in
      let res1 := sseSend (t_res t) (EvImage outMime data) in
      let ext := extFromMime env outMime in
      let fileName :=
        artifact_name (t_sessionId t) (lit "assistant")
          (ChatSession.turn (deref w (t_sess t)) + 1) (t_genIndex t) ext in
      let '(w', res2) :=
        match saveBufferToArtifacts env fileName (FromBase64 data) w with
        | Some w' =>
            (w', sseSend res1 (EvStatus (lit "Saved generated image: " ++ fileName)))
        | None => (w, res1)   (* ignore save errors *)
        end in
      (w', mkTask (t_sessionId t) (t_sess t) res2 (t_ping t) (t_request t)
             (t_assistantParts t ++ [InlineData outMime data])
             (S (t_genIndex t)))
  | None =>
      match p_text p with
      | Some s =>
          if truthy s
          then (w, mkTask (t_sessionId t) (t_sess t)
                     (sseSend (t_res t) (EvText s)) (t_ping t) (t_request t)
                     (t_assistantParts t ++ [Text s]) (t_genIndex t))
          else (w, t)
      | None => (w, t)
      end
  end.

(** One chunk: [for (const p of chunkParts) ...]. *)
Definition relay_chunk (env : Env) (c : Chunk) (w : World) (t : StreamTask)
    : World * StreamTask :=
  foldl (relay_part env) (w, t) (default [] c).

(** The document the commit writes back:
    [{ id: sessionId, title: existing?.title || ..., createdAt:
    existing?.createdAt || ..., updatedAt: ..., history: sess.history }],
    where [existing] is what [loadSessionFile(sessionId).catch(() => null)]
    gave. *)
Definition commit_file (env : Env) (sessionId : jsstring)
    (existing : option ChatSessionFile.t) (s : ChatSession.t)
    : ChatSessionFile.t :=
  ChatSessionFile.mk sessionId
    (opt_or (ChatSessionFile.title <$> existing) (session_label (now_locale env)))
    (opt_or (ChatSessionFile.createdAt <$> existing) (now_iso env))
    (now_iso env)
    (ChatSession.history s).

(** After the loop: commit, persist, [done], then [finally].  The
    write-back sits in [try { ... } catch {}]: when it fails the state
    is as it was before it, and [done] is sent all the same. *)
Definition stream_commit (env : Env) (w : World) (t : StreamTask)
    : World * StreamState :=
  let l := t_sess t in
  let w1 := mutate l (ChatSession.push (ChatMessage.mk model (t_assistantParts t))) w in
  let w2 := mutate l ChatSession.bump w1 in
  let existing := loadSessionFile w2 (t_sessionId t) in
  let file := commit_file env (t_sessionId t) existing (deref w2 l) in
  let w3 :=
    match saveSessionFile env file w2 with
    | Some w' => w'
    | None => w2
    end in
  stream_finally l (sseSend (t_res t) EvDone) w3.

(** The [catch] block, then [finally]. *)
Definition stream_catch (e : JsError) (w : World) (t : StreamTask)
    : World * StreamState :=
  let msg := opt_or (err_message e) (lit "Generation failed") in
  stream_finally (t_sess t) (sseSend (t_res t) (EvError msg)) w.

(** The suspended handler reacting to one stimulus. *)
Definition stream_step (env : Env) (w : World) (t : StreamTask) (s : Stimulus)
    : World * StreamState :=
  match s with
  | Yields c => let '(w', t') := relay_chunk env c w t in (w', Running t')
  | Throws e => stream_catch e w t
  | Completes => stream_commit env w t
  | TimerFires now =>
      (w, Running (if t_ping t then task_with_res (ssePing (t_res t) now) t else t))
  | ClientCloses => (w, Running (task_with_res (client_closes (t_res t)) t))
  end.

Fixpoint stream_run (env : Env) (w : World) (t : StreamTask) (ss : list Stimulus)
    : World * StreamState :=
  match ss with
  | [] => (w, Running t)
  | s :: ss' =>
      match stream_step env w t s with
      | (w', Running t') => stream_run env w' t' ss'
      | closed => closed
      end
  end.

(** The handler called [streamTurn] in the specification, run against
    the stimuli that reach it, with no other request in between. *)
Definition streamTurn (env : Env) (sessionId : jsstring) (ss : list Stimulus)
    (w : World) : World * StreamState :=
  match stream_start env sessionId w with
  | (w', Running t) => stream_run env w' t ss
  | closed => closed
  end.

(* ================================================================== *)
(** ** The handlers in steps

    A handler runs until it awaits, and other handlers run before it
    is resumed.  What it awaits is a file operation or, in the stream
    handler, the remote model.  A file operation is issued when the
    handler calls it, performed at some later moment, and the handler
    is resumed at some moment after that; each of the three is a step
    of its own, and steps of other handlers may come in between. *)
(* ================================================================== *)

(** The file operations the chat handlers await. *)
Inductive IoOp :=
| OpArtifact (fileName : jsstring) (buf : Blob)  (* saveBufferToArtifacts *)
| OpRead (sid : jsstring)                        (* readFile and JSON.parse *)
| OpWrite (file : ChatSessionFile.t)             (* writeFile of a document *)
| OpUnlink (sid : jsstring).                     (* unlink *)

(** How the promise of an operation settles. *)
Inductive IoResult :=
| Fulfilled
| Rejected
| Document (file : ChatSessionFile.t).

Definition perform (env : Env) (op : IoOp) (w : World) : World * IoResult :=
  match op with
  | OpArtifact fileName buf =>
      match saveBufferToArtifacts env fileName buf w with
      | Some w' => (w', Fulfilled)
      | None => (w, Rejected)
      end
  | OpRead sid =>
      match loadSessionFile w sid with
      | Some file => (w, Document file)
      | None => (w, Rejected)
      end
  | OpWrite file =>
      match writeFile env file w with
      | Some w' => (w', Fulfilled)
      | None => (w, Rejected)
      end
  | OpUnlink sid =>
      match unlink sid w with
      | Some w' => (w', Fulfilled)
      | None => (w, Rejected)
      end
  end.

(** Where a handler is suspended on a file operation, with the
    variables it has captured. *)
Inductive Kont :=
(* POST /session, at [await createSessionFile(id, title)] *)
| KCreate (newId title : jsstring)
(* GET /session/:id, at [await loadSessionFile(id)] *)
| KLoad (sid : jsstring)
(* DELETE /session/:id, at [await deleteSessionFile(id)] *)
| KDelete (sid : jsstring)
(* POST /message, at [await saveBufferToArtifacts(fileName, buffer)]
   for the upload [f]; [idx] is already advanced *)
| KMessageSave (sessionId : jsstring) (l : nat) (text : option jsstring)
    (nfiles idx : nat) (f : UploadedFile) (rest : list UploadedFile)
    (parts : list Part)
(* POST /message, in [renameSessionFile], at [await loadSessionFile(id)] *)
| KMessageLoad (sessionId : jsstring) (l : nat) (title : jsstring)
(* POST /message, in [renameSessionFile], at [await saveSessionFile(file)] *)
| KMessageWrite (sessionId : jsstring) (l : nat)
(* the stream, at [await saveBufferToArtifacts(fileName, buf)] for the
   image [outMime], [data]; [image] is sent, [genIndex] advanced *)
| KRelaySave (t : StreamTask) (fileName outMime data : jsstring)
    (rest : list RawPart)
(* the stream, at [await loadSessionFile(sessionId).catch(() => null)] *)
| KCommitLoad (t : StreamTask)
(* the stream, at [await saveSessionFile({ ... })] *)
| KCommitWrite (t : StreamTask).

(** What a handler leaves when it is done. *)
Inductive Reply :=
| Answered (r : Response)     (* [res.json(...)] *)
| Streamed (res : Res)        (* the event stream, ended *)
| Unanswered.                 (* the handler's promise rejected *)

(** A handler that has been started. *)
Inductive Task :=
| Awaiting (k : Kont) (op : IoOp)     (* the operation is issued *)
| Settled (k : Kont) (r : IoResult)   (* performed; not yet resumed *)
| Streaming (t : StreamTask)          (* waiting for the remote model *)
| Finished (r : Reply).

(** [res.json({ sessionId, turn })] with [turn = sess.turn + 1], read
    when the response is sent. *)
Definition message_reply (sessionId : jsstring) (l : nat) (w : World) : Task :=
  Finished (Answered (json 200 (BTurn sessionId (ChatSession.turn (deref w l) + 1)))).

(** POST /message after the loop over the uploads. *)
Definition message_after_uploads (env : Env) (sessionId : jsstring) (l : nat)
    (text : option jsstring) (nfiles : nat) (parts : list Part) (w : World)
    : World * Task :=
  if bool_decide (length parts = 0%nat)
  then (w, Finished (Answered (json 400 (BError (lit "Empty message")))))
  else
    let w2 := mutate l (ChatSession.push (ChatMessage.mk user parts)) w in
    if bool_decide (ChatSession.turn (deref w2 l) = 0%nat)
    then
      let title := deriveTitle (now_locale env) text nfiles in
      (w2, Awaiting (KMessageLoad sessionId l title) (OpRead sessionId))
    else (w2, message_reply sessionId l w2).

(** POST /message at the head of the loop over the uploads. *)
Definition message_uploads (env : Env) (sessionId : jsstring) (l : nat)
    (text : option jsstring) (nfiles idx : nat) (fs : list UploadedFile)
    (parts : list Part) (w : World) : World * Task :=
  match fs with
  | [] => message_after_uploads env sessionId l text nfiles parts w
  | f :: rest =>
      let mimeType := or_default (mimetype f) (lit "image/png") in
      let ext := extFromMime env mimeType in
      let fileName :=
        artifact_name sessionId (lit "user")
          (ChatSession.turn (deref w l) + 1) idx ext in
      (w, Awaiting (KMessageSave sessionId l text nfiles (S idx) f rest parts)
            (OpArtifact fileName (Bytes (buffer f))))
  end.

(** POST /message from the request to its first await. *)
Definition message_start (env : Env) (req : MessageRequest) (w : World)
    : World * Task :=
  let sessionId := opt_or (body_sessionId req) [] in
  let text := trim <$> body_text req in
  match sessions_get w sessionId with
  | None => (w, Finished (Answered (json 400 (BError (lit "Invalid sessionId")))))
  | Some (l, sess) =>
      if ChatSession.generating sess
      then (w, Finished (Answered
                 (json 409 (BError (lit "Generation in progress, please wait")))))
      else
        let parts0 :=
          match text with
          | Some t => if truthy t then [Text t] else []
          | None => []
          end in
        message_uploads env sessionId l text (length (files req)) 0 (files req)
          parts0 w
  end.

(** The relay loop over the parts of a chunk, up to its next await. *)
Fixpoint relay_parts (env : Env) (t : StreamTask) (ps : list RawPart) (w : World)
    : World * Task :=
  match ps with
  | [] => (w, Streaming t)
  | p :: rest =>
      match inline_image p with
      | Some (mt, data) =>
          let outMime := opt_or mt (lit "image/png") in
          let res1 := sseSend (t_res t) (EvImage outMime data) in
          let ext := extFromMime env outMime in
          let fileName :=
            artifact_name (t_sessionId t) (lit "assistant")
              (ChatSession.turn (deref w (t_sess t)) + 1) (t_genIndex t) ext in
          let t1 :=
            mkTask (t_sessionId t) (t_sess t) res1 (t_ping t) (t_request t)
              (t_assistantParts t) (S (t_genIndex t)) in
          (w, Awaiting (KRelaySave t1 fileName outMime data rest)
                (OpArtifact fileName (FromBase64 data)))
      | None =>
          match p_text p with
          | Some s =>
              if truthy s
              then relay_parts env
                     (mkTask (t_sessionId t) (t_sess t)
                        (sseSend (t_res t) (EvText s)) (t_ping t) (t_request t)
                        (t_assistantParts t ++ [Text s]) (t_genIndex t))
                     rest w
              else relay_parts env t rest w
          | None => relay_parts env t rest w
          end
      end
  end.

(** A reaction of the stream handler as a task. *)
Definition task_of (st : StreamState) : Task :=
  match st with
  | Running t => Streaming t
  | Closed res _ => Finished (Streamed res)
  end.

(** The handler is resumed with the outcome of what it awaited. *)
Definition resume (env : Env) (k : Kont) (r : IoResult) (w : World)
    : World * Task :=
  match k with
  | KCreate newId title =>
      match r with
      | Rejected => (w, Finished Unanswered)
      | _ => (w, Finished (Answered (json 200 (BSession newId title))))
      end
  | KLoad sid =>
      match r with
      | Document file =>
          let s := ChatSession.mk (ChatSessionFile.id file)
                     (ChatSessionFile.history file) false
                     (count_model (ChatSessionFile.history file)) in
          (sessions_set sid s w, Finished (Answered (json 200 (BFile file))))
      | _ => (w, Finished (Answered (json 404 (BError (lit "Not found")))))
      end
  | KDelete sid =>
      (sessions_delete sid w, Finished (Answered (json 200 BOk)))
  | KMessageSave sessionId l text nfiles idx f rest parts =>
      match r with
      | Rejected =>
          (w, Finished (Answered (json 500 (BError (lit "Failed to accept message")))))
      | _ =>
          let mimeType := or_default (mimetype f) (lit "image/png") in
          message_uploads env sessionId l text nfiles idx rest
            (parts ++ [InlineData mimeType (base64 (buffer f))]) w
      end
  | KMessageLoad sessionId l title =>
      match r with
      | Document file =>
          let file := ChatSessionFile.set_title title file in
          (w, Awaiting (KMessageWrite sessionId l)
                (OpWrite (ChatSessionFile.set_updatedAt (now_iso env) file)))
      | _ => (w, message_reply sessionId l w)
      end
  | KMessageWrite sessionId l => (w, message_reply sessionId l w)
  | KRelaySave t fileName outMime data rest =>
      let res2 :=
        match r with
        | Rejected => t_res t   (* ignore save errors *)
        | _ => sseSend (t_res t) (EvStatus (lit "Saved generated image: " ++ fileName))
        end in
      relay_parts env
        (mkTask (t_sessionId t) (t_sess t) res2 (t_ping t) (t_request t)
           (t_assistantParts t ++ [InlineData outMime data]) (t_genIndex t))
        rest w
  | KCommitLoad t =>
      let existing := match r with Document file => Some file | _ => None end in
      let file := commit_file env (t_sessionId t) existing (deref w (t_sess t)) in
      (w, Awaiting (KCommitWrite t)
            (OpWrite (ChatSessionFile.set_updatedAt (now_iso env) file)))
  | KCommitWrite t =>
      let '(w', st) := stream_finally (t_sess t) (sseSend (t_res t) EvDone) w in
      (w', task_of st)
  end.

(** The remote model wakes the handler that waits for it. *)
Definition deliver (env : Env) (t : StreamTask) (s : Stimulus) (w : World)
    : World * Task :=
  match s with
  | Yields c => relay_parts env t (default [] c) w
  | Throws e => let '(w', st) := stream_catch e w t in (w', task_of st)
  | Completes =>
      let l := t_sess t in
      let w1 :=
        mutate l (ChatSession.push (ChatMessage.mk model (t_assistantParts t))) w in
      let w2 := mutate l ChatSession.bump w1 in
      (w2, Awaiting (KCommitLoad t) (OpRead (t_sessionId t)))
  | TimerFires now =>
      (w, Streaming (if t_ping t then task_with_res (ssePing (t_res t) now) t else t))
  | ClientCloses => (w, Streaming (task_with_res (client_closes (t_res t)) t))
  end.

(** The stream handler inside a continuation, if it is one of a
    stream. *)
Definition kont_stream (k : Kont) : option StreamTask :=
  match k with
  | KRelaySave t _ _ _ _ | KCommitLoad t | KCommitWrite t => Some t
  | _ => None
  end.

Definition kont_with_stream (t : StreamTask) (k : Kont) : Kont :=
  match k with
  | KRelaySave _ fileName outMime data rest => KRelaySave t fileName outMime data rest
  | KCommitLoad _ => KCommitLoad t
  | KCommitWrite _ => KCommitWrite t
  | _ => k
  end.

(** The interval timer and the transport reach the response of a
    stream wherever its handler is suspended. *)
Definition touch (s : Stimulus) (t : StreamTask) : StreamTask :=
  match s with
  | TimerFires now => if t_ping t then task_with_res (ssePing (t_res t) now) t else t
  | ClientCloses => task_with_res (client_closes (t_res t)) t
  | _ => t
  end.

Definition touch_kont (s : Stimulus) (k : Kont) : Kont :=
  match kont_stream k with
  | Some t => kont_with_stream (touch s t) k
  | None => k
  end.

(* ================================================================== *)
(** ** The server: handlers interleaved at their awaits

    [tasks] holds every handler that was started, in the order of the
    requests. *)
(* ================================================================== *)

Record System := mkSystem { world : World; tasks : list Task }.

Definition initial : System := mkSystem empty_world [].

Inductive Action :=
(* a request arrives: its handler runs up to its first await *)
| ACreate (env : Env) (newId : jsstring)
| ALoad (sid : jsstring)
| ADelete (sid : jsstring)
| AMessage (env : Env) (req : MessageRequest)
| AStream (env : Env) (sid : jsstring)
(* the file operation of handler [i] is performed *)
| APerform (env : Env) (i : nat)
(* handler [i] is resumed after its file operation *)
| AResume (env : Env) (i : nat)
(* the remote model, the timer or the transport reaches handler [i] *)
| ADeliver (env : Env) (i : nat) (s : Stimulus).

(** The handler of a request up to its first await. *)
Definition start (a : Action) (w : World) : option (World * Task) :=
  match a with
  | ACreate env newId =>
      let title := session_label (now_locale env) in
      let w1 := sessions_set newId (ChatSession.mk newId [] false 0) w in
      let now := now_iso env in
      Some (w1, Awaiting (KCreate newId title)
                  (OpWrite (ChatSessionFile.mk newId title now now [])))
  | ALoad sid => Some (w, Awaiting (KLoad sid) (OpRead sid))
  | ADelete sid => Some (w, Awaiting (KDelete sid) (OpUnlink sid))
  | AMessage env req => Some (message_start env req w)
  | AStream env sid =>
      let '(w', st) := stream_start env sid w in Some (w', task_of st)
  | _ => None
  end.

(** A step of a started handler.  The remote model reaches a handler
    only where it waits for it; the timer and the transport reach the
    response of a stream wherever its handler is suspended ([touch]
    ignores the other stimuli). *)
Definition advance (a : Action) (task : Task) (w : World) : World * Task :=
  match a with
  | APerform env _ =>
      match task with
      | Awaiting k op => let '(w', r) := perform env op w in (w', Settled k r)
      | _ => (w, task)
      end
  | AResume env _ =>
      match task with
      | Settled k r => resume env k r w
      | _ => (w, task)
      end
  | ADeliver env _ s =>
      match task with
      | Streaming t => deliver env t s w
      | Awaiting k op => (w, Awaiting (touch_kont s k) op)
      | Settled k r => (w, Settled (touch_kont s k) r)
      | Finished _ => (w, task)
      end
  | _ => (w, task)
  end.

Definition target_task (a : Action) : nat :=
  match a with
  | APerform _ i | AResume _ i | ADeliver _ i _ => i
  | _ => 0%nat
  end.

Definition sys_step (sys : System) (a : Action) : System :=
  match start a (world sys) with
  | Some (w', task) => mkSystem w' (tasks sys ++ [task])
  | None =>
      match tasks sys !! target_task a with
      | Some task =>
          let '(w', task') := advance a task (world sys) in
          mkSystem w' (<[target_task a := task']> (tasks sys))
      | None => sys
      end
  end.

Definition run_system (acts : list Action) : System := foldl sys_step initial acts.

(** The stream handler of a task that has taken the lock and not yet
    reached its [finally] block. *)
Definition generating_task (task : Task) : option StreamTask :=
  match task with
  | Streaming t => Some t
  | Awaiting k _ | Settled k _ => kont_stream k
  | Finished _ => None
  end.

(** The generations in flight for the session id [sid]. *)
Definition in_flight (sid : jsstring) (sys : System) : nat :=
  length (filter (fun task => t_sessionId <$> generating_task task = Some sid)
            (tasks sys)).

(** What the handler of [POST /session] leaves when it is done. *)
Definition reply_of (r : option Response) : Reply :=
  match r with
  | Some r => Answered r
  | None => Unanswered
  end.

(** A handler run with no other step in between: its operations are
    performed and it is resumed at once, until it waits for the remote
    model or is done. *)
Fixpoint drive (fuel : nat) (env : Env) (task : Task) (w : World)
    : World * Task :=
  match fuel with
  | O => (w, task)
  | S fuel' =>
      match task with
      | Awaiting k op =>
          let '(w1, r) := perform env op w in
          let '(w2, task') := resume env k r w1 in
          drive fuel' env task' w2
      | Settled k r =>
          let '(w2, task') := resume env k r w in
          drive fuel' env task' w2
      | _ => (w, task)
      end
  end.

(** A request handled with no other step in between. *)
Definition handle_alone (fuel : nat) (env : Env) (a : Action) (w : World)
    : option (World * Task) :=
  '(w1, task) ← start a w; Some (drive fuel env task w1).

(* ================================================================== *)
(** ** Successful turns *)
(* ================================================================== *)

#[global] Instance SseEvent_eq_dec : EqDecision SseEvent.
Proof. solve_decision. Defined.

(** A stream completed successfully: it is closed and its last event is
    [done]. *)
Definition completed (st : StreamState) : bool :=
  match st with
  | Closed res _ => bool_decide (last (events res) = Some EvDone)
  | Running _ => false
  end.

(** What one turn is fed with: the message, the stimuli of its stream
    and the environment of each of the two requests. *)
Record TurnInput := {
  ti_env_message : Env;
  ti_text : option jsstring;
  ti_files : list UploadedFile;
  ti_env_stream : Env;
  ti_stimuli : list Stimulus
}.

(** One accepted user message, then one successfully completed stream;
    [None] when either step is not successful. *)
Definition successful_turn (sid : jsstring) (ti : TurnInput) (w : World)
    : option World :=
  let req := {| body_sessionId := Some sid; body_text := ti_text ti;
                files := ti_files ti |} in
  let '(w1, r) := acceptMessage (ti_env_message ti) req w in
  if bool_decide (status r = 200%nat) then
    let '(w2, st) := streamTurn (ti_env_stream ti) sid (ti_stimuli ti) w1 in
    if completed st then Some w2 else None
  else None.

Fixpoint successful_turns (sid : jsstring) (tis : list TurnInput) (w : World)
    : option World :=
  match tis with
  | [] => Some w
  | ti :: tis' => w' ← successful_turn sid ti w; successful_turns sid tis' w'
  end.


(* ================================================================== *)
(** ** The title as the specification words it

    "a single-line, whitespace-collapsed ... prefix": the words of the
    text, joined by single spaces. *)
(* ================================================================== *)

(** The word that starts the text (empty when the text starts with
    white space) and the words after it. *)
Fixpoint tokens (s : jsstring) : jsstring * list jsstring :=
  match s with
  | [] => ([], [])
  | c :: s' =>
      let '(w, ws) := tokens s' in
      if is_space c
      then ([], match w with [] => ws | _ => w :: ws end)
      else (c :: w, ws)
  end.

Definition words (s : jsstring) : list jsstring :=
  let '(w, ws) := tokens s in
  match w with [] => ws | _ => w :: ws end.

(** Every word preceded by one space. *)
Definition spaced (ws : list jsstring) : jsstring :=
  concat (map (fun x => 32 :: x) ws).

Definition unwords (ws : list jsstring) : jsstring :=
  match ws with
  | [] => []
  | x :: xs => x ++ spaced xs
  end.

(** The whitespace-collapsed, trimmed form of a text. *)
Definition collapsed (s : jsstring) : jsstring := unwords (words s).

(** A text counts as present when it is not blank. *)
Definition blank (text : option jsstring) : Prop :=
  match text with
  | Some t => trim t = []
  | None => True
  end.

(** An example environment: the key is set, both directories are
    writable, [mime] knows PNG and JPEG. *)
Definition example_env : Env := {|
  GEMINI_API_KEY := Some (lit "test-key");
  GENAI_MODEL := None;
  mime_getExtension := fun m =>
    if bool_decide (m = lit "image/png") then Some (lit "png")
    else if bool_decide (m = lit "image/jpeg") then Some (lit "jpeg")
    else None;
  now_iso := lit "2025-09-02T11:53:13.000Z";
  now_locale := lit "9/2/2025, 7:53:13 PM";
  artifact_write_ok := fun _ => true;
  session_write_ok := fun _ => true
|}.


(* ================================================================== *)
(** ** Auxiliary notions used in the statements *)
(* ================================================================== *)

(** The part of the state a stream or an upload loop leaves alone on
    its way: everything but the artifact directory. *)
Definition only_artifacts (w w' : World) : Prop :=
  heap w' = heap w /\ sessions w' = sessions w /\ store w' = store w
  /\ file_of w' = file_of w.

(** The text part of a message: [if (text) parts.push({ text })] with
    [text] trimmed. *)
Definition text_parts (text : option jsstring) : list Part :=
  match trim <$> text with
  | Some t => if truthy t then [Text t] else []
  | None => []
  end.

(** The session id a message request addresses:
    [req.body?.sessionId || '']. *)
Definition target (req : MessageRequest) : jsstring :=
  opt_or (body_sessionId req) [].

(** A stimulus that ends the handler. *)
Definition terminal (s : Stimulus) : bool :=
  match s with
  | Throws _ | Completes => true
  | _ => false
  end.


(** A turn that cannot but succeed on a live, idle session: the message
    has something in it, its uploads can be written, the API key is
    set, and the chunk sequence runs to its end without raising. *)
Definition well_formed_turn (ti : TurnInput) : Prop :=
  (~ blank (ti_text ti) \/ ti_files ti <> [])
  /\ (forall name, artifact_write_ok (ti_env_message ti) name = true)
  /\ truthy (opt_or (GEMINI_API_KEY (ti_env_stream ti)) []) = true
  /\ exists pre rest,
       ti_stimuli ti = pre ++ Completes :: rest
       /\ Forall (fun x => terminal x = false) pre.

(** The process is restarted: the registry and its objects are gone,
    the files stay. *)
Definition restart (w : World) : World :=
  mkWorld [] ∅ (store w) (artifacts w) (file_of w).

(** The handler as it is suspended for the first time: [status] sent,
    timer armed, nothing accumulated. *)
Definition first_task (env : Env) (sid : jsstring) (l : nat)
    (s : ChatSession.t) : StreamTask :=
  mkTask sid l (sseSend (sseInit new_res) (EvStatus (lit "Generating..."))) true
    {| gr_model := opt_or (GENAI_MODEL env) (lit "gemini-2.5-flash-image-preview");
       gr_image_modality := hasImages (ChatSession.history s);
       gr_contents := ChatSession.history s |} [] 0.

(** The name under which an event is sent. *)
Definition event_name (e : SseEvent) : jsstring :=
  match e with
  | EvStatus _ => lit "status"
  | EvText _ => lit "text"
  | EvImage _ _ => lit "image"
  | EvError _ => lit "error"
  | EvDone => lit "done"
  end.

(** The events the relay loop sends; [error] and [done] are not among
    them. *)
Definition relay_event (e : SseEvent) : Prop :=
  match e with
  | EvStatus _ | EvText _ | EvImage _ _ => True
  | EvError _ | EvDone => False
  end.

(** How a suspended handler may differ from an earlier state of
    itself: more events of the relay loop written, more parts
    accumulated. *)
Definition progress (t t' : StreamTask) : Prop :=
  t_sessionId t' = t_sessionId t
  /\ t_sess t' = t_sess t
  /\ t_ping t' = t_ping t
  /\ ended (t_res t') = ended (t_res t)
  /\ exists evs, events (t_res t') = events (t_res t) ++ evs
               /\ Forall relay_event evs.

(** The generating flags of the session objects, by address. *)
Definition flags (w : World) : list bool :=
  ChatSession.generating <$> heap w.

(** The flag of the object at [l]; unset where there is no object. *)
Definition flag (w : World) (l : nat) : bool :=
  default false (flags w !! l).

(** The response, the task and the state of a stream with the
    transport's disconnect mark erased. *)
Definition forget_client (r : Res) : Res :=
  mkRes (sse_headers r) (written r) (ended r) false.

Definition forget_task (t : StreamTask) : StreamTask :=
  task_with_res (forget_client (t_res t)) t.

Definition forget_state (st : StreamState) : StreamState :=
  match st with
  | Running t => Running (forget_task t)
  | Closed r p => Closed (forget_client r) p
  end.

(** The stimuli without the disconnects. *)
Definition is_disconnect (s : Stimulus) : bool :=
  match s with ClientCloses => true | _ => false end.

Definition connected_only (ss : list Stimulus) : list Stimulus :=
  filter (fun s => is_disconnect s = false) ss.


(** String literals and the handlers' building blocks are unfolded on
    request only. *)
#[global] Arguments lit : simpl never.
#[global] Arguments of_nat : simpl never.
#[global] Arguments artifact_name : simpl never.
#[global] Arguments relay_part : simpl never.
#[global] Arguments stream_commit : simpl never.
#[global] Arguments stream_catch : simpl never.
#[global] Arguments deriveTitle : simpl never.


(* ================================================================== *)
(** ** Further notions: what is relayed and what is kept *)
(* ================================================================== *)

(** The part a relayed event leaves in the accumulator: a text delta
    or an image does, a status line does not. *)
Definition part_of_event (e : SseEvent) : option Part :=
  match e with
  | EvText d => Some (Text d)
  | EvImage m d => Some (InlineData m d)
  | EvStatus _ | EvError _ | EvDone => None
  end.

Definition parts_of_events (evs : list SseEvent) : list Part :=
  omap part_of_event evs.

(** The accumulator of a suspended stream holds what was relayed. *)
Definition accumulator_in_step (t : StreamTask) : Prop :=
  t_assistantParts t = parts_of_events (events (t_res t)).

(** The event that ends a stream. *)
Definition closing_event (e : SseEvent) : Prop :=
  match e with
  | EvDone | EvError _ => True
  | _ => False
  end.

(** Every session object counts its turns by its model messages. *)
Definition turn_counts (w : World) : Prop :=
  forall l s, heap w !! l = Some s ->
    ChatSession.turn s = count_model (ChatSession.history s).

(** Every document is in the file that its own id names. *)
Definition store_keyed (w : World) : Prop :=
  forall p f, store w !! p = Some f -> sessPath w (ChatSessionFile.id f) = p.

(** No two registered ids share a session object. *)
Definition registry_injective (w : World) : Prop :=
  forall a b l, sessions w !! a = Some l -> sessions w !! b = Some l -> a = b.

(** Every address in the registry is the address of an object. *)
Definition registry_valid (w : World) : Prop :=
  forall sid l, sessions w !! sid = Some l -> (l < length (heap w))%nat.

(** What every handler keeps. *)
Definition consistent (w : World) : Prop :=
  turn_counts w /\ store_keyed w /\ registry_injective w /\ registry_valid w.

(** A change of a session object that keeps its id and the agreement
    of its turn counter with its history. *)
Definition gentle (f : ChatSession.t -> ChatSession.t) : Prop :=
  forall s,
    ChatSession.id (f s) = ChatSession.id s
    /\ (ChatSession.turn s = count_model (ChatSession.history s) ->
        ChatSession.turn (f s) = count_model (ChatSession.history (f s))).

(** ** One upload in the loop of [POST /message] *)

(** [f.mimetype || 'image/png'] *)
Definition upload_mime (f : UploadedFile) : jsstring :=
  or_default (mimetype f) (lit "image/png").

(** The part the loop pushes for an upload. *)
Definition upload_part (f : UploadedFile) : Part :=
  InlineData (upload_mime f) (base64 (buffer f)).

(** The file name the loop gives the upload at index [idx] of a message
    sent while the session's counter is [turn]. *)
Definition upload_name (env : Env) (sid : jsstring) (turn idx : nat)
    (f : UploadedFile) : jsstring :=
  artifact_name sid (lit "user") (turn + 1) idx (extFromMime env (upload_mime f)).

(** The code units of the decimal digits. *)
Definition digit (c : N) : Prop := 48 <= c <= 57.

(* ================================================================== *)
(** ** Legacy one-shot endpoints (server.ts)

    [POST /upload] and [GET /stream/:id] keep their own [uploads] map
    beside the process state of the chat endpoints. *)
(* ================================================================== *)

(** An entry of the [uploads] map. *)
Record Upload := mkUpload {
  up_base64 : jsstring;
  up_mimeType : jsstring;
  up_prompt : option jsstring;
  up_inputFileName : jsstring
}.

Record Legacy := mkLegacy {
  l_world : World;
  uploads : gmap jsstring Upload
}.

(** [req.file] and [req.body?.prompt] of an upload request. *)
Record UploadRequest := {
  req_file : option UploadedFile;
  req_prompt : option jsstring
}.

Inductive UploadResponse :=
| UpId (id : jsstring)                       (* { id } *)
| UpError (status : nat) (error : jsstring). (* status, { error } *)

(** [`input-${id}.${ext}`] *)
Definition input_name (id ext : jsstring) : jsstring :=
  lit "input-" ++ id ++ lit "." ++ ext.

(** [POST /upload].  [newId] is what [nanoid(12)] returns. *)
Definition legacyUpload (env : Env) (newId : jsstring) (req : UploadRequest)
    (st : Legacy) : Legacy * UploadResponse :=
  match req_file req with
  | None => (st, UpError 400 (lit "No image provided"))
  | Some f =>
      let mimeType := or_default (mimetype f) (lit "image/png") in
      let b64 := base64 (buffer f) in
      let prompt :=
        match req_prompt req with
        | Some p => if truthy p then Some p else None
        | None => None
        end in
      let ext := extFromMime env mimeType in
      let inputFileName := input_name newId ext in
      match saveBufferToArtifacts env inputFileName (Bytes (buffer f)) (l_world st) with
      | Some w' =>
          (mkLegacy w' (<[newId := mkUpload b64 mimeType prompt inputFileName]> (uploads st)),
           UpId newId)
      | None => (st, UpError 500 (lit "Upload failed"))
      end
  end.

(** The callback of [setTimeout(() => uploads.delete(id), ...)]. *)
Definition upload_expires (id : jsstring) (st : Legacy) : Legacy :=
  mkLegacy (l_world st) (delete id (uploads st)).

(** The suspended legacy stream handler. *)
Record LegacyTask := mkLegacyTask {
  lt_id : jsstring;
  lt_res : Res;
  lt_ping : bool;
  lt_request : GenRequest
}.

Inductive LegacyState :=
| LRunning (t : LegacyTask)
| LClosed (res : Res) (ping : bool).

(** The parts of the one user message sent to the remote model. *)
Definition legacy_parts (item : Upload) : list Part :=
  match up_prompt item with
  | Some p => if truthy p && truthy (trim p) then [Text (trim p)] else []
  | None => []
  end ++ [InlineData (up_mimeType item) (up_base64 item)].

(** The [finally] block. *)
Definition legacy_finally (id : jsstring) (res : Res) (st : Legacy)
    : Legacy * LegacyState :=
  (mkLegacy (l_world st) (delete id (uploads st)), LClosed (res_end res) false).

(** [GET /stream/:id], from the request to the first suspension. *)
Definition legacy_start (env : Env) (id : jsstring) (st : Legacy)
    : Legacy * LegacyState :=
  let res := sseInit new_res in
  match uploads st !! id with
  | None =>
      (st, LClosed (res_end (sseSend res (EvError (lit "Invalid or expired id")))) false)
  | Some item =>
      if truthy (opt_or (GEMINI_API_KEY env) [])
      then
        let request :=
          {| gr_model := opt_or (GENAI_MODEL env) (lit "gemini-2.5-flash-image-preview");
             gr_image_modality := true;
             gr_contents := [ChatMessage.mk user (legacy_parts item)] |} in
        (st, LRunning (mkLegacyTask id (sseSend res (EvStatus (lit "Generating...")))
                         true request))
      else
        legacy_finally id
          (res_end (sseSend res (EvError (lit "GEMINI_API_KEY is not set")))) st
  end.

(** The body of the inner loop, for one part: relay, keep nothing. *)
Definition legacy_relay_part (res : Res) (p : RawPart) : Res :=
  match inline_image p with
  | Some (mt, data) => sseSend res (EvImage (opt_or mt (lit "image/png")) data)
  | None =>
      match p_text p with
      | Some s => if truthy s then sseSend res (EvText s) else res
      | None => res
      end
  end.

Definition legacy_with_res (r : Res) (t : LegacyTask) : LegacyTask :=
  mkLegacyTask (lt_id t) r (lt_ping t) (lt_request t).

(** The suspended handler reacting to one stimulus. *)
Definition legacy_step (st : Legacy) (t : LegacyTask) (s : Stimulus)
    : Legacy * LegacyState :=
  match s with
  | Yields c =>
      (st, LRunning (legacy_with_res (foldl legacy_relay_part (lt_res t) (default [] c)) t))
  | Throws e =>
      let msg := opt_or (err_message e) (lit "Generation failed") in
      legacy_finally (lt_id t) (sseSend (lt_res t) (EvError msg)) st
  | Completes => legacy_finally (lt_id t) (sseSend (lt_res t) EvDone) st
  | TimerFires now =>
      (st, LRunning (if lt_ping t then legacy_with_res (ssePing (lt_res t) now) t else t))
  | ClientCloses => (st, LRunning (legacy_with_res (client_closes (lt_res t)) t))
  end.

Fixpoint legacy_run (st : Legacy) (t : LegacyTask) (ss : list Stimulus)
    : Legacy * LegacyState :=
  match ss with
  | [] => (st, LRunning t)
  | s :: ss' =>
      match legacy_step st t s with
      | (st', LRunning t') => legacy_run st' t' ss'
      | closed => closed
      end
  end.

(** The handler run against the stimuli that reach it. *)
Definition legacyStream (env : Env) (id : jsstring) (ss : list Stimulus)
    (st : Legacy) : Legacy * LegacyState :=
  match legacy_start env id st with
  | (st', LRunning t) => legacy_run st' t ss
  | closed => closed
  end.

(** ** Generated images *)

(** The images among the events sent, in order. *)
Definition image_events (evs : list SseEvent) : list (jsstring * jsstring) :=
  omap (fun e => match e with EvImage m d => Some (m, d) | _ => None end) evs.

(** The file name the relay loop gives the generated image at index
    [idx] while the session's counter is [turn]. *)
Definition generated_name (env : Env) (sid : jsstring) (turn idx : nat)
    (mimeType : jsstring) : jsstring :=
  artifact_name sid (lit "assistant") (turn + 1) idx (extFromMime env mimeType).


(** Every image sent on [res] whose file could be written is in the
    artifact directory. *)
Definition images_kept (env : Env) (sid : jsstring) (turn : nat)
    (w : World) (res : Res) : Prop :=
  forall i m d,
    image_events (events res) !! i = Some (m, d) ->
    artifact_write_ok env (generated_name env sid turn i m) = true ->
    artifacts w !! generated_name env sid turn i m = Some (FromBase64 d).

Definition saved (env : Env) (turn : nat) (w : World) (t : StreamTask) : Prop :=
  t_genIndex t = length (image_events (events (t_res t)))
  /\ images_kept env (t_sessionId t) turn w (t_res t).

(** ** The lock, object by object *)

(** The session object whose lock a task holds: that of a stream
    handler between [sess.generating = true] and its [finally]
    block. *)
Definition holder (task : Task) : option nat :=
  t_sess <$> generating_task task.

(** The generations in flight on the session object at [l]. *)
Definition streams_on (l : nat) (sys : System) : nat :=
  length (filter (fun task => holder task = Some l) (tasks sys)).

(** The lock and the suspended handlers agree: an object's flag is set
    exactly when one stream handler holds the object, and never more
    than one does. *)
Definition lock_agrees (sys : System) : Prop :=
  forall l, streams_on l sys = if flag (world sys) l then 1%nat else 0%nat.

(** What a step of one handler does to the locks: it keeps what it
    holds and leaves every flag alone, or it takes the lock of an
    object whose flag was unset, or it releases the lock it holds. *)
Inductive lock_move (w w' : World) (before after : option nat) : Prop :=
| lock_kept :
    after = before ->
    (forall l, flag w' l = flag w l) ->
    lock_move w w' before after
| lock_taken l0 :
    before = None -> after = Some l0 -> flag w l0 = false ->
    (forall l, flag w' l = if decide (l = l0) then true else flag w l) ->
    lock_move w w' before after
| lock_released l0 :
    before = Some l0 -> after = None ->
    (forall l, flag w' l = if decide (l = l0) then false else flag w l) ->
    lock_move w w' before after.
(* ================================================================== *)
(** * Properties *)
(* ================================================================== *)

(** ** Strings *)

Section Strings.

Implicit Types (s t : jsstring) (c : N).

Lemma trimEnd_cons_nonspace c s :
is_space c = false -> trimEnd (c :: s) = c :: trimEnd s.
Proof. intros H. simpl. rewrite H. by destruct (trimEnd s). Qed.

Lemma trimEnd_cons_space c s :
is_space c = true ->
trimEnd (c :: s) = match trimEnd s with [] => [] | r => c :: r end.
Proof. intros H. simpl. by rewrite H. Qed.

Lemma trimStart_nonspace c s :
is_space c = false -> trimStart (c :: s) = c :: s.
Proof. intros H. simpl. by rewrite H. Qed.

(** A text without white space is left alone by every helper. *)
Lemma replace_ws_from_nospace b s :
Forall (fun c => is_space c = false) s -> replace_ws_from b s = s.
Proof.
intros H. revert b. induction H as [|c s Hc _ IH]; intros b; simpl; [done|].
by rewrite Hc, IH.
Qed.

Lemma trimEnd_nospace s :
Forall (fun c => is_space c = false) s -> trimEnd s = s.
Proof.
induction 1 as [|c s Hc _ IH]; [done|].
by rewrite trimEnd_cons_nonspace, IH.
Qed.

Lemma trim_nospace s :
Forall (fun c => is_space c = false) s -> trim s = s.
Proof.
intros H. unfold trim. destruct H as [|c s Hc H]; [done|].
rewrite trimStart_nonspace by done. apply trimEnd_nospace. by constructor.
Qed.

(** After a replaced run the text never starts with white space. *)
Lemma trimStart_replace_in_run s :
trimStart (replace_ws_from true s) = replace_ws_from true s.
Proof.
induction s as [|c s IH]; simpl; [done|].
destruct (is_space c) eqn:Hc; [done|]. simpl. by rewrite Hc.
Qed.

Lemma trimStart_replace_ws s :
trimStart (replace_ws s) = replace_ws_from true s.
Proof.
unfold replace_ws. destruct s as [|c s]; simpl; [done|].
destruct (is_space c) eqn:Hc; simpl.
- apply trimStart_replace_in_run.
- by rewrite Hc.
Qed.

Lemma tokens_shape s w ws :
tokens s = (w, ws) ->
Forall (fun c => is_space c = false) w /\ Forall (fun x => x <> []) ws.
Proof.
revert w ws. induction s as [|c s IH]; simpl; intros w ws E.
- by inversion E.
- destruct (tokens s) as [w' ws'].
  destruct (IH _ _ eq_refl) as [Hw Hws].
  destruct (is_space c) eqn:Hc; inversion E; subst; clear E.
  + split; [constructor|]. destruct w'; [done|]. by constructor.
  + split; [by constructor | done].
Qed.

(** What is left of the replaced text once trailing white space is
  dropped, in terms of the words of the text. *)
Lemma trimEnd_replace_tokens s w ws :
tokens s = (w, ws) ->
trimEnd (replace_ws_from false s) = w ++ spaced ws
/\ trimEnd (replace_ws_from true s)
   = match w with [] => tail (spaced ws) | _ => w ++ spaced ws end.
Proof.
revert w ws. induction s as [|c s IH]; simpl; intros w ws E.
- by inversion E.
- destruct (tokens s) as [w' ws'] eqn:Et.
  destruct (IH _ _ eq_refl) as [IHf IHt].
  destruct (tokens_shape _ _ _ Et) as [_ Hws'].
  destruct (is_space c) eqn:Hc; inversion E; subst; clear E.
  + (* a white-space unit *)
    assert (Hrun : match trimEnd (replace_ws_from true s) with
                   | [] => []
                   | r => 32 :: r
                   end
                   = spaced match w' with [] => ws' | _ => w' :: ws' end).
    { rewrite IHt. destruct w' as [|a w'].
      - destruct Hws' as [|x xs Hx _]; [done|]. simpl.
        destruct x; [done|]. done.
      - done. }
    split.
    * rewrite trimEnd_cons_space by done. exact Hrun.
    * rewrite IHt. destruct w' as [|a w']; [|done].
      by destruct ws'.
  + (* a unit of a word *)
    rewrite !trimEnd_cons_nonspace by done. by rewrite IHf.
Qed.

(** The code's [text.replace(/\s+/g, ' ').trim()] is the text's words
  joined by single spaces. *)
Lemma oneLine_collapsed s : trim (replace_ws s) = collapsed s.
Proof.
unfold trim, collapsed, words, unwords.
rewrite trimStart_replace_ws.
destruct (tokens s) as [w ws] eqn:Et.
destruct (trimEnd_replace_tokens _ _ _ Et) as [_ ->].
destruct w as [|a w]; [|done].
destruct ws as [|x xs]; [done|]. done.
Qed.

End Strings.

(** ** [deriveTitle] *)

Section DeriveTitle.

Variable now : jsstring.

Lemma deriveTitle_blank text n :
blank text ->
deriveTitle now text n
= if (0 <? n)%nat then images_label n else session_label now.
Proof.
destruct text as [t|]; unfold deriveTitle; simpl; [|done].
intros ->. simpl. by rewrite andb_false_r.
Qed.

Lemma deriveTitle_present t n :
trim t <> [] ->
deriveTitle now (Some t) n
= if (maxLen <? length (collapsed t))%nat
  then take maxLen (collapsed t) ++ ellipsis
  else collapsed t.
Proof.
intros Ht. unfold deriveTitle.
assert (truthy t = true) as -> by (by destruct t).
assert ((0 <? length (trim t))%nat = true) as ->.
{ apply Nat.ltb_lt. destruct (trim t); [done | simpl; lia]. }
simpl. by rewrite oneLine_collapsed.
Qed.

(** A text without white space is its own collapsed form. *)
Lemma collapsed_nospace t :
Forall (fun c => is_space c = false) t -> collapsed t = t.
Proof.
intros H. rewrite <- oneLine_collapsed. unfold replace_ws.
rewrite replace_ws_from_nospace by done. by apply trim_nospace.
Qed.

End DeriveTitle.

(** C8, the general sentence as stated fails on blank text: the
    collapsed form of three spaces is the empty string, well within 30
    characters, yet the title is the time-stamped fallback label. *)
Lemma deriveTitle_blank_text_counterexample :
  let t := lit "   " in
  (length (collapsed t) <= 30)%nat
  /\ deriveTitle (lit "9/2/2025, 7:53:13 PM") (Some t) 0 <> collapsed t.
Proof. split; [vm_compute; lia | by vm_compute]. Qed.

(** C8 (amended): the four cases of the specification, and in general,
    for every text that is not blank and whose whitespace-collapsed
    trimmed form has at most 30 characters, the title is that form
    unchanged.  A blank or missing text counts as no text: the title is
    then the image-count label or, without images, the label made of the
    fixed prefix and the current local time. *)
Theorem deriveTitle_cases (now : jsstring) :
  deriveTitle now (Some (lit "  Hello   world  ")) 0 = lit "Hello world"
  /\ (forall t n,
        length t = 40%nat -> Forall (fun c => is_space c = false) t ->
        deriveTitle now (Some t) n = take 30 t ++ ellipsis)
  /\ (forall text,
        blank text ->
        deriveTitle now text 3
        = images_label_prefix ++ lit "3" ++ images_label_suffix)
  /\ (forall text,
        blank text ->
        deriveTitle now text 0 = session_label_prefix ++ now)
  /\ (forall t n,
        ~ blank (Some t) -> (length (collapsed t) <= 30)%nat ->
        deriveTitle now (Some t) n = collapsed t).
Proof.
  split; [by vm_compute|].
  split.
  { intros t n Hlen Hns.
    rewrite deriveTitle_present.
    - rewrite collapsed_nospace by done. by rewrite Hlen.
    - rewrite trim_nospace by done. by destruct t. }
  split; [intros text Hb; by rewrite deriveTitle_blank|].
  split; [intros text Hb; by rewrite deriveTitle_blank|].
  intros t n Hp Hlen. rewrite deriveTitle_present by done.
  unfold maxLen. by rewrite (proj2 (Nat.ltb_ge _ _) Hlen).
Qed.

Lemma deriveTitle_cases_witness :
  let now := lit "9/2/2025, 7:53:13 PM" in
  deriveTitle now (Some (lit "0123456789abcdefghijABCDEFGHIJ0123456789")) 0
    = lit "0123456789abcdefghijABCDEFGHIJ" ++ ellipsis
  /\ deriveTitle now (Some (lit "  ")) 3
     = images_label_prefix ++ lit "3" ++ images_label_suffix
  /\ deriveTitle now None 0 = session_label_prefix ++ now
  /\ deriveTitle now (Some (lit " draw  a cat ")) 2 = lit "draw a cat".
Proof.
  intros now.
  destruct (deriveTitle_cases now) as (_ & H40 & H3 & H0 & Hgen).
  split; [|split; [|split]].
  - apply (H40 (lit "0123456789abcdefghijABCDEFGHIJ0123456789") 0%nat).
    + reflexivity.
    + vm_compute. repeat constructor.
  - apply (H3 (Some (lit "  "))). reflexivity.
  - apply (H0 None). exact I.
  - apply (Hgen (lit " draw  a cat ") 2%nat).
    + vm_compute. discriminate.
    + vm_compute. lia.
Defined.

(** ** Heap and registry *)

Section Registry.

Implicit Types (w : World) (sid : jsstring) (l : nat) (s : ChatSession.t).

Lemma world_eq w w' :
heap w = heap w' -> sessions w = sessions w' -> store w = store w' ->
artifacts w = artifacts w' -> file_of w = file_of w' -> w = w'.
Proof. destruct w, w'; simpl; congruence. Qed.

Lemma sessions_get_Some w sid l s :
sessions_get w sid = Some (l, s)
<-> sessions w !! sid = Some l /\ heap w !! l = Some s.
Proof.
unfold sessions_get. split.
- destruct (sessions w !! sid) as [l'|]; simpl; [|done].
  destruct (heap w !! l') as [s'|] eqn:E; simpl; [|done].
  intros [= <- <-]. done.
- intros [-> H]. simpl. by rewrite H.
Qed.

Lemma sessions_get_unregistered w sid :
sessions w !! sid = None -> sessions_get w sid = None.
Proof. unfold sessions_get. by intros ->. Qed.

Lemma deref_lookup w l s : heap w !! l = Some s -> deref w l = s.
Proof. unfold deref. by intros ->. Qed.

Lemma mutate_lookup w l f s :
heap w !! l = Some s -> heap (mutate l f w) !! l = Some (f s).
Proof. intros H. simpl. by rewrite list_lookup_alter_eq, H. Qed.

Lemma mutate_lookup_ne w l l' f :
l <> l' -> heap (mutate l f w) !! l' = heap w !! l'.
Proof. intros H. simpl. by rewrite list_lookup_alter_ne. Qed.

Lemma deref_mutate w l f s :
heap w !! l = Some s -> deref (mutate l f w) l = f s.
Proof. intros H. apply deref_lookup. by apply mutate_lookup. Qed.

Lemma sessions_get_mutate w sid l f s :
sessions_get w sid = Some (l, s) ->
sessions_get (mutate l f w) sid = Some (l, f s).
Proof.
rewrite !sessions_get_Some. intros [H1 H2]. split; [done|].
by apply mutate_lookup.
Qed.

(** A write that stores what is already there changes nothing. *)
Lemma mutate_same w l f s :
heap w !! l = Some s -> f s = s -> mutate l f w = w.
Proof.
intros H Hf. apply world_eq; try done. simpl.
apply list_eq. intros i. destruct (decide (i = l)) as [->|Hne].
- by rewrite list_lookup_alter_eq, H; simpl; rewrite Hf.
- by rewrite list_lookup_alter_ne.
Qed.

Lemma mutate_mutate w l f g :
mutate l g (mutate l f w) = mutate l (g ∘ f) w.
Proof. apply world_eq; try done. simpl. apply list_alter_alter_eq. Qed.

Lemma mutate_ext w l f g s :
heap w !! l = Some s -> f s = g s -> mutate l f w = mutate l g w.
Proof.
intros H Hfg. apply world_eq; try done. simpl.
apply list_eq. intros i. destruct (decide (i = l)) as [->|Hne].
- by rewrite !list_lookup_alter_eq, H; simpl; rewrite Hfg.
- by rewrite !list_lookup_alter_ne.
Qed.

Lemma sessions_get_set w sid s :
sessions_get (sessions_set sid s w) sid = Some (length (heap w), s).
Proof.
apply sessions_get_Some. simpl. split.
- apply lookup_insert_eq.
- rewrite lookup_app_r by done. by rewrite Nat.sub_diag.
Qed.

End Registry.

Lemma only_artifacts_refl w : only_artifacts w w.
Proof. done. Qed.

Lemma only_artifacts_trans w1 w2 w3 :
  only_artifacts w1 w2 -> only_artifacts w2 w3 -> only_artifacts w1 w3.
Proof. unfold only_artifacts. intros (?&?&?&?) (?&?&?&?). repeat split; congruence. Qed.

Lemma saveBufferToArtifacts_frame env name blob w w' :
  saveBufferToArtifacts env name blob w = Some w' -> only_artifacts w w'.
Proof.
  unfold saveBufferToArtifacts. destruct (artifact_write_ok env name); [|done].
  by intros [= <-].
Qed.

Lemma deref_only_artifacts w w' l : only_artifacts w w' -> deref w' l = deref w l.
Proof. intros (H&_&_). unfold deref. by rewrite H. Qed.

Lemma sessions_get_only_artifacts w w' sid :
  only_artifacts w w' -> sessions_get w' sid = sessions_get w sid.
Proof. intros (H1&H2&_). unfold sessions_get. by rewrite H1, H2. Qed.

(** ** [POST /message] *)

Section AcceptMessage.

Variable env : Env.

Lemma save_uploads_frame sid l idx fs parts w w' r :
save_uploads env sid l idx fs parts w = (w', r) -> only_artifacts w w'.
Proof.
revert idx parts w. induction fs as [|f fs IH]; simpl; intros idx parts w E.
- by inversion E.
- destruct saveBufferToArtifacts as [w1|] eqn:Es.
  + eapply only_artifacts_trans; [by eapply saveBufferToArtifacts_frame|].
    by eapply IH.
  + by inversion E.
Qed.

(** The parts the loop hands back extend the ones it was given by one
  part per upload. *)
Lemma save_uploads_parts sid l idx fs parts w w' parts' :
save_uploads env sid l idx fs parts w = (w', Some parts') ->
exists imgs, parts' = parts ++ imgs /\ length imgs = length fs.
Proof.
revert idx parts w. induction fs as [|f fs IH]; simpl; intros idx parts w E.
- inversion E; subst. exists []. by rewrite app_nil_r.
- destruct saveBufferToArtifacts as [w1|] eqn:Es; [|done].
  destruct (IH _ _ _ E) as (imgs & -> & Hlen).
  eexists (_ :: imgs). rewrite <- app_assoc. simpl. split; [done|]. by rewrite Hlen.
Qed.

(** With a writable artifact directory the loop does not throw. *)
Lemma save_uploads_writable sid l idx fs parts w :
(forall name, artifact_write_ok env name = true) ->
exists w' parts', save_uploads env sid l idx fs parts w = (w', Some parts').
Proof.
intros Hok. revert idx parts w.
induction fs as [|f fs IH]; simpl; intros idx parts w; [by eauto|].
unfold saveBufferToArtifacts. rewrite Hok. apply IH.
Qed.


Lemma text_parts_present text :
~ blank text -> exists t, text_parts text = [Text t].
Proof.
destruct text as [t|]; unfold text_parts; simpl; [|done].
intros H. exists (trim t). by destruct (trim t).
Qed.

End AcceptMessage.

Section AcceptMessageCases.

Variable env : Env.
Implicit Types (w : World) (req : MessageRequest).

Lemma acceptMessage_unregistered req w :
sessions_get w (target req) = None ->
acceptMessage env req w = (w, json 400 (BError (lit "Invalid sessionId"))).
Proof. unfold acceptMessage, target. by intros ->. Qed.

Lemma acceptMessage_generating req w l s :
sessions_get w (target req) = Some (l, s) ->
ChatSession.generating s = true ->
acceptMessage env req w
= (w, json 409 (BError (lit "Generation in progress, please wait"))).
Proof. unfold acceptMessage, target. by intros -> ->. Qed.

(** The handler on a live, idle session, after its two guards. *)
Lemma acceptMessage_idle req w l s :
sessions_get w (target req) = Some (l, s) ->
ChatSession.generating s = false ->
acceptMessage env req w
= match save_uploads env (target req) l 0 (files req)
          (text_parts (body_text req)) w with
  | (w1, None) => (w1, json 500 (BError (lit "Failed to accept message")))
  | (w1, Some parts) =>
      if bool_decide (length parts = 0%nat)
      then (w1, json 400 (BError (lit "Empty message")))
      else
        let w2 := mutate l (ChatSession.push (ChatMessage.mk user parts)) w1 in
        let w3 :=
          if bool_decide (ChatSession.turn (deref w2 l) = 0%nat) then
            match renameSessionFile env (target req)
                    (deriveTitle (now_locale env) (trim <$> body_text req)
                       (length (files req))) w2 with
            | Some (w', _) => w'
            | None => w2
            end
          else w2 in
        (w3, json 200 (BTurn (target req) (ChatSession.turn (deref w3 l) + 1)))
  end.
Proof. unfold acceptMessage, target. by intros -> ->. Qed.

Lemma writeFile_frame f w w' :
writeFile env f w = Some w' ->
w' = writeSession f w.
Proof. unfold writeFile. destruct session_write_ok; [|done]. by intros [= <-]. Qed.

Lemma renameSessionFile_frame sid title w w' f :
renameSessionFile env sid title w = Some (w', f) ->
heap w' = heap w /\ sessions w' = sessions w /\ artifacts w' = artifacts w.
Proof.
unfold renameSessionFile, saveSessionFile.
destruct (loadSessionFile w sid); simpl; [|done].
destruct writeFile as [w1|] eqn:E; simpl; [|done].
apply writeFile_frame in E as ->. by intros [= <- _].
Qed.

(** [renameSessionFile], written out. *)
Lemma renameSessionFile_found sid title w f0 :
loadSessionFile w sid = Some f0 ->
let f := ChatSessionFile.mk (ChatSessionFile.id f0) title
           (ChatSessionFile.createdAt f0) (now_iso env)
           (ChatSessionFile.history f0) in
renameSessionFile env sid title w
= if session_write_ok env (sessPath w (ChatSessionFile.id f0))
  then Some (writeSession f w, f)
  else None.
Proof.
intros Hf f. unfold renameSessionFile, saveSessionFile, writeFile. rewrite Hf.
simpl. by destruct (session_write_ok env _).
Qed.

Lemma renameSessionFile_missing sid title w :
loadSessionFile w sid = None -> renameSessionFile env sid title w = None.
Proof. unfold renameSessionFile. by intros ->. Qed.

Lemma renameSessionFile_file_of sid title w w' f :
renameSessionFile env sid title w = Some (w', f) -> file_of w' = file_of w.
Proof.
unfold renameSessionFile, saveSessionFile.
destruct (loadSessionFile w sid); simpl; [|done].
destruct writeFile as [w1|] eqn:E; simpl; [|done].
apply writeFile_frame in E as ->. by intros [= <- _].
Qed.

(** What an accepted message did: one [user] message, with at least
  one part, was pushed on the session object; nothing else about
  the object or the registry changed. *)
Lemma acceptMessage_accepted req w w' r :
acceptMessage env req w = (w', r) ->
status r = 200%nat ->
exists l s parts,
  sessions_get w (target req) = Some (l, s)
  /\ ChatSession.generating s = false
  /\ parts <> []
  /\ heap w' = alter (ChatSession.push (ChatMessage.mk user parts)) l (heap w)
  /\ sessions w' = sessions w
  /\ r = json 200 (BTurn (target req) (ChatSession.turn s + 1)).
Proof.
intros E Hst.
destruct (sessions_get w (target req)) as [[l s]|] eqn:Hget.
2:{ rewrite acceptMessage_unregistered in E by done.
    inversion E; subst. done. }
destruct (ChatSession.generating s) eqn:Hgen.
{ rewrite (acceptMessage_generating _ _ _ _ Hget Hgen) in E.
  inversion E; subst. done. }
rewrite (acceptMessage_idle _ _ _ _ Hget Hgen) in E.
destruct save_uploads as [w1 [parts|]] eqn:Hup.
2:{ inversion E; subst. done. }
apply save_uploads_frame in Hup as Hfr.
case_bool_decide as Hlen.
{ inversion E; subst. done. }
exists l, s, parts.
apply sessions_get_Some in Hget as Hget'. destruct Hget' as [Hreg Hobj].
destruct Hfr as (Hh & Hs & Hst1).
assert (Hobj1 : heap w1 !! l = Some s) by (by rewrite Hh).
set (m := ChatMessage.mk user parts) in *.
set (w2 := mutate l (ChatSession.push m) w1) in *.
assert (Hobj2 : heap w2 !! l = Some (ChatSession.push m s))
  by (by apply mutate_lookup).
assert (Hw3 : forall w3, heap w3 = heap w2 -> sessions w3 = sessions w2 ->
          (w3, json 200 (BTurn (target req) (ChatSession.turn (deref w3 l) + 1)))
          = (w', r) ->
          heap w' = alter (ChatSession.push m) l (heap w)
          /\ sessions w' = sessions w
          /\ r = json 200 (BTurn (target req) (ChatSession.turn s + 1))).
{ intros w3 H3h H3s [= <- <-].
  rewrite H3h, H3s. simpl. rewrite Hh, Hs. split; [done|]. split; [done|].
  rewrite (deref_lookup w3 l (ChatSession.push m s)); [done|].
  rewrite H3h. exact Hobj2. }
split; [done|]. split; [done|].
split; [by destruct parts|].
simpl in E. case_bool_decide.
- destruct renameSessionFile as [[w3 f]|] eqn:Hren.
  + apply renameSessionFile_frame in Hren as (?&?&?). by apply (Hw3 w3).
  + by apply (Hw3 w2).
- by apply (Hw3 w2).
Qed.

(** On a live, idle session a message with something in it, whose
  uploads the artifact directory accepts, is accepted for the next
  turn. *)
Lemma acceptMessage_accepts req w l s :
sessions_get w (target req) = Some (l, s) ->
ChatSession.generating s = false ->
~ blank (body_text req) \/ files req <> [] ->
(forall name, artifact_write_ok env name = true) ->
exists w',
  acceptMessage env req w
  = (w', json 200 (BTurn (target req) (ChatSession.turn s + 1))).
Proof.
intros Hget Hgen Hsome Hok.
rewrite (acceptMessage_idle _ _ _ _ Hget Hgen).
destruct (save_uploads_writable env (target req) l 0 (files req)
            (text_parts (body_text req)) w Hok) as (w1 & parts & Hup).
rewrite Hup.
destruct (save_uploads_parts _ _ _ _ _ _ _ _ _ Hup) as (imgs & -> & Himgs).
assert (Hlen : length (text_parts (body_text req) ++ imgs) <> 0%nat).
{ rewrite length_app, Himgs. destruct Hsome as [Hp|Hf].
  - destruct (text_parts_present _ Hp) as (t & ->). simpl. lia.
  - destruct (files req); [done | simpl; lia]. }
rewrite bool_decide_eq_false_2 by done. cbv zeta.
apply save_uploads_frame in Hup as (Hh & Hs & _).
apply sessions_get_Some in Hget as [_ Hobj].
set (m := ChatMessage.mk user _).
set (w2 := mutate _ _ w1).
assert (Hobj2 : heap w2 !! l = Some (ChatSession.push m s)).
{ apply mutate_lookup. by rewrite Hh. }
assert (Hturn : forall w3, heap w3 = heap w2 ->
          ChatSession.turn (deref w3 l) = ChatSession.turn s).
{ intros w3 H3. rewrite (deref_lookup w3 _ (ChatSession.push m s)); [done|].
  by rewrite H3. }
case_bool_decide.
- destruct renameSessionFile as [[w3 f]|] eqn:Hren.
  + apply renameSessionFile_frame in Hren as (H3 & _).
    exists w3. by rewrite (Hturn w3).
  + exists w2. by rewrite (Hturn w2).
- exists w2. by rewrite (Hturn w2).
Qed.

End AcceptMessageCases.

(** ** The stream handler *)

Section Stream.

Variable env : Env.
Implicit Types (w : World) (t : StreamTask) (s : Stimulus).

Lemma events_sseSend r e : events (sseSend r e) = events r ++ [e].
Proof. unfold events. simpl. by rewrite omap_app. Qed.

Lemma events_ssePing r now : events (ssePing r now) = events r.
Proof. unfold events. simpl. rewrite omap_app. simpl. by rewrite app_nil_r. Qed.

Lemma events_res_end r : events (res_end r) = events r.
Proof. done. Qed.

Lemma progress_refl t : progress t t.
Proof.
repeat split; try done. exists []. by rewrite app_nil_r.
Qed.

Lemma progress_trans t1 t2 t3 : progress t1 t2 -> progress t2 t3 -> progress t1 t3.
Proof.
intros (?&?&?&?&evs&He&Hf) (?&?&?&?&evs'&He'&Hf').
repeat split; try congruence.
exists (evs ++ evs'). rewrite He', He, app_assoc. split; [done|].
by apply Forall_app.
Qed.

Lemma relay_part_frame w t p w' t' :
relay_part env (w, t) p = (w', t') -> only_artifacts w w' /\ progress t t'.
Proof.
unfold relay_part.
destruct (inline_image p) as [[mt data]|].
- destruct saveBufferToArtifacts as [w1|] eqn:Es; intros [= <- <-].
  + split; [by eapply saveBufferToArtifacts_frame|].
    repeat split; try done. simpl. eexists [_; _].
    rewrite !events_sseSend, <- app_assoc. split; [done|].
    by repeat constructor.
  + split; [done|]. repeat split; try done. simpl. eexists [_].
    rewrite events_sseSend. split; [done|]. by repeat constructor.
- destruct (p_text p) as [x|]; [destruct (truthy x)|]; intros [= <- <-];
    (split; [done|]); try apply progress_refl.
  repeat split; try done. simpl. eexists [_].
  rewrite events_sseSend. split; [done|]. by repeat constructor.
Qed.

Lemma relay_parts_frame ps w t w' t' :
foldl (relay_part env) (w, t) ps = (w', t') ->
only_artifacts w w' /\ progress t t'.
Proof.
revert w t. induction ps as [|p ps IH]; simpl; intros w t E.
- inversion E; subst. split; [done | apply progress_refl].
- destruct (relay_part env (w, t) p) as [w1 t1] eqn:E1.
  apply relay_part_frame in E1 as [Ha Hp].
  apply IH in E as [Ha' Hp'].
  split; [by eapply only_artifacts_trans | by eapply progress_trans].
Qed.

Lemma relay_chunk_frame c w t w' t' :
relay_chunk env c w t = (w', t') -> only_artifacts w w' /\ progress t t'.
Proof. apply relay_parts_frame. Qed.



(** A stimulus that does not end the handler leaves it running, the
  session objects, the registry and the repository untouched. *)
Lemma stream_step_running w t s :
terminal s = false ->
exists w' t', stream_step env w t s = (w', Running t')
              /\ only_artifacts w w' /\ progress t t'.
Proof.
destruct s as [c|e| |now|]; simpl; try done; intros _.
- destruct (relay_chunk env c w t) as [w' t'] eqn:E.
  exists w', t'. split; [done|]. by apply relay_chunk_frame in E.
- eexists w, _. split; [done|]. split; [done|].
  destruct (t_ping t); [|apply progress_refl].
  repeat split; try done. exists []. simpl.
  by rewrite events_ssePing, app_nil_r.
- eexists w, _. split; [done|]. split; [done|].
  repeat split; try done. exists []. by rewrite app_nil_r.
Qed.

Lemma stream_step_terminal w t s :
terminal s = true ->
stream_step env w t s
= match s with
  | Throws e => stream_catch e w t
  | _ => stream_commit env w t
  end.
Proof. by destruct s. Qed.

(** A run over stimuli none of which ends the handler. *)
Lemma stream_run_running w t ss :
Forall (fun s => terminal s = false) ss ->
exists w' t', stream_run env w t ss = (w', Running t')
              /\ only_artifacts w w' /\ progress t t'.
Proof.
intros H. revert w t. induction H as [|s ss Hs _ IH]; intros w t; simpl.
- exists w, t. split; [done|]. split; [done | apply progress_refl].
- destruct (stream_step_running w t s Hs) as (w1 & t1 & -> & Ha & Hp).
  destruct (IH w1 t1) as (w2 & t2 & -> & Ha' & Hp').
  exists w2, t2. split; [done|].
  split; [by eapply only_artifacts_trans | by eapply progress_trans].
Qed.

Lemma stream_run_app w t ss1 ss2 w1 t1 :
stream_run env w t ss1 = (w1, Running t1) ->
stream_run env w t (ss1 ++ ss2) = stream_run env w1 t1 ss2.
Proof.
revert w t. induction ss1 as [|s ss1 IH]; simpl; intros w t E.
- by inversion E.
- destruct (stream_step env w t s) as [w' [t'|r p]]; [by apply IH | done].
Qed.

(** Every run splits at the first stimulus that ends the handler. *)
Lemma stream_run_split w t ss :
(Forall (fun s => terminal s = false) ss)
\/ (exists pre s rest,
      ss = pre ++ s :: rest
      /\ Forall (fun s => terminal s = false) pre
      /\ terminal s = true).
Proof.
induction ss as [|s ss IH]; [by left|].
destruct (terminal s) eqn:Hs.
- right. exists [], s, ss. by repeat split.
- destruct IH as [H|(pre & s' & rest & -> & Hpre & Hs')].
  + left. by constructor.
  + right. exists (s :: pre), s', rest. repeat split; [|done]. by constructor.
Qed.

(** A closed run ended in the [catch] block or in the commit, reached
  from a state that differs from the start in artifacts and relayed
  events only. *)
Lemma stream_run_closed w t ss w' res ping :
stream_run env w t ss = (w', Closed res ping) ->
exists w1 t1,
  only_artifacts w w1 /\ progress t t1
  /\ ((exists e, stream_catch e w1 t1 = (w', Closed res ping))
      \/ stream_commit env w1 t1 = (w', Closed res ping)).
Proof.
intros E.
destruct (stream_run_split w t ss) as [H|(pre & s & rest & -> & Hpre & Hs)].
- destruct (stream_run_running w t ss H) as (w1 & t1 & E1 & _).
  congruence.
- destruct (stream_run_running w t pre Hpre) as (w1 & t1 & E1 & Ha & Hp).
  rewrite (stream_run_app _ _ _ _ _ _ E1) in E. simpl in E.
  rewrite (stream_step_terminal _ _ _ Hs) in E.
  exists w1, t1. split; [done|]. split; [done|].
  destruct s; try done.
  + left. eexists. unfold stream_catch, stream_finally in *. done.
  + right. unfold stream_commit, stream_finally in *. done.
Qed.

End Stream.

Section StreamTurn.

Variable env : Env.
Implicit Types (w : World) (t : StreamTask) (sid : jsstring).

Lemma stream_start_unregistered sid w :
sessions_get w sid = None ->
stream_start env sid w
= (w, Closed (res_end (sseSend (sseInit new_res)
                         (EvError (lit "Invalid sessionId")))) false).
Proof. unfold stream_start. by intros ->. Qed.

Lemma stream_start_generating sid w l s :
sessions_get w sid = Some (l, s) ->
ChatSession.generating s = true ->
stream_start env sid w
= (w, Closed (res_end (sseSend (sseInit new_res)
                         (EvError (lit "Already generating")))) false).
Proof. unfold stream_start. by intros -> ->. Qed.

Lemma stream_start_no_key sid w l s :
sessions_get w sid = Some (l, s) ->
ChatSession.generating s = false ->
truthy (opt_or (GEMINI_API_KEY env) []) = false ->
stream_start env sid w
= (w, Closed (res_end (res_end (sseSend (sseInit new_res)
                 (EvError (lit "GEMINI_API_KEY is not set"))))) false).
Proof.
unfold stream_start. intros Hget Hgen Hkey. rewrite Hget, Hgen, Hkey.
unfold stream_finally.
apply sessions_get_Some in Hget as [_ Hobj].
rewrite (mutate_same w l _ s); [done|done|].
destruct s; simpl in *; by subst.
Qed.

Lemma stream_start_started sid w l s :
sessions_get w sid = Some (l, s) ->
ChatSession.generating s = false ->
truthy (opt_or (GEMINI_API_KEY env) []) = true ->
stream_start env sid w
= (mutate l (ChatSession.set_generating true) w, Running (first_task env sid l s)).
Proof. unfold stream_start. by intros -> -> ->. Qed.

(** A stream that got going: the session is registered and was idle,
  and the API key is set. *)
Lemma stream_start_running_inv sid w w1 t :
stream_start env sid w = (w1, Running t) ->
exists l s,
  sessions_get w sid = Some (l, s)
  /\ ChatSession.generating s = false
  /\ truthy (opt_or (GEMINI_API_KEY env) []) = true.
Proof.
destruct (sessions_get w sid) as [[l s]|] eqn:Hget.
2:{ by rewrite stream_start_unregistered. }
destruct (ChatSession.generating s) eqn:Hgen.
{ by rewrite (stream_start_generating _ _ _ _ Hget Hgen). }
destruct (truthy (opt_or (GEMINI_API_KEY env) [])) eqn:Hkey.
- intros _. by exists l, s.
- by rewrite (stream_start_no_key _ _ _ _ Hget Hgen Hkey).
Qed.

(** The lock taken and released again leaves an idle session object
  as it was. *)
Lemma lock_unlock w w1 l s :
heap w !! l = Some s ->
ChatSession.generating s = false ->
heap w1 = heap (mutate l (ChatSession.set_generating true) w) ->
heap (mutate l (ChatSession.set_generating false) w1) = heap w.
Proof.
intros Hobj Hgen Hw1. simpl. rewrite Hw1. simpl.
rewrite list_alter_alter_eq.
assert (H : mutate l (ChatSession.set_generating false
                      ∘ ChatSession.set_generating true) w = w).
{ apply (mutate_same w l _ s); [done|]. destruct s; simpl in *; by subst. }
by apply (f_equal heap) in H.
Qed.

(** The document a commit writes back for a session object [s] whose
  stream accumulated [parts]. *)
Lemma commit_file_unfold sid existing s :
commit_file env sid existing s
= ChatSessionFile.mk sid
    (opt_or (ChatSessionFile.title <$> existing) (session_label (now_locale env)))
    (opt_or (ChatSessionFile.createdAt <$> existing) (now_iso env))
    (now_iso env) (ChatSession.history s).
Proof. done. Qed.

(** The commit, written out. *)
Lemma stream_commit_full w t s :
heap w !! t_sess t = Some s ->
let hist := ChatSession.history s ++ [ChatMessage.mk model (t_assistantParts t)] in
let p := sessPath w (t_sessionId t) in
stream_commit env w t
= (mkWorld
     (<[t_sess t := ChatSession.mk (ChatSession.id s) hist false
                      (S (ChatSession.turn s))]> (heap w))
     (sessions w)
     (if session_write_ok env p
      then <[p := ChatSessionFile.mk (t_sessionId t)
                    (opt_or (ChatSessionFile.title <$> store w !! p)
                            (session_label (now_locale env)))
                    (opt_or (ChatSessionFile.createdAt <$> store w !! p)
                            (now_iso env))
                    (now_iso env) hist]> (store w)
      else store w)
     (artifacts w) (file_of w),
   Closed (res_end (sseSend (t_res t) EvDone)) false).
Proof.
intros Hobj hist p. unfold stream_commit, stream_finally.
rewrite (deref_lookup _ (t_sess t)
           (ChatSession.bump (ChatSession.push
              (ChatMessage.mk model (t_assistantParts t)) s)))
  by (by apply mutate_lookup, mutate_lookup).
assert (Hheap : alter (ChatSession.set_generating false) (t_sess t)
                  (alter ChatSession.bump (t_sess t)
                     (alter (ChatSession.push
                               (ChatMessage.mk model (t_assistantParts t)))
                        (t_sess t) (heap w)))
                = <[t_sess t := ChatSession.mk (ChatSession.id s) hist false
                                  (S (ChatSession.turn s))]> (heap w)).
{ rewrite !list_alter_alter_eq. apply list_eq. intros i.
  destruct (decide (i = t_sess t)) as [->|Hne].
  - rewrite list_lookup_alter_eq, Hobj. simpl.
    rewrite list_lookup_insert_eq; [done|]. by eapply lookup_lt_Some.
  - by rewrite list_lookup_alter_ne, list_lookup_insert_ne. }
unfold saveSessionFile, writeFile, loadSessionFile, sessPath.
cbn [ChatSessionFile.id ChatSessionFile.set_updatedAt commit_file mutate
     with_heap file_of store].
fold (sessPath w (t_sessionId t)). fold p.
destruct (session_write_ok env p); f_equal; apply world_eq; done.
Qed.



(** The commit, told by what it leaves behind. *)
Lemma stream_commit_effect w t s :
heap w !! t_sess t = Some s ->
exists w',
  stream_commit env w t = (w', Closed (res_end (sseSend (t_res t) EvDone)) false)
  /\ heap w'
     = <[t_sess t :=
          ChatSession.mk (ChatSession.id s)
            (ChatSession.history s ++ [ChatMessage.mk model (t_assistantParts t)])
            false (S (ChatSession.turn s))]> (heap w)
  /\ sessions w' = sessions w
  /\ artifacts w' = artifacts w
  /\ file_of w' = file_of w
  /\ (session_write_ok env (sessPath w (t_sessionId t)) = false ->
      store w' = store w)
  /\ (session_write_ok env (sessPath w (t_sessionId t)) = true ->
      exists file,
        store w' = <[sessPath w (t_sessionId t) := file]> (store w)
        /\ ChatSessionFile.id file = t_sessionId t
        /\ ChatSessionFile.history file
           = ChatSession.history s ++ [ChatMessage.mk model (t_assistantParts t)]).
Proof.
intros Hobj. rewrite (stream_commit_full _ _ _ Hobj).
eexists. split; [done|]. cbn [heap sessions store artifacts file_of].
do 4 (split; [done|]). split; intros ->; [done|]. by eexists.
Qed.

Lemma stream_catch_effect e w t :
stream_catch e w t
= (mutate (t_sess t) (ChatSession.set_generating false) w,
   Closed (res_end (sseSend (t_res t)
             (EvError (opt_or (err_message e) (lit "Generation failed"))))) false).
Proof. done. Qed.

(** A stream that was started and then closed: how it ended, and
  where it stood just before. *)
Lemma streamTurn_closed sid ss w l s w' res ping :
sessions_get w sid = Some (l, s) ->
ChatSession.generating s = false ->
truthy (opt_or (GEMINI_API_KEY env) []) = true ->
streamTurn env sid ss w = (w', Closed res ping) ->
exists w1 t1,
  heap w1 = heap (mutate l (ChatSession.set_generating true) w)
  /\ sessions w1 = sessions w /\ store w1 = store w
  /\ file_of w1 = file_of w
  /\ progress (first_task env sid l s) t1
  /\ ((exists e, stream_catch e w1 t1 = (w', Closed res ping))
      \/ stream_commit env w1 t1 = (w', Closed res ping)).
Proof.
intros Hget Hgen Hkey. unfold streamTurn.
rewrite (stream_start_started _ _ _ _ Hget Hgen Hkey).
intros E. apply stream_run_closed in E as (w1 & t1 & (Hh&Hs&Hst&Hfo) & Hp & Hend).
exists w1, t1. do 4 (split; [done|]). by split.
Qed.

End StreamTurn.

(** ** Upstream failure (C2) and the empty response (C10) *)

(** C2: if the remote generation call or the chunk sequence raises
    while a stream is in progress (the handler has made the call), the
    handler closes with the error event as its last event, after
    [status] and whatever the relay loop sent; no assistant message is
    appended: the session object, which is idle again, with its history
    and turn counter, the registry and the durable documents are what
    they were before the stream started; the response is ended and the
    keep-alive timer cancelled. *)
Theorem stream_error_commits_nothing env sid w w1 t pre e rest :
  stream_start env sid w = (w1, Running t) ->
  Forall (fun x => terminal x = false) pre ->
  exists w' res evs l s,
    streamTurn env sid (pre ++ Throws e :: rest) w = (w', Closed res false)
    /\ events res
       = EvStatus (lit "Generating...") :: evs
         ++ [EvError (opt_or (err_message e) (lit "Generation failed"))]
    /\ Forall relay_event evs
    /\ ended res = true
    /\ sessions_get w sid = Some (l, s)
    /\ sessions_get w' sid = Some (l, s)
    /\ ChatSession.generating s = false
    /\ heap w' = heap w /\ sessions w' = sessions w /\ store w' = store w.
Proof.
  intros Hstart Hpre.
  destruct (stream_start_running_inv _ _ _ _ _ Hstart) as (l & s & Hget & Hgen & Hkey).
  clear Hstart w1 t.
  apply sessions_get_Some in Hget as Hget'. destruct Hget' as [Hreg Hobj].
  unfold streamTurn. rewrite (stream_start_started _ _ _ _ _ Hget Hgen Hkey).
  destruct (stream_run_running env (mutate l (ChatSession.set_generating true) w)
              (first_task env sid l s) pre Hpre)
    as (w1 & t1 & Hrun & (Hh & Hs & Hst & Hfo) & Hp).
  rewrite (stream_run_app _ _ _ _ _ _ _ Hrun). cbn [stream_run stream_step].
  rewrite stream_catch_effect.
  destruct Hp as (_ & Hl & _ & _ & evs & Hev & Hrelay).
  eexists _, _, evs, l, s. split; [done|].
  assert (Hheap : heap (mutate (t_sess t1) (ChatSession.set_generating false) w1)
                  = heap w).
  { rewrite Hl. by apply (lock_unlock w w1 l s). }
  split.
  { rewrite events_res_end, events_sseSend, Hev. by rewrite <- app_assoc. }
  do 3 (split; [done|]).
  assert (Hsess : sessions (mutate (t_sess t1) (ChatSession.set_generating false) w1)
                  = sessions w) by (simpl; by rewrite Hs).
  split.
  { apply sessions_get_Some. by rewrite Hsess, Hheap. }
  do 3 (split; [done|]). simpl. by rewrite Hst.
Qed.

Lemma stream_error_commits_nothing_witness :
  let sid := lit "s1" in
  let s := ChatSession.mk sid [ChatMessage.mk user [Text (lit "hi")]] false 0 in
  let w := mkWorld [s] {[ sid := 0%nat ]} ∅ ∅ (fun name => name) in
  let chunk := Yields (Some [ {| p_inlineData := None; p_text := Some (lit "par") |} ]) in
  exists w' res evs l s',
    streamTurn example_env sid [chunk; Throws {| err_message := Some (lit "boom") |}] w
      = (w', Closed res false)
    /\ events res
       = EvStatus (lit "Generating...") :: evs ++ [EvError (lit "boom")]
    /\ Forall relay_event evs
    /\ ended res = true
    /\ sessions_get w sid = Some (l, s')
    /\ sessions_get w' sid = Some (l, s')
    /\ ChatSession.generating s' = false
    /\ heap w' = heap w /\ sessions w' = sessions w /\ store w' = store w.
Proof.
  intros sid s w chunk.
  apply (stream_error_commits_nothing example_env sid w
           (mutate 0 (ChatSession.set_generating true) w)
           (first_task example_env sid 0 s) [chunk]
           {| err_message := Some (lit "boom") |} []).
  - reflexivity.
  - repeat constructor.
Defined.




(** [POST /session], written out. *)
Lemma createSession_world env newId w :
  fst (createSession env newId w)
  = mkWorld (heap w ++ [ChatSession.mk newId [] false 0])
      (<[newId := length (heap w)]> (sessions w))
      (if session_write_ok env (sessPath w newId)
       then <[sessPath w newId :=
                ChatSessionFile.mk newId (session_label (now_locale env))
                  (now_iso env) (now_iso env) []]> (store w)
       else store w)
      (artifacts w) (file_of w).
Proof.
  unfold createSession, createSessionFile, writeFile, sessPath.
  cbn [file_of sessions_set with_sessions with_heap ChatSessionFile.id].
  by destruct (session_write_ok env _).
Qed.

Lemma createSession_registers env newId w :
  sessions_get (fst (createSession env newId w)) newId
  = Some (length (heap w), ChatSession.mk newId [] false 0).
Proof.
  rewrite createSession_world. apply sessions_get_Some. simpl. split.
  - apply lookup_insert_eq.
  - rewrite lookup_app_r by done. by rewrite Nat.sub_diag.
Qed.

(** ** Successful turns (C3) *)

Lemma target_Some sid text fs :
  target {| body_sessionId := Some sid; body_text := text; files := fs |} = sid.
Proof. unfold target. simpl. unfold or_default. by destruct sid. Qed.

Lemma completed_catch e w t w' res ping :
  stream_catch e w t = (w', Closed res ping) ->
  completed (Closed res ping) = false.
Proof.
  rewrite stream_catch_effect. intros [= _ <- _]. unfold completed.
  rewrite events_res_end, events_sseSend, last_snoc. by apply bool_decide_eq_false.
Qed.

(** One successful turn appends a [user] message and a [model] message
    to the session object and advances its turn counter by one. *)
Lemma successful_turn_effect sid ti w w' l s :
  sessions_get w sid = Some (l, s) ->
  successful_turn sid ti w = Some w' ->
  exists up mp,
    sessions_get w' sid
    = Some (l, ChatSession.mk (ChatSession.id s)
                 (ChatSession.history s
                    ++ [ChatMessage.mk user up; ChatMessage.mk model mp])
                 false (S (ChatSession.turn s))).
Proof.
  intros Hget. unfold successful_turn.
  destruct acceptMessage as [w1 r] eqn:Eacc.
  case_bool_decide as Hok; [|done].
  destruct (acceptMessage_accepted _ _ _ _ _ Eacc Hok)
    as (l' & s' & up & Hget' & Hgen & _ & Hh1 & Hs1 & _).
  rewrite target_Some in Hget'. rewrite Hget in Hget'. inversion Hget'; subst l' s'.
  apply sessions_get_Some in Hget as [Hreg Hobj].
  set (s1 := ChatSession.push (ChatMessage.mk user up) s).
  assert (Hget1 : sessions_get w1 sid = Some (l, s1)).
  { apply sessions_get_Some. rewrite Hs1, Hh1. split; [done|].
    by rewrite list_lookup_alter_eq, Hobj. }
  destruct streamTurn as [w2 st] eqn:Estr.
  destruct (completed st) eqn:Hdone; [|done]. intros [= <-].
  destruct st as [t|res ping]; [done|].
  destruct (truthy (opt_or (GEMINI_API_KEY (ti_env_stream ti)) [])) eqn:Hkey.
  2:{ unfold streamTurn in Estr.
      rewrite (stream_start_no_key _ _ _ _ _ Hget1 Hgen Hkey) in Estr.
      inversion Estr; subst. done. }
  destruct (streamTurn_closed _ _ _ _ _ _ _ _ _ Hget1 Hgen Hkey Estr)
    as (wa & ta & Hha & Hsa & _ & _ & (_ & Hl & _) & [[e Hend]|Hend]).
  { apply completed_catch in Hend. congruence. }
  assert (Hobja : heap wa !! t_sess ta = Some (ChatSession.set_generating true s1)).
  { rewrite Hl, Hha. apply mutate_lookup. by apply sessions_get_Some in Hget1 as [_ ?]. }
  destruct (stream_commit_effect (ti_env_stream ti) wa ta _ Hobja)
    as (w2' & Hcommit & Hh2 & Hs2 & _).
  rewrite Hcommit in Hend. inversion Hend; subst w2'.
  exists up, (t_assistantParts ta).
  apply sessions_get_Some. rewrite Hs2, Hsa, Hs1, Hh2. split; [done|].
  rewrite Hl. simpl. rewrite list_lookup_insert_eq.
  - unfold s1. simpl. by rewrite <- app_assoc.
  - apply lookup_lt_Some in Hobja. by rewrite Hl in Hobja.
Qed.


(** A well-formed turn on a live, idle session is successful. *)
Lemma successful_turn_total sid ti w l s :
  sessions_get w sid = Some (l, s) ->
  ChatSession.generating s = false ->
  well_formed_turn ti ->
  is_Some (successful_turn sid ti w).
Proof.
  intros Hget Hgen (Hsome & Hok & Hkey & pre & rest & Hss & Hpre).
  unfold successful_turn.
  set (req := {| body_sessionId := Some sid; body_text := ti_text ti;
                 files := ti_files ti |}).
  assert (Ht : target req = sid) by apply target_Some.
  destruct (acceptMessage_accepts (ti_env_message ti) req w l s) as (w1 & Hacc);
    [by rewrite Ht|done|done|done|].
  rewrite Hacc. rewrite bool_decide_eq_true_2 by done.
  destruct (acceptMessage_accepted _ _ _ _ _ Hacc eq_refl)
    as (l' & s' & up & Hget' & _ & _ & Hh1 & Hs1 & _).
  rewrite Ht, Hget in Hget'. inversion Hget'; subst l' s'.
  apply sessions_get_Some in Hget as [Hreg Hobj].
  set (s1 := ChatSession.push (ChatMessage.mk user up) s).
  assert (Hget1 : sessions_get w1 sid = Some (l, s1)).
  { apply sessions_get_Some. rewrite Hs1, Hh1. split; [done|].
    by rewrite list_lookup_alter_eq, Hobj. }
  unfold streamTurn.
  rewrite (stream_start_started _ _ _ _ _ Hget1 Hgen Hkey), Hss.
  destruct (stream_run_running (ti_env_stream ti)
              (mutate l (ChatSession.set_generating true) w1)
              (first_task (ti_env_stream ti) sid l s1) pre Hpre)
    as (wa & ta & Hrun & (Hha & _) & (_ & Hl & _)).
  rewrite (stream_run_app _ _ _ _ _ _ _ Hrun). cbn [stream_run stream_step].
  assert (Hobja : heap wa !! t_sess ta = Some (ChatSession.set_generating true s1)).
  { rewrite Hl, Hha. apply mutate_lookup. by apply sessions_get_Some in Hget1 as [_ ?]. }
  destruct (stream_commit_effect (ti_env_stream ti) wa ta _ Hobja) as (w2 & -> & _).
  unfold completed. rewrite events_res_end, events_sseSend, last_snoc.
  rewrite bool_decide_eq_true_2 by done. by eexists.
Qed.

(** So is any sequence of well-formed turns. *)
Lemma successful_turns_total sid tis w l s :
  sessions_get w sid = Some (l, s) ->
  ChatSession.generating s = false ->
  Forall well_formed_turn tis ->
  is_Some (successful_turns sid tis w).
Proof.
  intros Hget Hgen Hwf. revert w s Hget Hgen.
  induction Hwf as [|ti tis Hti _ IH]; intros w s Hget Hgen; simpl; [by eexists|].
  destruct (successful_turn_total sid ti w l s Hget Hgen Hti) as (w1 & E1).
  rewrite E1. simpl.
  destruct (successful_turn_effect _ _ _ _ _ _ Hget E1) as (up & mp & Hget1).
  by apply (IH w1 _ Hget1).
Qed.




(** ** The cat scenario (C4) *)



Section RelayExamples.

Variable env : Env.

Lemma stream_run_yields c w t ss :
stream_run env w t (Yields c :: ss)
= let '(w', t') := relay_chunk env c w t in stream_run env w' t' ss.
Proof. cbn [stream_run stream_step]. by destruct relay_chunk. Qed.

(** A chunk made of one non-empty text part. *)
Lemma relay_text_chunk w t x :
truthy x = true ->
relay_chunk env (Some [ {| p_inlineData := None; p_text := Some x |} ]) w t
= (w, mkTask (t_sessionId t) (t_sess t) (sseSend (t_res t) (EvText x))
        (t_ping t) (t_request t) (t_assistantParts t ++ [Text x])
        (t_genIndex t)).
Proof.
intros Hx. unfold relay_chunk. cbn [default foldl]. unfold relay_part.
simpl. by rewrite Hx.
Qed.

(** A chunk made of one inline image with a non-empty payload. *)
Lemma relay_image_chunk w t mt data text :
data <> [] ->
relay_chunk env
  (Some [ {| p_inlineData := Some {| rid_mimeType := mt; rid_data := Some data |};
             p_text := text |} ]) w t
= let outMime := opt_or mt (lit "image/png") in
  let fileName :=
    artifact_name (t_sessionId t) (lit "assistant")
      (ChatSession.turn (deref w (t_sess t)) + 1) (t_genIndex t)
      (extFromMime env outMime) in
  let '(w', res2) :=
    match saveBufferToArtifacts env fileName (FromBase64 data) w with
    | Some w' =>
        (w', sseSend (sseSend (t_res t) (EvImage outMime data))
               (EvStatus (lit "Saved generated image: " ++ fileName)))
    | None => (w, sseSend (t_res t) (EvImage outMime data))
    end in
  (w', mkTask (t_sessionId t) (t_sess t) res2 (t_ping t) (t_request t)
         (t_assistantParts t ++ [InlineData outMime data])
         (S (t_genIndex t))).
Proof.
intros Hd. unfold relay_chunk. cbn [default foldl]. unfold relay_part.
unfold inline_image. simpl.
assert (truthy data = true) as -> by (by destruct data). done.
Qed.

End RelayExamples.

(** C4, as stated, fails: with a writable artifact directory the relay
    sends a second [status] event, reporting the saved image, between
    [image] and [done]. *)
Lemma cat_scenario_counterexample :
  let sid := lit "Xk3_9aQz0B" in
  let w1 := fst (createSession example_env sid empty_world) in
  let req := {| body_sessionId := Some sid;
                body_text := Some (lit "draw a cat"); files := [] |} in
  let w2 := fst (acceptMessage example_env req w1) in
  let upstream :=
    [Yields (Some [ {| p_inlineData := None; p_text := Some (lit "Here's a cat") |} ]);
     Yields (Some [ {| p_inlineData :=
                         Some {| rid_mimeType := Some (lit "image/png");
                                 rid_data := Some (lit "iVBORw0KGgo=") |};
                       p_text := None |} ]);
     Completes] in
  match snd (streamTurn example_env sid upstream w2) with
  | Closed res _ =>
      event_name <$> events res
      = [lit "status"; lit "text"; lit "image"; lit "status"; lit "done"]
      /\ event_name <$> events res
         <> [lit "status"; lit "text"; lit "image"; lit "done"]
  | Running _ => False
  end.
Proof. vm_compute. split; [reflexivity | discriminate]. Qed.

(** C4 (amended): for a fresh session, after submitting the text "draw
    a cat" and streaming, where the upstream yields the text chunk
    "Here's a cat" and then one inline PNG image with a non-empty
    payload, the relay emits status, text("Here's a cat"),
    image(png, payload), then, when the image was written to the
    artifact directory, a status event naming the saved file, then
    done; afterwards the history is [user:[text], model:[text, image]]
    and the turn counter is 1. *)
Theorem cat_scenario env0 env1 env2 newId data w0 :
  truthy (opt_or (GEMINI_API_KEY env2) []) = true ->
  data <> [] ->
  let w1 := fst (createSession env0 newId w0) in
  let req := {| body_sessionId := Some newId;
                body_text := Some (lit "draw a cat"); files := [] |} in
  let upstream :=
    [Yields (Some [ {| p_inlineData := None; p_text := Some (lit "Here's a cat") |} ]);
     Yields (Some [ {| p_inlineData :=
                         Some {| rid_mimeType := Some (lit "image/png");
                                 rid_data := Some data |};
                       p_text := None |} ]);
     Completes] in
  let saved :=
    artifact_name newId (lit "assistant") 1 0 (extFromMime env2 (lit "image/png")) in
  exists w2 w3 res l s,
    acceptMessage env1 req w1 = (w2, json 200 (BTurn newId 1))
    /\ streamTurn env2 newId upstream w2 = (w3, Closed res false)
    /\ events res
       = [EvStatus (lit "Generating..."); EvText (lit "Here's a cat");
          EvImage (lit "image/png") data]
         ++ (if artifact_write_ok env2 saved
             then [EvStatus (lit "Saved generated image: " ++ saved)] else [])
         ++ [EvDone]
    /\ sessions_get w3 newId = Some (l, s)
    /\ ChatSession.history s
       = [ChatMessage.mk user [Text (lit "draw a cat")];
          ChatMessage.mk model [Text (lit "Here's a cat");
                                InlineData (lit "image/png") data]]
    /\ ChatSession.turn s = 1%nat
    /\ ChatSession.generating s = false.
Proof.
  intros Hkey Hdata w1 req upstream saved.
  pose proof (createSession_registers env0 newId w0) as Hget1. fold w1 in Hget1.
  set (l := length (heap w0)) in *.
  set (s0 := ChatSession.mk newId [] false 0) in *.
  apply sessions_get_Some in Hget1 as Hget1'. destruct Hget1' as [Hreg1 Hobj1].
  (* the message *)
  set (um := ChatMessage.mk user [Text (lit "draw a cat")]).
  assert (Hacc : exists w2,
            acceptMessage env1 req w1 = (w2, json 200 (BTurn newId 1))
            /\ sessions_get w2 newId = Some (l, ChatSession.push um s0)).
  { assert (Ht : target req = newId) by apply target_Some.
    rewrite (acceptMessage_idle env1 req w1 l s0); [|by rewrite Ht|done].
    rewrite Ht. cbn [files req save_uploads].
    change (text_parts (body_text req)) with [Text (lit "draw a cat")].
    cbn [length bool_decide decide_rel]. rewrite bool_decide_eq_false_2 by done.
    fold um. cbv zeta.
    set (w2 := mutate l (ChatSession.push um) w1).
    assert (Hget2 : sessions_get w2 newId = Some (l, ChatSession.push um s0))
      by (by apply sessions_get_mutate).
    apply sessions_get_Some in Hget2 as Hget2'. destruct Hget2' as [Hreg2 Hobj2].
    rewrite (deref_lookup w2 l _ Hobj2). cbn [ChatSession.turn ChatSession.push s0].
    rewrite bool_decide_eq_true_2 by done.
    destruct renameSessionFile as [[w3 f]|] eqn:Hren.
    - apply renameSessionFile_frame in Hren as (Hh & Hs & _).
      exists w3. rewrite (deref_lookup w3 l (ChatSession.push um s0))
        by (by rewrite Hh).
      split; [done|]. apply sessions_get_Some. by rewrite Hh, Hs.
    - exists w2. by rewrite (deref_lookup w2 l _ Hobj2). }
  destruct Hacc as (w2 & Hacc & Hget2).
  apply sessions_get_Some in Hget2 as Hget2'. destruct Hget2' as [Hreg2 Hobj2].
  (* the stream *)
  set (s1 := ChatSession.push um s0) in *.
  set (w2' := mutate l (ChatSession.set_generating true) w2).
  assert (Hobj2' : heap w2' !! l = Some (ChatSession.set_generating true s1))
    by (by apply mutate_lookup).
  assert (Hrun : exists wa ta,
            stream_run env2 w2' (first_task env2 newId l s1) upstream
            = stream_commit env2 wa ta
            /\ only_artifacts w2' wa /\ t_sess ta = l /\ t_sessionId ta = newId
            /\ t_assistantParts ta
               = [Text (lit "Here's a cat"); InlineData (lit "image/png") data]
            /\ events (t_res ta)
               = [EvStatus (lit "Generating..."); EvText (lit "Here's a cat");
                  EvImage (lit "image/png") data]
                 ++ (if artifact_write_ok env2 saved
                     then [EvStatus (lit "Saved generated image: " ++ saved)]
                     else [])).
  { unfold upstream.
    rewrite stream_run_yields, relay_text_chunk by done.
    rewrite stream_run_yields, relay_image_chunk by done.
    cbv zeta.
    cbn [t_sess t_sessionId t_genIndex t_res t_ping t_request t_assistantParts first_task].
    rewrite (deref_lookup w2' l _ Hobj2').
    change (opt_or (Some (lit "image/png")) (lit "image/png")) with (lit "image/png").
    change (ChatSession.turn (ChatSession.set_generating true s1) + 1)%nat with 1%nat.
    fold saved. unfold saveBufferToArtifacts.
    destruct (artifact_write_ok env2 saved); cbn [stream_run stream_step];
      eexists _, _; (split; [reflexivity|]); (split; [done|]); by repeat split. }
  destruct Hrun as (wa & ta & Hrun & (Hha & Hsa & _) & Hl & Hsid & Hparts & Hev).
  assert (Hobja : heap wa !! t_sess ta = Some (ChatSession.set_generating true s1))
    by (by rewrite Hl, Hha).
  destruct (stream_commit_effect env2 wa ta _ Hobja)
    as (w3 & Hcommit & Hh3 & Hs3 & _).
  eexists w2, w3, _, l, _. split; [exact Hacc|].
  split.
  { unfold streamTurn.
    rewrite (stream_start_started env2 newId w2 l s1 Hget2 eq_refl Hkey).
    fold w2'. rewrite Hrun. exact Hcommit. }
  split.
  { rewrite events_res_end, events_sseSend, Hev. by rewrite <- app_assoc. }
  split.
  { apply sessions_get_Some. rewrite Hs3, Hsa, Hh3. split; [exact Hreg2|].
    rewrite Hl. apply list_lookup_insert_eq. rewrite <- Hl.
    by eapply lookup_lt_Some. }
  rewrite Hparts. by repeat split.
Qed.

Lemma cat_scenario_witness :
  let sid := lit "Xk3_9aQz0B" in
  let data := lit "iVBORw0KGgo=" in
  let w1 := fst (createSession example_env sid empty_world) in
  let req := {| body_sessionId := Some sid;
                body_text := Some (lit "draw a cat"); files := [] |} in
  let upstream :=
    [Yields (Some [ {| p_inlineData := None; p_text := Some (lit "Here's a cat") |} ]);
     Yields (Some [ {| p_inlineData :=
                         Some {| rid_mimeType := Some (lit "image/png");
                                 rid_data := Some data |};
                       p_text := None |} ]);
     Completes] in
  exists w2 w3 res l s,
    acceptMessage example_env req w1 = (w2, json 200 (BTurn sid 1))
    /\ streamTurn example_env sid upstream w2 = (w3, Closed res false)
    /\ events res
       = [EvStatus (lit "Generating..."); EvText (lit "Here's a cat");
          EvImage (lit "image/png") data;
          EvStatus (lit "Saved generated image: session-Xk3_9aQz0B-assistant-1-0.png");
          EvDone]
    /\ sessions_get w3 sid = Some (l, s)
    /\ ChatSession.history s
       = [ChatMessage.mk user [Text (lit "draw a cat")];
          ChatMessage.mk model [Text (lit "Here's a cat");
                                InlineData (lit "image/png") data]]
    /\ ChatSession.turn s = 1%nat
    /\ ChatSession.generating s = false.
Proof.
  intros sid data w1 req upstream.
  apply (cat_scenario example_env example_env example_env sid data empty_world).
  - reflexivity.
  - discriminate.
Defined.

(** ** Rejected messages (C6, C7) *)




(** C6, as stated, fails: after a restart the durable document of a
    session is on disk and the registry is empty, and a message for
    that session is rejected with 400 "Invalid sessionId". *)
Lemma no_lazy_load_counterexample :
  let sid := lit "Xk3_9aQz0B" in
  let w := restart (fst (createSession example_env sid empty_world)) in
  let req := {| body_sessionId := Some sid;
                body_text := Some (lit "draw a cat"); files := [] |} in
  is_Some (loadSessionFile w sid)
  /\ sessions w !! sid = None
  /\ acceptMessage example_env req w
     = (w, json 400 (BError (lit "Invalid sessionId"))).
Proof. split; [by eexists | split; reflexivity]. Qed.

(** C6 (amended): [acceptMessage] accepts only a session id that is in
    the in-memory registry.  For an id that is not, whether or not a
    durable document exists for it, the message is rejected with 400
    "Invalid sessionId" and nothing changes.  Once the session was
    loaded into the registry by the load-session request
    ([GET /session/:id]), a message with a text that is not blank or
    with at least one image, with no more images than the route lets
    through (12) and all of them accepted by the artifact directory,
    is accepted for the turn after the model messages of the
    document. *)
Theorem acceptMessage_needs_registry env req w :
  (sessions w !! target req = None ->
   acceptMessage env req w = (w, json 400 (BError (lit "Invalid sessionId"))))
  /\ (forall file,
        loadSessionFile w (target req) = Some file ->
        ~ blank (body_text req) \/ files req <> [] ->
        (length (files req) <= max_uploads)%nat ->
        (forall name, artifact_write_ok env name = true) ->
        snd (acceptMessage env req (fst (loadSession (target req) w)))
        = json 200 (BTurn (target req)
                      (count_model (ChatSessionFile.history file) + 1))).
Proof.
  split.
  { intros Hreg. apply acceptMessage_unregistered.
    by apply sessions_get_unregistered. }
  intros file Hfile Hsome _ Hok.
  unfold loadSession. rewrite Hfile. cbn [fst].
  set (s := ChatSession.mk _ _ _ _).
  destruct (acceptMessage_accepts env req (sessions_set (target req) s w)
              (length (heap w)) s) as (w' & ->); try done.
  apply sessions_get_set.
Qed.

Lemma acceptMessage_needs_registry_witness :
  let sid := lit "Xk3_9aQz0B" in
  let w := restart (fst (createSession example_env sid empty_world)) in
  let req := {| body_sessionId := Some sid;
                body_text := Some (lit "draw a cat"); files := [] |} in
  acceptMessage example_env req w = (w, json 400 (BError (lit "Invalid sessionId")))
  /\ snd (acceptMessage example_env req (fst (loadSession sid w)))
     = json 200 (BTurn sid 1).
Proof.
  intros sid w req.
  destruct (acceptMessage_needs_registry example_env req w) as [Hno Hyes].
  split.
  - apply Hno. reflexivity.
  - apply (Hyes (ChatSessionFile.mk sid (session_label (now_locale example_env))
                   (now_iso example_env) (now_iso example_env) [])).
    + reflexivity.
    + left. vm_compute. discriminate.
    + vm_compute. lia.
    + reflexivity.
Defined.

(** ** Deleting a session (C9) *)

(** [DELETE /session/:id], written out. *)
Lemma deleteSession_world sid w :
  fst (deleteSession sid w)
  = mkWorld (heap w) (delete sid (sessions w))
      (delete (sessPath w sid) (store w)) (artifacts w) (file_of w).
Proof.
  unfold deleteSession, deleteSessionFile, unlink. cbn [fst].
  destruct (store w !! sessPath w sid) eqn:E; [done|].
  apply world_eq; try done. simpl. symmetry. by apply delete_id.
Qed.

(** C9: deleting a session always answers [{ ok: true }], whether or
    not a durable document or a registry entry exists; afterwards
    neither exists, the sessions registered under other ids and the
    documents in other files are untouched, and deleting the same id a
    second time, or any number of times more, succeeds and changes
    nothing. *)
Theorem deleteSession_idempotent sid w :
  let w1 := fst (deleteSession sid w) in
  snd (deleteSession sid w) = json 200 BOk
  /\ snd (deleteSession sid w1) = json 200 BOk
  /\ fst (deleteSession sid w1) = w1
  /\ (forall n,
        let wn := Nat.iter n (fun w' => fst (deleteSession sid w')) w1 in
        wn = w1 /\ snd (deleteSession sid wn) = json 200 BOk)
  /\ loadSessionFile w1 sid = None
  /\ sessions w1 !! sid = None
  /\ (forall sid', sid' <> sid -> sessions w1 !! sid' = sessions w !! sid')
  /\ (forall sid', sessPath w sid' <> sessPath w sid ->
        loadSessionFile w1 sid' = loadSessionFile w sid')
  /\ heap w1 = heap w /\ artifacts w1 = artifacts w.
Proof.
  intros w1. split; [done|]. split; [done|].
  assert (Hfix : fst (deleteSession sid w1) = w1).
  { unfold w1. rewrite !deleteSession_world. unfold sessPath. cbn [file_of store sessions heap artifacts].
    by rewrite !delete_delete_eq. }
  split; [exact Hfix|].
  split.
  { intros n. split; [|done]. induction n as [|n IH]; [done|].
    rewrite Nat.iter_succ, IH. exact Hfix. }
  unfold w1. rewrite deleteSession_world. unfold loadSessionFile, sessPath.
  cbn [file_of store sessions heap artifacts].
  split; [apply lookup_delete_eq|]. split; [apply lookup_delete_eq|].
  split; [intros sid' Hne; by apply lookup_delete_ne|].
  split; [intros sid' Hne; by apply lookup_delete_ne|]. done.
Qed.

(** ** Client disconnect (C5) *)

Section Disconnect.

Variable env : Env.
Implicit Types (w : World) (t : StreamTask).

Lemma forget_task_idem t : forget_task (forget_task t) = forget_task t.
Proof. done. Qed.

(** The relay loop does not look at the disconnect mark. *)
Lemma relay_part_forget w t p :
relay_part env (w, forget_task t) p
= (fst (relay_part env (w, t) p), forget_task (snd (relay_part env (w, t) p))).
Proof.
unfold relay_part. destruct (inline_image p) as [[mt data]|].
- simpl. by destruct saveBufferToArtifacts.
- destruct (p_text p) as [x|]; [destruct (truthy x)|]; done.
Qed.

Lemma relay_parts_forget ps w t :
foldl (relay_part env) (w, forget_task t) ps
= (fst (foldl (relay_part env) (w, t) ps),
   forget_task (snd (foldl (relay_part env) (w, t) ps))).
Proof.
revert w t. induction ps as [|p ps IH]; intros w t; cbn [foldl]; [done|].
rewrite relay_part_forget.
destruct (relay_part env (w, t) p) as [w1 t1]. cbn [fst snd]. apply IH.
Qed.

(** Nor does any reaction of the handler. *)
Lemma stream_step_forget w t s :
fst (stream_step env w (forget_task t) s) = fst (stream_step env w t s)
/\ forget_state (snd (stream_step env w (forget_task t) s))
   = forget_state (snd (stream_step env w t s)).
Proof.
destruct s as [c|e| |now|]; cbn [stream_step].
- unfold relay_chunk. rewrite relay_parts_forget.
  by destruct (foldl (relay_part env) (w, t) (default [] c)).
- done.
- done.
- simpl. by destruct (t_ping t).
- done.
Qed.

Lemma stream_step_agree w t t0 s :
forget_task t = forget_task t0 ->
fst (stream_step env w t s) = fst (stream_step env w t0 s)
/\ forget_state (snd (stream_step env w t s))
   = forget_state (snd (stream_step env w t0 s)).
Proof.
intros H.
destruct (stream_step_forget w t s) as [<- <-].
destruct (stream_step_forget w t0 s) as [<- <-].
by rewrite H.
Qed.

Lemma stream_run_agree ss w t t0 :
forget_task t = forget_task t0 ->
fst (stream_run env w t ss) = fst (stream_run env w t0 (connected_only ss))
/\ forget_state (snd (stream_run env w t ss))
   = forget_state (snd (stream_run env w t0 (connected_only ss))).
Proof.
revert w t t0. induction ss as [|s ss IH]; intros w t t0 H.
- simpl. by rewrite H.
- destruct (is_disconnect s) eqn:Hs.
  + (* the disconnect only sets the mark *)
    destruct s; try done. unfold connected_only.
    rewrite filter_cons_False by done.
    cbn [stream_run stream_step]. apply IH. exact H.
  + unfold connected_only. rewrite filter_cons_True by done.
    fold (connected_only ss). cbn [stream_run].
    destruct (stream_step_agree w t t0 s H) as [Hw Hst].
    destruct (stream_step env w t s) as [w1 [t1|r1 p1]],
             (stream_step env w t0 s) as [w2 [t2|r2 p2]];
      cbn [fst snd forget_state] in Hw, Hst; subst; try done.
    apply IH. congruence.
Qed.

End Disconnect.

(** C5, as stated, fails: nothing in the handler observes the
    disconnect.  In this run the client leaves after the first text
    part; at that point the session is still locked and the timer still
    armed, the second text part and [done] are written to the response
    all the same, and the whole accumulated output is appended to the
    history. *)
Lemma disconnect_counterexample :
  let sid := lit "Xk3_9aQz0B" in
  let w1 := fst (createSession example_env sid empty_world) in
  let req := {| body_sessionId := Some sid;
                body_text := Some (lit "draw a cat"); files := [] |} in
  let w2 := fst (acceptMessage example_env req w1) in
  let part x := Yields (Some [ {| p_inlineData := None; p_text := Some (lit x) |} ]) in
  let before := [part "Here's"%string; ClientCloses] in
  let after := [part " a cat"%string; Completes] in
  (* just after the disconnect *)
  match streamTurn example_env sid before w2 with
  | (w, Running t) =>
      client_gone (t_res t) = true
      /\ t_ping t = true
      /\ ChatSession.generating (deref w 0) = true
      /\ events (t_res t) = [EvStatus (lit "Generating..."); EvText (lit "Here's")]
  | _ => False
  end
  (* at the end of the turn *)
  /\ match streamTurn example_env sid (before ++ after) w2 with
     | (w, Closed res _) =>
         client_gone res = true
         /\ events res = [EvStatus (lit "Generating..."); EvText (lit "Here's");
                          EvText (lit " a cat"); EvDone]
         /\ ChatSession.history (deref w 0)
            = [ChatMessage.mk user [Text (lit "draw a cat")];
               ChatMessage.mk model [Text (lit "Here's"); Text (lit " a cat")]]
         /\ ChatSession.turn (deref w 0) = 1%nat
     | _ => False
     end.
Proof. vm_compute. repeat split. Qed.

(** C5 (amended): a client disconnect during a stream is not observed
    by the handler.  The process state and everything written to the
    response are exactly what they would be had the client stayed
    connected, so the accumulated output is committed when the chunk
    sequence is exhausted; and as long as the chunk sequence has neither
    ended nor raised, the handler stays suspended with the session
    locked and the keep-alive timer armed, disconnect or not. *)
Theorem disconnect_goes_unnoticed env sid w :
  (forall ss,
     fst (streamTurn env sid ss w) = fst (streamTurn env sid (connected_only ss) w)
     /\ forget_state (snd (streamTurn env sid ss w))
        = forget_state (snd (streamTurn env sid (connected_only ss) w)))
  /\ (forall w1 t0 ss,
        stream_start env sid w = (w1, Running t0) ->
        Forall (fun x => terminal x = false) ss ->
        exists w' t l s,
          streamTurn env sid ss w = (w', Running t)
          /\ t_ping t = true
          /\ ended (t_res t) = false
          /\ sessions_get w sid = Some (l, s)
          /\ ChatSession.generating (deref w' l) = true).
Proof.
  split.
  - intros ss. unfold streamTurn.
    destruct (stream_start env sid w) as [w1 [t1|r1 p1]]; [|done].
    by apply stream_run_agree.
  - intros w1 t0 ss Hstart Hss.
    destruct (stream_start_running_inv _ _ _ _ _ Hstart)
      as (l & s & Hget & Hgen & Hkey).
    clear Hstart w1 t0.
    unfold streamTurn. rewrite (stream_start_started _ _ _ _ _ Hget Hgen Hkey).
    destruct (stream_run_running env (mutate l (ChatSession.set_generating true) w)
                (first_task env sid l s) ss Hss)
      as (w' & t & Hrun & Hfr & (_ & _ & Hping & Hend & _)).
    exists w', t, l, s. do 4 (split; [done|]).
    rewrite (deref_only_artifacts _ _ _ Hfr).
    apply sessions_get_Some in Hget as [_ Hobj].
    by rewrite (deref_mutate _ _ _ _ Hobj).
Qed.

Lemma disconnect_goes_unnoticed_witness :
  let sid := lit "s1" in
  let s := ChatSession.mk sid [ChatMessage.mk user [Text (lit "hi")]] false 0 in
  let w := mkWorld [s] {[ sid := 0%nat ]} ∅ ∅ (fun name => name) in
  let part x := Yields (Some [ {| p_inlineData := None; p_text := Some (lit x) |} ]) in
  exists w' t l s',
    streamTurn example_env sid [part "Here's"%string; ClientCloses] w = (w', Running t)
    /\ t_ping t = true
    /\ ended (t_res t) = false
    /\ sessions_get w sid = Some (l, s')
    /\ ChatSession.generating (deref w' l) = true.
Proof.
  intros sid s w part.
  apply (proj2 (disconnect_goes_unnoticed example_env sid w)
           (mutate 0 (ChatSession.set_generating true) w)
           (first_task example_env sid 0 s)).
  - reflexivity.
  - repeat constructor.
Defined.


(** ** One generation per session (C1) *)

(** C1 fails on the code, in two ways that come from one defect: the
    lock is the [generating] flag of a session object, and a handler
    checks it once, on the object that is registered when the request
    arrives.

    First, [GET /session/:id] registers a new object, with the flag
    unset, for an id whose stream is suspended: a second stream for
    the same id then enters its generation, and two generations are in
    flight for one session.

    Second, [POST /message] checks the flag before it awaits the write
    of an upload: a stream that starts during that write sets the
    flag; the message handler then goes on, appends the message and
    answers 200 with a turn number while the flag is set. *)
Theorem second_generation_after_reload :
  let sid := lit "Xk3_9aQz0B" in
  let env := example_env in
  let hello := {| body_sessionId := Some sid;
                  body_text := Some (lit "draw a cat"); files := [] |} in
  let cat := {| mimetype := lit "image/png"; buffer := [137; 80; 78; 71] |} in
  let picture := {| body_sessionId := Some sid; body_text := None; files := [cat] |} in
  let created := [ACreate env sid; APerform env 0; AResume env 0] in
  (* a reload while the stream is suspended *)
  (let sys :=
     run_system
       (created
        ++ [AMessage env hello; APerform env 1; AResume env 1;
            APerform env 1; AResume env 1;
            AStream env sid;
            ALoad sid; APerform env 3; AResume env 3;
            AStream env sid]) in
   in_flight sid sys = 2%nat
   /\ exists t t',
        tasks sys !! 2%nat = Some (Streaming t)
        /\ tasks sys !! 4%nat = Some (Streaming t')
        /\ t_sessionId t = sid /\ t_sessionId t' = sid
        /\ events (t_res t') = [EvStatus (lit "Generating...")]
        /\ ChatSession.generating (deref (world sys) (t_sess t)) = true
        /\ ChatSession.generating (deref (world sys) (t_sess t')) = true)
  (* a stream that starts while a message is being accepted *)
  /\ (let sys :=
        run_system
          (created
           ++ [AMessage env picture;
               AStream env sid;
               APerform env 1; AResume env 1;
               APerform env 1; AResume env 1; APerform env 1; AResume env 1]) in
      exists t l s,
        tasks sys !! 2%nat = Some (Streaming t)
        /\ t_sessionId t = sid
        /\ tasks sys !! 1%nat = Some (Finished (Answered (json 200 (BTurn sid 1))))
        /\ sessions_get (world sys) sid = Some (l, s)
        /\ ChatSession.generating s = true
        /\ length (ChatSession.history s) = 1%nat).
Proof.
  vm_compute. split.
  - split; [reflexivity|]. eexists _, _. repeat split.
  - eexists _, _, _. repeat split.
Qed.

(* ================================================================== *)
(** * Further properties of the handlers *)
(* ================================================================== *)

(** ** The stream as a protocol *)

Section Protocol.

Variable env : Env.
Implicit Types (w : World) (t : StreamTask).

Lemma parts_of_events_app evs1 evs2 :
parts_of_events (evs1 ++ evs2) = parts_of_events evs1 ++ parts_of_events evs2.
Proof. apply omap_app. Qed.

Lemma relay_part_accumulator w t p :
accumulator_in_step t ->
accumulator_in_step (snd (relay_part env (w, t) p)).
Proof.
unfold accumulator_in_step, relay_part. intros H.
destruct (inline_image p) as [[mt data]|].
- destruct saveBufferToArtifacts; cbn [snd t_assistantParts t_res];
    rewrite ?events_sseSend, ?parts_of_events_app, H; simpl;
    by rewrite ?app_nil_r.
- destruct (p_text p) as [x|]; [destruct (truthy x)|]; cbn [snd]; try done.
  cbn [t_assistantParts t_res]. by rewrite events_sseSend, parts_of_events_app, H.
Qed.

Lemma relay_parts_accumulator ps w t :
accumulator_in_step t ->
accumulator_in_step (snd (foldl (relay_part env) (w, t) ps)).
Proof.
revert w t. induction ps as [|p ps IH]; intros w t H; cbn [foldl]; [done|].
pose proof (relay_part_accumulator w t p H) as H1.
destruct (relay_part env (w, t) p) as [w1 t1]. by apply IH.
Qed.

Lemma stream_step_accumulator w t s w' t' :
accumulator_in_step t ->
stream_step env w t s = (w', Running t') ->
accumulator_in_step t'.
Proof.
intros H. destruct s as [c|e| |now|]; cbn [stream_step].
- unfold relay_chunk.
  pose proof (relay_parts_accumulator (default [] c) w t H) as H1.
  destruct (foldl _ _ _) as [w1 t1]. by intros [= _ <-].
- by rewrite stream_catch_effect.
- unfold stream_commit, stream_finally. done.
- intros [= _ <-]. destruct (t_ping t); [|done].
  unfold accumulator_in_step in *. cbn [task_with_res t_assistantParts t_res].
  by rewrite events_ssePing.
- by intros [= _ <-].
Qed.

Lemma stream_run_accumulator ss w t w' t' :
accumulator_in_step t ->
stream_run env w t ss = (w', Running t') ->
accumulator_in_step t'.
Proof.
revert w t. induction ss as [|s ss IH]; intros w t H; cbn [stream_run].
- by intros [= _ <-].
- destruct (stream_step env w t s) as [w1 [t1|r p]] eqn:E; [|done].
  apply IH. by eapply stream_step_accumulator.
Qed.

Lemma first_task_accumulator sid l s : accumulator_in_step (first_task env sid l s).
Proof. done. Qed.

(** A stream that does not get going sends the one event [error]. *)
Lemma stream_start_refused sid w w' res ping :
stream_start env sid w = (w', Closed res ping) ->
w' = w /\ ping = false /\ ended res = true /\ exists m, events res = [EvError m].
Proof.
destruct (sessions_get w sid) as [[l s]|] eqn:Hget.
2:{ rewrite stream_start_unregistered by done. intros [= <- <- <-]. eauto. }
destruct (ChatSession.generating s) eqn:Hgen.
{ rewrite (stream_start_generating _ _ _ _ _ Hget Hgen). intros [= <- <- <-]. eauto. }
destruct (truthy (opt_or (GEMINI_API_KEY env) [])) eqn:Hkey.
- by rewrite (stream_start_started _ _ _ _ _ Hget Hgen Hkey).
- rewrite (stream_start_no_key _ _ _ _ _ Hget Hgen Hkey). intros [= <- <- <-]. eauto.
Qed.

End Protocol.

(** X1: whatever reaches the stream handler, what it writes follows
    one grammar.  A closed stream has ended its response and cancelled
    its timer, and its events are either the single [error] of a
    refused request, or [status "Generating..."], then events of the
    relay loop only, then exactly one closing event, [done] or [error],
    in last position.  A stream that is still suspended has not ended
    its response, has its timer armed, and has sent [status] and relay
    events only. *)
Theorem stream_protocol env sid ss w :
  match streamTurn env sid ss w with
  | (_, Closed res ping) =>
      ended res = true /\ ping = false
      /\ ((exists m, events res = [EvError m])
          \/ (exists evs e,
                events res = EvStatus (lit "Generating...") :: evs ++ [e]
                /\ Forall relay_event evs /\ closing_event e))
  | (_, Running t) =>
      ended (t_res t) = false /\ t_ping t = true
      /\ exists evs,
           events (t_res t) = EvStatus (lit "Generating...") :: evs
           /\ Forall relay_event evs
  end.
Proof.
  unfold streamTurn.
  destruct (stream_start env sid w) as [w1 [t0|r0 p0]] eqn:Hstart.
  2:{ apply stream_start_refused in Hstart as (_ & -> & Hend & m & Hev).
      split; [done|]. split; [done|]. left. eauto. }
  destruct (stream_start_running_inv _ _ _ _ _ Hstart) as (l & s & Hget & Hgen & Hkey).
  rewrite (stream_start_started _ _ _ _ _ Hget Hgen Hkey) in Hstart.
  inversion Hstart; subst w1 t0. clear Hstart.
  destruct (stream_run env _ (first_task env sid l s) ss) as [w' [t|res ping]] eqn:Hrun.
  - destruct (stream_run_split w (first_task env sid l s) ss)
      as [Hss|(pre & x & rest & -> & Hpre & Hx)].
    + destruct (stream_run_running env (mutate l (ChatSession.set_generating true) w)
                  (first_task env sid l s) ss Hss)
        as (w2 & t2 & Hrun2 & _ & (_ & _ & Hping & Hend & evs & Hev & Hrelay)).
      rewrite Hrun in Hrun2. inversion Hrun2; subst w2 t2.
      split; [by rewrite Hend|]. split; [by rewrite Hping|].
      exists evs. by rewrite Hev.
    + destruct (stream_run_running env (mutate l (ChatSession.set_generating true) w)
                  (first_task env sid l s) pre Hpre) as (w2 & t2 & Hrun2 & _).
      rewrite (stream_run_app _ _ _ _ _ _ _ Hrun2) in Hrun. cbn [stream_run] in Hrun.
      rewrite (stream_step_terminal _ _ _ _ Hx) in Hrun.
      by destruct x.
  - apply stream_run_closed in Hrun
      as (w2 & t2 & _ & (_ & _ & _ & _ & evs & Hev & Hrelay) & [[e Hend]|Hend]).
    + rewrite stream_catch_effect in Hend. inversion Hend; subst.
      split; [done|]. split; [done|]. right. exists evs, (EvError (opt_or (err_message e) (lit "Generation failed"))).
      rewrite events_res_end, events_sseSend, Hev. by rewrite <- app_assoc.
    + unfold stream_commit, stream_finally in Hend. inversion Hend; subst.
      split; [done|]. split; [done|]. right. exists evs, EvDone.
      rewrite events_res_end, events_sseSend, Hev. by rewrite <- app_assoc.
Qed.

(** ** What a completed turn leaves behind *)

Section Completed.

Variable env : Env.
Implicit Types (w : World) (t : StreamTask).

Lemma stream_run_closed_in_step w t ss w' res ping :
accumulator_in_step t ->
stream_run env w t ss = (w', Closed res ping) ->
exists w1 t1,
  only_artifacts w w1 /\ progress t t1 /\ accumulator_in_step t1
  /\ ((exists e, stream_catch e w1 t1 = (w', Closed res ping))
      \/ stream_commit env w1 t1 = (w', Closed res ping)).
Proof.
intros Hacc E.
destruct (stream_run_split w t ss) as [H|(pre & s & rest & -> & Hpre & Hs)].
- destruct (stream_run_running env w t ss H) as (w1 & t1 & E1 & _). congruence.
- destruct (stream_run_running env w t pre Hpre) as (w1 & t1 & E1 & Ha & Hp).
  pose proof (stream_run_accumulator env _ _ _ _ _ Hacc E1) as Hacc1.
  rewrite (stream_run_app _ _ _ _ _ _ _ E1) in E. cbn [stream_run] in E.
  rewrite (stream_step_terminal _ _ _ _ Hs) in E.
  exists w1, t1. do 3 (split; [done|]).
  destruct s; try done.
  + left. by exists e.
  + by right.
Qed.

(** The whole effect of a stream that completed. *)
Lemma streamTurn_completed sid ss w w' st :
streamTurn env sid ss w = (w', st) ->
completed st = true ->
exists l s res,
  st = Closed res false
  /\ sessions_get w sid = Some (l, s)
  /\ ChatSession.generating s = false
  /\ heap w'
     = <[l := ChatSession.mk (ChatSession.id s)
                (ChatSession.history s
                   ++ [ChatMessage.mk model (parts_of_events (events res))])
                false (S (ChatSession.turn s))]> (heap w)
  /\ sessions w' = sessions w
  /\ store w'
     = (if session_write_ok env (sessPath w sid)
        then
          <[sessPath w sid :=
              ChatSessionFile.mk sid
                (opt_or (ChatSessionFile.title <$> loadSessionFile w sid)
                        (session_label (now_locale env)))
                (opt_or (ChatSessionFile.createdAt <$> loadSessionFile w sid)
                        (now_iso env))
                (now_iso env)
                (ChatSession.history s
                   ++ [ChatMessage.mk model (parts_of_events (events res))])]>
            (store w)
        else store w)
  /\ file_of w' = file_of w.
Proof.
intros E Hdone. destruct st as [t|res ping]; [done|].
unfold streamTurn in E.
destruct (stream_start env sid w) as [w0 [t0|r0 p0]] eqn:Hstart.
2:{ inversion E; subst.
    apply stream_start_refused in Hstart as (_ & _ & _ & m & Hev).
    unfold completed in Hdone. rewrite Hev in Hdone. done. }
destruct (stream_start_running_inv _ _ _ _ _ Hstart) as (l & s & Hget & Hgen & Hkey).
rewrite (stream_start_started _ _ _ _ _ Hget Hgen Hkey) in Hstart.
inversion Hstart; subst w0 t0. clear Hstart.
apply stream_run_closed_in_step in E
  as (w1 & t1 & (Hh & Hs & Hst & Hfo) & (Hsid & Hl & _) & Hacc & [[e Hend]|Hend]);
  [| |apply first_task_accumulator].
{ apply completed_catch in Hend. congruence. }
apply sessions_get_Some in Hget as Hget'. destruct Hget' as [Hreg Hobj].
cbn [t_sessionId first_task] in Hsid. cbn [t_sess first_task] in Hl.
assert (Hobj1 : heap w1 !! t_sess t1 = Some (ChatSession.set_generating true s)).
{ rewrite Hl, Hh. by apply mutate_lookup. }
rewrite (stream_commit_full env w1 t1 _ Hobj1) in Hend.
assert (Hparts : t_assistantParts t1
                 = parts_of_events (events (res_end (sseSend (t_res t1) EvDone)))).
{ rewrite events_res_end, events_sseSend, parts_of_events_app, Hacc. simpl.
  by rewrite app_nil_r. }
unfold sessPath in Hend.
rewrite Hparts, Hsid, Hl, Hst, Hs, Hh, Hfo in Hend. cbn [ChatSession.id ChatSession.history
  ChatSession.turn ChatSession.set_generating mutate with_heap file_of store] in Hend.
injection Hend as <- <- <-.
exists l, s, (res_end (sseSend (t_res t1) EvDone)).
do 3 (split; [done|]). cbn [heap sessions store mutate with_heap file_of].
split; [|done].
apply list_eq. intros i. destruct (decide (i = l)) as [->|Hne].
- rewrite !list_lookup_insert_eq; [done| |].
  + by eapply lookup_lt_Some.
  + rewrite length_alter. by eapply lookup_lt_Some.
- by rewrite !list_lookup_insert_ne, list_lookup_alter_ne.
Qed.

End Completed.

Lemma count_model_app h1 h2 :
  count_model (h1 ++ h2) = (count_model h1 + count_model h2)%nat.
Proof. unfold count_model. by rewrite filter_app, length_app. Qed.

Lemma count_model_push_model h p :
  count_model (h ++ [ChatMessage.mk model p]) = S (count_model h).
Proof. rewrite count_model_app. unfold count_model at 2. simpl. lia. Qed.

Lemma count_model_push_user h p :
  count_model (h ++ [ChatMessage.mk user p]) = count_model h.
Proof. rewrite count_model_app. unfold count_model at 2. simpl. lia. Qed.

(** X2: what is stored is what was relayed.  When a stream ends with
    [done], the message appended to the session's history has role
    [model] and, as its parts, exactly the text deltas and images that
    were sent to the client, in the order they were sent (status lines
    leave no part); the turn counter has grown by one and the session
    is idle again. *)
Theorem stored_reply_is_relayed_reply env sid ss w w' res ping :
  streamTurn env sid ss w = (w', Closed res ping) ->
  last (events res) = Some EvDone ->
  exists l s,
    sessions_get w sid = Some (l, s)
    /\ sessions_get w' sid
       = Some (l, ChatSession.mk (ChatSession.id s)
                    (ChatSession.history s
                       ++ [ChatMessage.mk model (parts_of_events (events res))])
                    false (S (ChatSession.turn s))).
Proof.
  intros E Hdone.
  destruct (streamTurn_completed env sid ss w w' _ E)
    as (l & s & res' & Hres & Hget & _ & Hh & Hs & _).
  { unfold completed. by apply bool_decide_eq_true_2. }
  inversion Hres; subst res' ping.
  exists l, s. split; [done|].
  apply sessions_get_Some in Hget as [Hreg Hobj].
  apply sessions_get_Some. rewrite Hs, Hh. split; [done|].
  apply list_lookup_insert_eq. by eapply lookup_lt_Some.
Qed.

Lemma stored_reply_is_relayed_reply_witness :
  let sid := lit "s1" in
  let s := ChatSession.mk sid [ChatMessage.mk user [Text (lit "hi")]] false 0 in
  let w := mkWorld [s] {[ sid := 0%nat ]} ∅ ∅ (fun name => name) in
  let ss :=
    [Yields (Some [ {| p_inlineData := None; p_text := Some (lit "a") |};
                    {| p_inlineData :=
                         Some {| rid_mimeType := None; rid_data := Some (lit "AAAA") |};
                       p_text := Some (lit "ignored") |} ]);
     TimerFires 7; Completes] in
  match streamTurn example_env sid ss w with
  | (w', Closed res _) =>
      exists l s0,
        sessions_get w sid = Some (l, s0)
        /\ sessions_get w' sid
           = Some (l, ChatSession.mk (ChatSession.id s0)
                        (ChatSession.history s0
                           ++ [ChatMessage.mk model (parts_of_events (events res))])
                        false (S (ChatSession.turn s0)))
  | _ => False
  end.
Proof.
  intros sid s w ss.
  destruct (streamTurn example_env sid ss w) as [w' [t|res ping]] eqn:E.
  - vm_compute in E. discriminate E.
  - apply (stored_reply_is_relayed_reply example_env sid ss w w' res ping E).
    vm_compute in E. injection E as <- <- <-. reflexivity.
Defined.


(** ** Invariants of the process state *)

Section Invariants.

Implicit Types (w : World) (l : nat) (sid : jsstring).

Lemma consistent_empty : consistent empty_world.
Proof.
repeat split; intros ?; intros; simpl in *; done.
Qed.

Lemma consistent_same w w' :
heap w' = heap w -> sessions w' = sessions w -> store w' = store w ->
file_of w' = file_of w -> consistent w -> consistent w'.
Proof.
intros Hh Hs Hst Hfo (H1 & H2 & H3 & H4). unfold consistent, turn_counts,
  store_keyed, registry_injective, registry_valid, sessPath in *.
rewrite Hh, Hs, Hst, Hfo. done.
Qed.

Lemma consistent_artifacts w m : consistent w -> consistent (with_artifacts m w).
Proof. done. Qed.

Lemma consistent_only_artifacts w w' : only_artifacts w w' -> consistent w -> consistent w'.
Proof. intros (Hh & Hs & Hst & Hfo). by apply consistent_same. Qed.

Lemma consistent_mutate w l f : gentle f -> consistent w -> consistent (mutate l f w).
Proof.
intros Hf (H1 & H2 & H3 & H4). repeat split.
- intros l' s'. simpl. destruct (decide (l = l')) as [->|Hne].
  + rewrite list_lookup_alter_eq. destruct (heap w !! l') as [s|] eqn:E; [|done].
    simpl. intros [= <-]. apply Hf. by eapply H1.
  + rewrite list_lookup_alter_ne by done. apply H1.
- done.
- done.
- intros sid l'. simpl. rewrite length_alter. apply H4.
Qed.

Lemma consistent_sessions_set w sid s :
ChatSession.turn s = count_model (ChatSession.history s) ->
consistent w -> consistent (sessions_set sid s w).
Proof.
intros Hturn (H1 & H2 & H3 & H4). repeat split.
- intros l s'. simpl. intros Hl.
  apply lookup_app_Some in Hl as [Hl|[_ Hl]]; [by eapply H1|].
  destruct (l - length (heap w))%nat; simpl in Hl; [|done]. by injection Hl as <-.
- done.
- intros a b l. simpl.
  destruct (decide (sid = a)) as [<-|Ha], (decide (sid = b)) as [<-|Hb];
    rewrite ?lookup_insert_eq, ?lookup_insert_ne by done; try done.
  + intros [= <-] Hreg. apply H4 in Hreg. lia.
  + intros Hreg [= <-]. apply H4 in Hreg. lia.
  + apply H3.
- intros sid' l. simpl. rewrite length_app. simpl.
  destruct (decide (sid = sid')) as [<-|Hne].
  + rewrite lookup_insert_eq. intros [= <-]. lia.
  + rewrite lookup_insert_ne by done. intros Hreg. apply H4 in Hreg. lia.
Qed.

Lemma consistent_sessions_delete w sid : consistent w -> consistent (sessions_delete sid w).
Proof.
intros (H1 & H2 & H3 & H4). repeat split; try done.
- intros a b l. simpl. rewrite !lookup_delete_Some. intros [_ ?] [_ ?]. by eapply H3.
- intros a l. simpl. rewrite lookup_delete_Some. intros [_ ?]. by eapply H4.
Qed.

Lemma consistent_writeSession w f : consistent w -> consistent (writeSession f w).
Proof.
intros (H1 & H2 & H3 & H4). repeat split; try done.
intros p f'. unfold writeSession, sessPath. cbn [store with_store file_of].
fold (sessPath w (ChatSessionFile.id f)).
destruct (decide (sessPath w (ChatSessionFile.id f) = p)) as [<-|Hne].
- rewrite lookup_insert_eq. by intros [= <-].
- rewrite lookup_insert_ne by done. apply H2.
Qed.

Lemma consistent_writeFile env f w w' :
writeFile env f w = Some w' -> consistent w -> consistent w'.
Proof. intros E H. apply writeFile_frame in E as ->. by apply consistent_writeSession. Qed.

Lemma consistent_unlink sid w w' :
unlink sid w = Some w' -> consistent w -> consistent w'.
Proof.
unfold unlink. destruct (store w !! sessPath w sid); [|done].
intros [= <-] (H1 & H2 & H3 & H4). repeat split; try done.
intros p f. unfold sessPath. cbn [store with_store file_of].
rewrite lookup_delete_Some. intros [_ ?]. by apply H2.
Qed.

Lemma consistent_deleteSession sid w : consistent w -> consistent (fst (deleteSession sid w)).
Proof.
intros H. unfold deleteSession, deleteSessionFile. cbn [fst].
apply consistent_sessions_delete.
destruct (unlink sid w) as [w1|] eqn:E; [by eapply consistent_unlink | done].
Qed.

Lemma gentle_push_user parts : gentle (ChatSession.push (ChatMessage.mk user parts)).
Proof. intros s. split; [done|]. simpl. intros ->. by rewrite count_model_push_user. Qed.

Lemma gentle_set_generating b : gentle (ChatSession.set_generating b).
Proof. intros s. by split. Qed.

Lemma gentle_commit parts :
gentle (fun s => ChatSession.set_generating false
                   (ChatSession.bump
                      (ChatSession.push (ChatMessage.mk model parts) s))).
Proof. intros s. split; [done|]. simpl. intros ->. by rewrite count_model_push_model. Qed.


Lemma consistent_loadSession sid w :
consistent w -> consistent (fst (loadSession sid w)).
Proof.
intros H. unfold loadSession.
destruct (loadSessionFile w sid) as [file|] eqn:E; [|done]. cbn [fst].
by apply consistent_sessions_set.
Qed.

Lemma consistent_renameSessionFile env sid title w w' f :
renameSessionFile env sid title w = Some (w', f) ->
consistent w -> consistent w'.
Proof.
unfold renameSessionFile, saveSessionFile.
destruct (loadSessionFile w sid); simpl; [|done].
destruct writeFile as [w1|] eqn:E; simpl; [|done].
intros [= <- _]. by eapply consistent_writeFile.
Qed.

Lemma consistent_acceptMessage env req w :
consistent w -> consistent (fst (acceptMessage env req w)).
Proof.
intros H.
destruct (sessions_get w (target req)) as [[l s]|] eqn:Hget.
2:{ by rewrite acceptMessage_unregistered. }
destruct (ChatSession.generating s) eqn:Hgen.
{ by rewrite (acceptMessage_generating _ _ _ _ _ Hget Hgen). }
rewrite (acceptMessage_idle _ _ _ _ _ Hget Hgen).
destruct save_uploads as [w1 [parts|]] eqn:Hup;
  apply save_uploads_frame in Hup;
  pose proof (consistent_only_artifacts _ _ Hup H) as H1; [|done].
case_bool_decide; [done|]. cbv zeta. cbn [fst].
pose proof (consistent_mutate w1 l _ (gentle_push_user parts) H1) as H2.
case_bool_decide; [|done].
destruct renameSessionFile as [[w3 f]|] eqn:Hren; [|done].
by eapply consistent_renameSessionFile.
Qed.

Lemma consistent_stream_start env sid w :
consistent w -> consistent (fst (stream_start env sid w)).
Proof.
intros H.
destruct (stream_start env sid w) as [w1 [t|r p]] eqn:E.
- destruct (stream_start_running_inv _ _ _ _ _ E) as (l & s & Hget & Hgen & Hkey).
  rewrite (stream_start_started _ _ _ _ _ Hget Hgen Hkey) in E.
  inversion E; subst. apply consistent_mutate; [apply gentle_set_generating | done].
- apply stream_start_refused in E as (-> & _). done.
Qed.

Lemma consistent_commit parts w l :
consistent w ->
consistent (mutate l ChatSession.bump
              (mutate l (ChatSession.push (ChatMessage.mk model parts)) w)).
Proof.
intros H. rewrite mutate_mutate. apply consistent_mutate; [|done].
intros s0. split; [done|]. simpl. intros ->. by rewrite count_model_push_model.
Qed.

Lemma consistent_stream_step env w t s :
consistent w -> consistent (fst (stream_step env w t s)).
Proof.
intros H. destruct (terminal s) eqn:Hs.
- rewrite stream_step_terminal by done. destruct s; try done.
  + rewrite stream_catch_effect. apply consistent_mutate; [apply gentle_set_generating | done].
  + unfold stream_commit, stream_finally. cbn [fst].
    apply consistent_mutate; [apply gentle_set_generating|].
    pose proof (consistent_commit (t_assistantParts t) w (t_sess t) H) as H1.
    unfold saveSessionFile.
    destruct writeFile as [w3|] eqn:E; [by eapply consistent_writeFile | done].
- destruct (stream_step_running env w t s Hs) as (w' & t' & -> & Hfr & _).
  by eapply consistent_only_artifacts.
Qed.

(** The handlers in steps. *)
Lemma consistent_perform env op w :
consistent w -> consistent (fst (perform env op w)).
Proof.
intros H. destruct op as [name buf|sid|file|sid]; cbn [perform].
- destruct saveBufferToArtifacts as [w'|] eqn:E; [|done]. cbn [fst].
  apply saveBufferToArtifacts_frame in E. by eapply consistent_only_artifacts.
- by destruct (loadSessionFile w sid).
- destruct writeFile as [w'|] eqn:E; [|done]. by eapply consistent_writeFile.
- destruct unlink as [w'|] eqn:E; [|done]. by eapply consistent_unlink.
Qed.

Lemma consistent_message_after_uploads env sid l text n parts w :
consistent w ->
consistent (fst (message_after_uploads env sid l text n parts w)).
Proof.
intros H. unfold message_after_uploads. case_bool_decide; [done|].
pose proof (consistent_mutate w l _ (gentle_push_user parts) H) as H2.
by case_bool_decide.
Qed.

Lemma consistent_message_uploads env sid l text n idx fs parts w :
consistent w ->
consistent (fst (message_uploads env sid l text n idx fs parts w)).
Proof.
intros H. destruct fs as [|f rest]; cbn [message_uploads]; [|done].
by apply consistent_message_after_uploads.
Qed.

Lemma relay_parts_world env t ps w : fst (relay_parts env t ps w) = w.
Proof.
revert t. induction ps as [|p ps IH]; intros t; cbn [relay_parts]; [done|].
destruct (inline_image p) as [[mt data]|]; [done|].
destruct (p_text p) as [x|]; [destruct (truthy x)|]; apply IH.
Qed.

Lemma consistent_resume env k r w :
consistent w -> consistent (fst (resume env k r w)).
Proof.
intros H. destruct k; cbn [resume].
- by destruct r.
- destruct r; try done. cbn [fst]. by apply consistent_sessions_set.
- by apply consistent_sessions_delete.
- destruct r; try done; by apply consistent_message_uploads.
- by destruct r.
- done.
- by rewrite relay_parts_world.
- done.
- unfold stream_finally. cbn [fst].
  apply consistent_mutate; [apply gentle_set_generating | done].
Qed.

Lemma consistent_deliver env t s w :
consistent w -> consistent (fst (deliver env t s w)).
Proof.
intros H. destruct s as [c|e| |now|]; cbn [deliver]; try done.
- by rewrite relay_parts_world.
- rewrite stream_catch_effect. cbn [fst].
  apply consistent_mutate; [apply gentle_set_generating | done].
- by apply consistent_commit.
Qed.

Lemma consistent_start a w w' task :
start a w = Some (w', task) -> consistent w -> consistent w'.
Proof.
destruct a as [env newId|sid|sid|env req|env sid|env i|env i|env i s];
  cbn [start]; try done.
- intros [= <- _] H. by apply consistent_sessions_set.
- by intros [= <- _].
- by intros [= <- _].
- intros E H. injection E as E.
  assert (Hw : w' = fst (message_start env req w)) by (by rewrite E).
  subst w'. clear E. unfold message_start.
  destruct (sessions_get w _) as [[l s]|]; [|done].
  destruct (ChatSession.generating s); [done|].
  by apply consistent_message_uploads.
- intros E H. pose proof (consistent_stream_start env sid w H) as H'.
  destruct (stream_start env sid w) as [w1 st]. by injection E as <- _.
Qed.

Lemma consistent_advance a task w :
consistent w -> consistent (fst (advance a task w)).
Proof.
intros H.
destruct a as [env newId|sid|sid|env req|env sid|env i|env i|env i s], task;
  cbn [advance]; try done.
- pose proof (consistent_perform env op w H) as H'.
  by destruct (perform env op w).
- by apply consistent_resume.
- by apply consistent_deliver.
Qed.

Lemma consistent_sys_step sys a :
consistent (world sys) -> consistent (world (sys_step sys a)).
Proof.
intros H. unfold sys_step.
destruct (start a (world sys)) as [[w' task]|] eqn:E.
- by eapply consistent_start.
- destruct (tasks sys !! target_task a) as [task|]; [|done].
  pose proof (consistent_advance a task (world sys) H) as H'.
  by destruct (advance a task (world sys)).
Qed.

Lemma consistent_run acts : consistent (world (run_system acts)).
Proof.
unfold run_system. induction acts as [|a acts IH] using rev_ind.
- apply consistent_empty.
- rewrite foldl_app. simpl. by apply consistent_sys_step.
Qed.

End Invariants.

(** X4: the turn counter counts the model messages.  In every state
    the chat endpoints can reach, whatever the interleaving of the
    handlers at their awaits, the turn counter of every live session
    equals the number of [model] messages in its history. *)
Theorem turn_counts_model_messages acts sid l s :
  sessions_get (world (run_system acts)) sid = Some (l, s) ->
  ChatSession.turn s = count_model (ChatSession.history s).
Proof.
  intros Hget. destruct (consistent_run acts) as (H & _).
  apply sessions_get_Some in Hget as [_ Hobj]. by eapply H.
Qed.

Lemma turn_counts_model_messages_witness :
  let sid := lit "Xk3_9aQz0B" in
  let hello := {| body_sessionId := Some sid;
                  body_text := Some (lit "draw a cat"); files := [] |} in
  let env := example_env in
  let acts :=
    [ACreate env sid; APerform env 0; AResume env 0;
     AMessage env hello; APerform env 1; AResume env 1; APerform env 1; AResume env 1;
     AStream env sid;
     ADeliver env 2
       (Yields (Some [ {| p_inlineData := None; p_text := Some (lit "ok") |} ]));
     ADeliver env 2 Completes;
     (* a second message comes in while the write-back is under way *)
     APerform env 2; AMessage env hello; AResume env 2; APerform env 2; AResume env 2;
     AMessage env hello] in
  exists l s,
    sessions_get (world (run_system acts)) sid = Some (l, s)
    /\ length (ChatSession.history s) = 3%nat
    /\ ChatSession.turn s = 1%nat
    /\ ChatSession.turn s = count_model (ChatSession.history s).
Proof.
  intros sid hello env acts.
  assert (Hget : exists l s, sessions_get (world (run_system acts)) sid = Some (l, s)
                             /\ length (ChatSession.history s) = 3%nat
                             /\ ChatSession.turn s = 1%nat).
  { vm_compute. eexists _, _. split; [reflexivity|]. split; reflexivity. }
  destruct Hget as (l & s & Hget & Hlen & Hturn).
  exists l, s. do 3 (split; [done|]).
  exact (turn_counts_model_messages acts sid l s Hget).
Defined.



(** ** What a request leaves alone *)

Section Frames.

Variable env : Env.
Implicit Types (w : World) (t : StreamTask) (sid : jsstring).

(** The three ways a stream request can stand after some stimuli. *)
Lemma streamTurn_cases sid ss w w' st :
streamTurn env sid ss w = (w', st) ->
(w' = w /\ exists res m, st = Closed res false /\ events res = [EvError m])
\/ (exists l s w1 t1,
      sessions_get w sid = Some (l, s)
      /\ ChatSession.generating s = false
      /\ heap w1 = heap (mutate l (ChatSession.set_generating true) w)
      /\ sessions w1 = sessions w /\ store w1 = store w
      /\ file_of w1 = file_of w
      /\ progress (first_task env sid l s) t1
      /\ accumulator_in_step t1
      /\ ((w' = w1 /\ st = Running t1)
          \/ (exists e, stream_catch e w1 t1 = (w', st))
          \/ stream_commit env w1 t1 = (w', st))).
Proof.
unfold streamTurn.
destruct (stream_start env sid w) as [w0 [t0|r0 p0]] eqn:Hstart.
2:{ intros [= <- <-].
    apply stream_start_refused in Hstart as (-> & -> & _ & m & Hev).
    left. split; [done|]. by exists r0, m. }
destruct (stream_start_running_inv _ _ _ _ _ Hstart) as (l & s & Hget & Hgen & Hkey).
rewrite (stream_start_started _ _ _ _ _ Hget Hgen Hkey) in Hstart.
inversion Hstart; subst w0 t0. clear Hstart.
intros E. right. exists l, s.
destruct st as [t|res ping].
- destruct (stream_run_split (mutate l (ChatSession.set_generating true) w)
              (first_task env sid l s) ss)
    as [Hss|(pre & x & rest & -> & Hpre & Hx)].
  + destruct (stream_run_running env (mutate l (ChatSession.set_generating true) w)
                (first_task env sid l s) ss Hss)
      as (w2 & t2 & E2 & (Hh & Hs & Hst & Hfo) & Hp).
    rewrite E in E2. inversion E2; subst w2 t2.
    exists w', t. do 7 (split; [done|]).
    split; [|by left].
    eapply stream_run_accumulator; [apply first_task_accumulator | exact E].
  + destruct (stream_run_running env (mutate l (ChatSession.set_generating true) w)
                (first_task env sid l s) pre Hpre)
      as (w2 & t2 & E2 & _).
    rewrite (stream_run_app _ _ _ _ _ _ _ E2) in E. cbn [stream_run] in E.
    rewrite (stream_step_terminal _ _ _ _ Hx) in E. by destruct x.
- apply stream_run_closed_in_step in E
    as (w1 & t1 & (Hh & Hs & Hst & Hfo) & Hp & Hacc & Hend);
    [|apply first_task_accumulator].
  exists w1, t1. do 8 (split; [done|]). by right.
Qed.

(** A stream request changes no session object but its own, never
  changes the registry, and writes no file but its own. *)
Lemma streamTurn_frame sid ss w :
let w' := fst (streamTurn env sid ss w) in
sessions w' = sessions w
/\ (forall l s l', sessions_get w sid = Some (l, s) -> l' <> l ->
      heap w' !! l' = heap w !! l')
/\ (sessions_get w sid = None -> w' = w)
/\ (forall p, p <> sessPath w sid -> store w' !! p = store w !! p)
/\ file_of w' = file_of w.
Proof.
destruct (streamTurn env sid ss w) as [w' st] eqn:E. cbn [fst].
apply streamTurn_cases in E
  as [(-> & _)|(l & s & w1 & t1 & Hget & Hgen & Hh & Hs & Hst & Hfo
                & (Hsid & Hl & _) & _ & Hend)]; [done|].
cbn [t_sessionId t_sess first_task] in Hsid, Hl.
assert (Hobj1 : heap w1 !! t_sess t1 = Some (ChatSession.set_generating true s)).
{ rewrite Hl, Hh. apply mutate_lookup. by apply sessions_get_Some in Hget as [_ ?]. }
assert (Hw' : sessions w' = sessions w1
              /\ (forall l', l' <> l -> heap w' !! l' = heap w1 !! l')
              /\ (forall p, p <> sessPath w1 sid -> store w' !! p = store w1 !! p)
              /\ file_of w' = file_of w1).
{ destruct Hend as [[-> _]|[[e Hc]|Hc]]; [done| |].
  - rewrite stream_catch_effect in Hc. inversion Hc; subst w'.
    split; [done|]. split; [|done]. intros l' Hne. rewrite Hl.
    by apply mutate_lookup_ne.
  - rewrite (stream_commit_full env w1 t1 _ Hobj1) in Hc. inversion Hc; subst w'.
    cbn [heap sessions store file_of]. split; [done|]. rewrite Hl, Hsid. split.
    + intros l' Hne. by rewrite list_lookup_insert_ne.
    + split; [|done]. intros p Hne.
      destruct (session_write_ok env (sessPath w1 sid));
        [by rewrite lookup_insert_ne | reflexivity]. }
destruct Hw' as (Hs' & Hh' & Hst' & Hfo').
split; [by rewrite Hs', Hs|]. split.
{ intros l0 s0 l' Hget0 Hne. rewrite Hget in Hget0. inversion Hget0; subst l0 s0.
  rewrite (Hh' l' Hne), Hh. by apply mutate_lookup_ne. }
split; [by rewrite Hget|].
split; [|by rewrite Hfo', Hfo].
intros p Hne. rewrite Hst', Hst; [done|]. unfold sessPath. by rewrite Hfo.
Qed.

(** [POST /message] keeps the naming of files. *)
Lemma acceptMessage_file_of req w :
file_of (fst (acceptMessage env req w)) = file_of w.
Proof.
destruct (sessions_get w (target req)) as [[l s]|] eqn:Hget.
2:{ by rewrite acceptMessage_unregistered. }
destruct (ChatSession.generating s) eqn:Hgen.
{ by rewrite (acceptMessage_generating _ _ _ _ _ Hget Hgen). }
rewrite (acceptMessage_idle _ _ _ _ _ Hget Hgen).
destruct save_uploads as [w1 [parts|]] eqn:Hup;
  apply save_uploads_frame in Hup as (_ & _ & _ & Hfo); [|done].
case_bool_decide; [done|]. cbv zeta. cbn [fst].
case_bool_decide; [|done].
destruct renameSessionFile as [[w3 f]|] eqn:Hren; [|done].
apply renameSessionFile_file_of in Hren. by rewrite Hren.
Qed.

(** What [POST /message] does to the repository: nothing, or the
  auto-naming of the session's document. *)
Lemma acceptMessage_store req w :
let w' := fst (acceptMessage env req w) in
let r := snd (acceptMessage env req w) in
let title := deriveTitle (now_locale env) (trim <$> body_text req)
               (length (files req)) in
match sessions_get w (target req), loadSessionFile w (target req) with
| Some (_, s), Some f =>
    if bool_decide (status r = 200%nat /\ ChatSession.turn s = 0%nat
                    /\ session_write_ok env (sessPath w (ChatSessionFile.id f)) = true)
    then store w'
         = <[sessPath w (ChatSessionFile.id f) :=
               ChatSessionFile.set_updatedAt (now_iso env)
                 (ChatSessionFile.set_title title f)]> (store w)
    else store w' = store w
| _, _ => store w' = store w
end.
Proof.
cbv zeta. destruct (acceptMessage env req w) as [w' r] eqn:E. cbn [fst snd].
destruct (sessions_get w (target req)) as [[l s]|] eqn:Hget.
2:{ rewrite acceptMessage_unregistered in E by done. by inversion E. }
assert (Hrej : store w' = store w -> status r <> 200%nat ->
          match loadSessionFile w (target req) with
          | Some f =>
              if bool_decide (status r = 200%nat /\ ChatSession.turn s = 0%nat
                              /\ session_write_ok env
                                   (sessPath w (ChatSessionFile.id f)) = true)
              then store w'
                   = <[sessPath w (ChatSessionFile.id f) :=
                         ChatSessionFile.set_updatedAt (now_iso env)
                           (ChatSessionFile.set_title
                              (deriveTitle (now_locale env) (trim <$> body_text req)
                                 (length (files req))) f)]> (store w)
              else store w' = store w
          | None => store w' = store w
          end).
{ intros H0 Hst. destruct (loadSessionFile w (target req)); [|done].
  rewrite bool_decide_eq_false_2; [done|]. by intros [? _]. }
destruct (ChatSession.generating s) eqn:Hgen.
{ rewrite (acceptMessage_generating _ _ _ _ _ Hget Hgen) in E.
  inversion E; subst; apply Hrej; [first [assumption | reflexivity] | cbn [status json]; lia]. }
rewrite (acceptMessage_idle _ _ _ _ _ Hget Hgen) in E.
destruct save_uploads as [w1 [parts|]] eqn:Hup;
  apply save_uploads_frame in Hup as (Hh & Hs & Hst & Hfo).
2:{ inversion E; subst; apply Hrej; [first [assumption | reflexivity] | cbn [status json]; lia]. }
destruct (decide (length parts = 0%nat)) as [Hlen|Hlen].
{ rewrite bool_decide_eq_true_2 in E by done.
  inversion E; subst; apply Hrej; [first [assumption | reflexivity] | cbn [status json]; lia]. }
rewrite bool_decide_eq_false_2 in E by done.
cbv zeta in E. clear Hrej.
apply sessions_get_Some in Hget as [_ Hobj].
set (m := ChatMessage.mk user parts) in *.
rewrite (deref_lookup (mutate l (ChatSession.push m) w1) l (ChatSession.push m s)) in E
  by (apply mutate_lookup; by rewrite Hh).
cbn [ChatSession.turn ChatSession.push] in E.
unfold renameSessionFile, saveSessionFile, writeFile, loadSessionFile, sessPath in *.
cbn [store mutate with_heap file_of ChatSessionFile.id ChatSessionFile.set_title
     ChatSessionFile.set_updatedAt] in E.
rewrite Hst, Hfo in E.
destruct (store w !! file_of w (target req ++ lit ".json")) as [f|] eqn:Hf;
  cbn [mbind option_bind] in E.
- destruct (decide (ChatSession.turn s = 0%nat)) as [Ht|Ht].
  + rewrite bool_decide_eq_true_2 in E by done.
    destruct (session_write_ok env (file_of w (ChatSessionFile.id f ++ lit ".json")))
      eqn:Hw; cbn [mbind option_bind] in E; inversion E; subst; cbn [status json].
    * rewrite bool_decide_eq_true_2 by done. unfold writeSession, sessPath.
      cbn [store with_store with_heap mutate file_of ChatSessionFile.id
           ChatSessionFile.set_updatedAt ChatSessionFile.set_title].
      by rewrite Hst, Hfo.
    * rewrite bool_decide_eq_false_2 by (intros (_ & _ & ?); congruence).
      cbn [store mutate with_heap]. exact Hst.
  + rewrite bool_decide_eq_false_2 in E by done. inversion E; subst.
    rewrite bool_decide_eq_false_2 by (by intros (_ & ? & _)). done.
- destruct (bool_decide (ChatSession.turn s = 0%nat)); by inversion E.
Qed.

End Frames.

(** With every document in the file its id names, a message changes no
    document in another file than its session's and, of its own,
    neither history, id nor creation time. *)
Lemma acceptMessage_docs env req w sid' :
  store_keyed w ->
  let w' := fst (acceptMessage env req w) in
  (sessPath w sid' <> sessPath w (target req) ->
   loadSessionFile w' sid' = loadSessionFile w sid')
  /\ ChatSessionFile.history <$> loadSessionFile w' sid'
     = ChatSessionFile.history <$> loadSessionFile w sid'
  /\ ChatSessionFile.id <$> loadSessionFile w' sid'
     = ChatSessionFile.id <$> loadSessionFile w sid'
  /\ ChatSessionFile.createdAt <$> loadSessionFile w' sid'
     = ChatSessionFile.createdAt <$> loadSessionFile w sid'.
Proof.
  intros Hkeyed w'.
  pose proof (acceptMessage_store env req w) as Hst. cbv zeta in Hst. fold w' in Hst.
  pose proof (acceptMessage_file_of env req w) as Hfo. fold w' in Hfo.
  unfold loadSessionFile, sessPath in *. rewrite Hfo.
  destruct (sessions_get w (target req)) as [[l s]|]; [|by rewrite Hst].
  destruct (store w !! file_of w (target req ++ lit ".json")) as [f|] eqn:Hf;
    [|by rewrite Hst].
  destruct (bool_decide _); [|by rewrite Hst].
  pose proof (Hkeyed _ _ Hf) as Hid. unfold sessPath in Hid. rewrite Hst, Hid.
  destruct (decide (file_of w (sid' ++ lit ".json")
                    = file_of w (target req ++ lit ".json"))) as [->|Hne].
  - rewrite lookup_insert_eq, Hf. done.
  - by rewrite lookup_insert_ne.
Qed.



(** The title is set by reading the document, changing it and writing
    it back, over two awaits.  A stream that commits between the read
    and the write has its turn taken out of the document again: the
    write puts back the history that was read. *)
Example title_write_can_undo_a_commit :
  let sid := lit "Xk3_9aQz0B" in
  let hello := {| body_sessionId := Some sid;
                  body_text := Some (lit "draw a cat"); files := [] |} in
  let env := example_env in
  let acts :=
    [ACreate env sid; APerform env 0; AResume env 0;
     (* the message is accepted and waits for the document *)
     AMessage env hello; APerform env 1;
     (* the stream runs and commits the turn *)
     AStream env sid;
     ADeliver env 2
       (Yields (Some [ {| p_inlineData := None; p_text := Some (lit "ok") |} ]));
     ADeliver env 2 Completes;
     APerform env 2; AResume env 2; APerform env 2; AResume env 2;
     (* the message handler goes on with the document it has read *)
     AResume env 1; APerform env 1; AResume env 1] in
  let sys := run_system acts in
  exists l s file res,
    sessions_get (world sys) sid = Some (l, s)
    /\ length (ChatSession.history s) = 2%nat
    /\ ChatSession.turn s = 1%nat
    /\ tasks sys !! 2%nat = Some (Finished (Streamed res))
    /\ last (events res) = Some EvDone
    /\ tasks sys !! 1%nat = Some (Finished (Answered (json 200 (BTurn sid 2))))
    /\ loadSessionFile (world sys) sid = Some file
    /\ ChatSessionFile.history file = [].
Proof.
  vm_compute. eexists _, _, _, _. repeat split.
Qed.

Section MessageFrame.

Variable env : Env.

(** A message changes no session object but the one it addresses, and
  never changes the registry. *)
Lemma acceptMessage_frame req w :
let w' := fst (acceptMessage env req w) in
sessions w' = sessions w
/\ (forall l s l', sessions_get w (target req) = Some (l, s) -> l' <> l ->
      heap w' !! l' = heap w !! l')
/\ (sessions_get w (target req) = None -> w' = w).
Proof.
cbv zeta.
destruct (sessions_get w (target req)) as [[l s]|] eqn:Hget.
2:{ by rewrite acceptMessage_unregistered. }
destruct (ChatSession.generating s) eqn:Hgen.
{ by rewrite (acceptMessage_generating _ _ _ _ _ Hget Hgen). }
rewrite (acceptMessage_idle _ _ _ _ _ Hget Hgen).
destruct save_uploads as [w1 [parts|]] eqn:Hup;
  apply save_uploads_frame in Hup as (Hh & Hs & Hst & Hfo).
2:{ cbn [fst]. rewrite Hh, Hs. done. }
destruct (bool_decide (length parts = 0%nat)).
{ cbn [fst]. rewrite Hh, Hs. done. }
cbv zeta. cbn [fst].
set (w2 := mutate l _ w1).
assert (H2 : sessions w2 = sessions w
             /\ forall l', l' <> l -> heap w2 !! l' = heap w !! l').
{ split; [done|]. intros l' Hne. unfold w2. rewrite mutate_lookup_ne by done.
  by rewrite Hh. }
assert (H3 : forall w3, heap w3 = heap w2 -> sessions w3 = sessions w2 ->
          sessions w3 = sessions w
          /\ (forall l0 s0 l', Some (l, s) = Some (l0, s0) -> l' <> l0 ->
                heap w3 !! l' = heap w !! l')
          /\ (Some (l, s) = None -> w3 = w)).
{ intros w3 Hh3 Hs3. rewrite Hh3, Hs3. destruct H2 as [? H2].
  split; [done|]. split; [|done]. intros l0 s0 l' [= <- <-]. apply H2. }
destruct (bool_decide (ChatSession.turn (deref w2 l) = 0%nat)); [|by apply H3].
destruct renameSessionFile as [[w3 f]|] eqn:Hren; [|by apply H3].
apply renameSessionFile_frame in Hren as (? & ? & _). by apply H3.
Qed.

End MessageFrame.

Lemma sessions_get_frame w w' sid sid' :
  registry_injective w ->
  sessions w' = sessions w ->
  (forall l s l', sessions_get w sid = Some (l, s) -> l' <> l ->
     heap w' !! l' = heap w !! l') ->
  (sessions_get w sid = None -> w' = w) ->
  sid' <> sid ->
  sessions_get w' sid' = sessions_get w sid'.
Proof.
  intros Hk Hs Hh Hnone Hne.
  destruct (sessions_get w sid) as [[l s]|] eqn:Hget; [|by rewrite Hnone].
  unfold sessions_get at 1 2. rewrite Hs.
  destruct (sessions w !! sid') as [l'|] eqn:Hreg; simpl; [|done].
  destruct (decide (l' = l)) as [->|Hl]; [|by rewrite (Hh l s l' eq_refl Hl)].
  (* both ids at one address: excluded *)
  apply sessions_get_Some in Hget as [Hreg0 _].
  exfalso. apply Hne. by apply (Hk sid' sid l).
Qed.

(** X7: sessions are independent.  With no two ids registered for one
    session object and every document in the file its id names, a
    message or a stream for one session, whatever its outcome, leaves
    as it was the live object (history, turn counter, generating flag)
    of every session registered under another id, and the document of
    every session kept in another file. *)
Theorem sessions_are_independent env w :
  registry_injective w -> store_keyed w ->
  (forall req sid',
     (sid' <> target req ->
      sessions_get (fst (acceptMessage env req w)) sid' = sessions_get w sid')
     /\ (sessPath w sid' <> sessPath w (target req) ->
         loadSessionFile (fst (acceptMessage env req w)) sid'
         = loadSessionFile w sid'))
  /\ (forall sid ss sid',
        (sid' <> sid ->
         sessions_get (fst (streamTurn env sid ss w)) sid' = sessions_get w sid')
        /\ (sessPath w sid' <> sessPath w sid ->
            loadSessionFile (fst (streamTurn env sid ss w)) sid'
            = loadSessionFile w sid')).
Proof.
  intros Hreg Hstore. split.
  - intros req sid'.
    destruct (acceptMessage_frame env req w) as (Hs & Hh & Hnone).
    split; [intros Hne; by apply (sessions_get_frame w _ (target req))|].
    by apply (acceptMessage_docs env req w sid' Hstore).
  - intros sid ss sid'.
    destruct (streamTurn_frame env sid ss w) as (Hs & Hh & Hnone & Hst & Hfo).
    split; [intros Hne; by apply (sessions_get_frame w _ sid)|].
    intros Hne. unfold loadSessionFile, sessPath in *. rewrite Hfo. by apply Hst.
Qed.

Lemma sessions_are_independent_witness :
  let a := lit "aaaaaaaaaa" in
  let b := lit "bbbbbbbbbb" in
  let env := example_env in
  let acts := [ACreate env a; APerform env 0; AResume env 0;
               ACreate env b; APerform env 1; AResume env 1] in
  let w := world (run_system acts) in
  let req := {| body_sessionId := Some a;
                body_text := Some (lit "hello"); files := [] |} in
  let reply := [Yields (Some [ {| p_inlineData := None; p_text := Some (lit "hi") |} ]);
                Completes] in
  let w1 := fst (acceptMessage example_env req w) in
  sessions_get w1 b = sessions_get w b
  /\ loadSessionFile w1 b = loadSessionFile w b
  /\ sessions_get (fst (streamTurn example_env a reply w1)) b = sessions_get w1 b
  /\ loadSessionFile (fst (streamTurn example_env a reply w1)) b
     = loadSessionFile w1 b.
Proof.
  intros a b env acts w req reply w1.
  destruct (consistent_run acts) as (_ & Hstore & Hreg & _).
  assert (H1 : consistent w1).
  { apply consistent_acceptMessage, (consistent_run acts). }
  destruct H1 as (_ & Hstore1 & Hreg1 & _).
  destruct (sessions_are_independent example_env w Hreg Hstore) as [Hmsg _].
  destruct (sessions_are_independent example_env w1 Hreg1 Hstore1) as [_ Hstr].
  destruct (Hmsg req b) as [Hm1 Hm2].
  destruct (Hstr a reply b) as [Hs1 Hs2].
  split; [apply Hm1; vm_compute; discriminate|].
  split; [apply Hm2; vm_compute; discriminate|].
  split; [apply Hs1; vm_compute; discriminate|].
  apply Hs2; vm_compute; discriminate.
Defined.

(** ** Deleting a session that is generating *)

(** X8: deleting a session does not stop its stream, and the stream
    brings the document back.  If a session is deleted while its stream
    is suspended, the handler goes on with the object it holds: when the
    chunk sequence ends it sends [done] and, if the document can be
    written, writes it anew, under the default title and with the
    present time as creation time, holding the whole history with the
    reply, although the registry no longer knows the session.  If the
    document cannot be written the session stays deleted. *)
Theorem delete_does_not_stop_the_stream env sid w w1 t pre rest :
  stream_start env sid w = (w1, Running t) ->
  Forall (fun x => terminal x = false) pre ->
  let w2 := fst (deleteSession sid w1) in
  exists w3 res l s,
    sessions_get w sid = Some (l, s)
    /\ loadSessionFile w2 sid = None
    /\ sessions_get w2 sid = None
    /\ stream_run env w2 t (pre ++ Completes :: rest) = (w3, Closed res false)
    /\ last (events res) = Some EvDone
    /\ sessions_get w3 sid = None
    /\ (session_write_ok env (sessPath w sid) = true ->
        loadSessionFile w3 sid
        = Some (ChatSessionFile.mk sid (session_label (now_locale env))
                  (now_iso env) (now_iso env)
                  (ChatSession.history s
                     ++ [ChatMessage.mk model (parts_of_events (events res))])))
    /\ (session_write_ok env (sessPath w sid) = false ->
        loadSessionFile w3 sid = None).
Proof.
  intros Hstart Hpre w2.
  destruct (stream_start_running_inv _ _ _ _ _ Hstart) as (l & s & Hget & Hgen & Hkey).
  rewrite (stream_start_started _ _ _ _ _ Hget Hgen Hkey) in Hstart.
  inversion Hstart; subst w1 t. clear Hstart.
  pose proof (deleteSession_world sid (mutate l (ChatSession.set_generating true) w))
    as Hw2. fold w2 in Hw2.
  assert (Hh2 : heap w2 = heap (mutate l (ChatSession.set_generating true) w))
    by (by rewrite Hw2).
  assert (Hs2 : sessions w2 = delete sid (sessions w)) by (by rewrite Hw2).
  assert (Hst2 : store w2 = delete (sessPath w sid) (store w)) by (by rewrite Hw2).
  assert (Hfo2 : file_of w2 = file_of w) by (by rewrite Hw2).
  destruct (stream_run_running env w2 (first_task env sid l s) pre Hpre)
    as (wa & ta & Hrun & (Hha & Hsa & Hsta & Hfoa) & (Hsid & Hl & _)).
  pose proof (stream_run_accumulator env _ _ _ _ _
                (first_task_accumulator env sid l s) Hrun) as Hacc.
  cbn [t_sessionId t_sess first_task] in Hsid, Hl.
  apply sessions_get_Some in Hget as Hget'. destruct Hget' as [Hreg Hobj].
  assert (Hobja : heap wa !! t_sess ta = Some (ChatSession.set_generating true s)).
  { rewrite Hl, Hha, Hh2. by apply mutate_lookup. }
  assert (Hparts : t_assistantParts ta
                   = parts_of_events (events (res_end (sseSend (t_res ta) EvDone)))).
  { rewrite events_res_end, events_sseSend, parts_of_events_app, Hacc. simpl.
    by rewrite app_nil_r. }
  assert (Hpa : sessPath wa sid = sessPath w sid).
  { unfold sessPath. by rewrite Hfoa, Hfo2. }
  eexists _, (res_end (sseSend (t_res ta) EvDone)), l, s.
  split; [done|].
  split; [unfold loadSessionFile, sessPath; rewrite Hst2, Hfo2; apply lookup_delete_eq|].
  split; [apply sessions_get_unregistered; rewrite Hs2; apply lookup_delete_eq|].
  split.
  { rewrite (stream_run_app _ _ _ _ _ _ _ Hrun). cbn [stream_run stream_step].
    by rewrite (stream_commit_full env wa ta _ Hobja). }
  split; [by rewrite events_res_end, events_sseSend, last_snoc|].
  split.
  { apply sessions_get_unregistered. cbn [sessions]. rewrite Hsa, Hs2.
    apply lookup_delete_eq. }
  unfold loadSessionFile. unfold sessPath at 2 4. cbn [store file_of].
  rewrite Hsid, Hpa, Hfoa, Hfo2. fold (sessPath w sid).
  split; intros ->.
  - rewrite lookup_insert_eq, Hsta, Hst2, lookup_delete_eq, <- Hparts. done.
  - rewrite Hsta, Hst2. apply lookup_delete_eq.
Qed.

Lemma delete_does_not_stop_the_stream_witness :
  let sid := lit "s1" in
  let s := ChatSession.mk sid [ChatMessage.mk user [Text (lit "hi")]] false 0 in
  let w := mkWorld [s] {[ sid := 0%nat ]}
             {[ lit "s1.json" :=
                  ChatSessionFile.mk sid (lit "my title") (lit "t0") (lit "t0") [] ]}
             ∅ (fun name => name) in
  let w1 := mutate 0 (ChatSession.set_generating true) w in
  let w2 := fst (deleteSession sid w1) in
  let chunk := Yields (Some [ {| p_inlineData := None; p_text := Some (lit "yo") |} ]) in
  exists w3 res,
    loadSessionFile w2 sid = None
    /\ stream_run example_env w2 (first_task example_env sid 0 s) [chunk; Completes]
       = (w3, Closed res false)
    /\ last (events res) = Some EvDone
    /\ sessions_get w3 sid = None
    /\ loadSessionFile w3 sid
       = Some (ChatSessionFile.mk sid (session_label (now_locale example_env))
                 (now_iso example_env) (now_iso example_env)
                 [ChatMessage.mk user [Text (lit "hi")];
                  ChatMessage.mk model [Text (lit "yo")]]).
Proof.
  intros sid s w w1 w2 chunk.
  destruct (delete_does_not_stop_the_stream example_env sid w w1
              (first_task example_env sid 0 s) [chunk] [])
    as (w3 & res & l & s0 & Hget & Hgone & _ & Hrun & Hdone & Hreg & Hok & _).
  - reflexivity.
  - repeat constructor.
  - exists w3, res. do 4 (split; [done|]).
    rewrite (Hok eq_refl). vm_compute in Hget. injection Hget as <- <-.
    vm_compute in Hrun. injection Hrun as <- <-. reflexivity.
Defined.

(** ** Artifact names and uploads *)

Lemma lit_inj s1 s2 : lit s1 = lit s2 -> s1 = s2.
Proof.
  unfold lit. intros H.
  rewrite <- (string_of_list_ascii_of_string s1), <- (string_of_list_ascii_of_string s2).
  f_equal. revert H. generalize (list_ascii_of_string s1) (list_ascii_of_string s2).
  induction l as [|a l IH]; intros [|b l']; simpl; try done.
  intros [= Hab Hl]. f_equal; [|by apply IH].
  by rewrite <- (ascii_N_embedding a), <- (ascii_N_embedding b), Hab.
Qed.

Lemma of_nat_inj i j : of_nat i = of_nat j -> i = j.
Proof.
  unfold of_nat. intros H. apply lit_inj in H.
  assert (Hdec : forall n,
            option_map Nat.of_uint
              (NilZero.uint_of_string (NilZero.string_of_uint (Nat.to_uint n)))
            = Some n).
  { intros n. destruct (Nat.to_uint n) eqn:E.
    - rewrite NilZero.usu_nil. simpl.
      rewrite <- (DecimalNat.Unsigned.of_to n), E. done.
    - rewrite NilZero.usu by done. simpl. by rewrite <- E, DecimalNat.Unsigned.of_to.
    - rewrite NilZero.usu by done. simpl. by rewrite <- E, DecimalNat.Unsigned.of_to.
    - rewrite NilZero.usu by done. simpl. by rewrite <- E, DecimalNat.Unsigned.of_to.
    - rewrite NilZero.usu by done. simpl. by rewrite <- E, DecimalNat.Unsigned.of_to.
    - rewrite NilZero.usu by done. simpl. by rewrite <- E, DecimalNat.Unsigned.of_to.
    - rewrite NilZero.usu by done. simpl. by rewrite <- E, DecimalNat.Unsigned.of_to.
    - rewrite NilZero.usu by done. simpl. by rewrite <- E, DecimalNat.Unsigned.of_to.
    - rewrite NilZero.usu by done. simpl. by rewrite <- E, DecimalNat.Unsigned.of_to.
    - rewrite NilZero.usu by done. simpl. by rewrite <- E, DecimalNat.Unsigned.of_to.
    - rewrite NilZero.usu by done. simpl. by rewrite <- E, DecimalNat.Unsigned.of_to. }
  pose proof (Hdec i) as Hi. rewrite H, Hdec in Hi. by inversion Hi.
Qed.

Lemma string_of_uint_digits d : Forall digit (lit (NilEmpty.string_of_uint d)).
Proof.
  induction d; [by constructor|..];
    (apply Forall_cons; split; [unfold digit; vm_compute; split; discriminate | exact IHd]).
Qed.

Lemma of_nat_digits n : Forall digit (of_nat n).
Proof.
  unfold of_nat, NilZero.string_of_uint.
  destruct (Nat.to_uint n); try apply string_of_uint_digits.
  apply Forall_cons; split; [unfold digit; vm_compute; split; discriminate | constructor].
Qed.

(** Two strings of digits, each followed by the same code unit that is
    no digit: the digits and what follows agree. *)
Lemma digits_then_stop (a b x y : jsstring) c :
  Forall digit a -> Forall digit b -> ~ digit c ->
  a ++ c :: x = b ++ c :: y -> a = b /\ x = y.
Proof.
  intros Ha. revert b. induction Ha as [|d a Hd Ha IH]; intros b Hb Hc E.
  - destruct Hb as [|d b Hd Hb]; simpl in E.
    + by inversion E.
    + inversion E; subst. done.
  - destruct Hb as [|d' b Hd' Hb]; simpl in E.
    + inversion E; subst. done.
    + inversion E; subst. destruct (IH b Hb Hc) as [-> ->]; done.
Qed.

Lemma artifact_name_inj sid who turn i j e1 e2 :
  artifact_name sid who turn i e1 = artifact_name sid who turn j e2 ->
  i = j /\ e1 = e2.
Proof.
  unfold artifact_name. intros H.
  do 7 apply app_inv_head in H.
  change (lit ".") with [46] in H. cbn [app] in H.
  apply digits_then_stop in H; try apply of_nat_digits.
  - destruct H as [H ->]. by apply of_nat_inj in H.
  - unfold digit. lia.
Qed.

Lemma save_uploads_stored env sid l idx fs parts w w' parts' :
  save_uploads env sid l idx fs parts w = (w', Some parts') ->
  parts' = parts ++ map upload_part fs
  /\ (forall i f, fs !! i = Some f ->
        artifacts w' !! upload_name env sid (ChatSession.turn (deref w l)) (idx + i) f
        = Some (Bytes (buffer f)))
  /\ (forall name,
        (forall i f, fs !! i = Some f ->
           name <> upload_name env sid (ChatSession.turn (deref w l)) (idx + i) f) ->
        artifacts w' !! name = artifacts w !! name).
Proof.
  revert idx parts w. induction fs as [|f fs IH]; intros idx parts w E.
  - simpl in E. inversion E; subst. rewrite app_nil_r. done.
  - cbn [save_uploads] in E.
    destruct saveBufferToArtifacts as [w1|] eqn:Es; [|done].
    pose proof (saveBufferToArtifacts_frame _ _ _ _ _ Es) as Hfr.
    pose proof (deref_only_artifacts _ _ l Hfr) as Hd.
    unfold saveBufferToArtifacts in Es.
    destruct artifact_write_ok; [|done]. injection Es as <-.
    destruct (IH _ _ _ E) as (Hp & Hin & Hout). rewrite Hd in Hin, Hout.
    split; [by rewrite Hp, <- app_assoc|]. split.
    + intros [|i] g Hg.
      * injection Hg as <-. rewrite Hout.
        -- rewrite Nat.add_0_r. apply lookup_insert_eq.
        -- intros j g Hj Hname. apply artifact_name_inj in Hname. lia.
      * rewrite <- Nat.add_succ_comm. by apply Hin.
    + intros name Hname. rewrite Hout.
      * cbn [artifacts with_artifacts]. apply lookup_insert_ne.
        intros Heq. apply (Hname 0%nat f eq_refl). rewrite Nat.add_0_r.
        by rewrite <- Heq.
      * intros j g Hj. rewrite Nat.add_succ_comm. by apply (Hname (S j)).
Qed.

(** What an accepted message leaves behind, in full. *)
Lemma acceptMessage_effect env req w w' r l s :
  acceptMessage env req w = (w', r) ->
  status r = 200%nat ->
  sessions_get w (target req) = Some (l, s) ->
  let m := ChatMessage.mk user
             (text_parts (body_text req) ++ map upload_part (files req)) in
  heap w' = alter (ChatSession.push m) l (heap w)
  /\ sessions w' = sessions w
  /\ (forall i f, files req !! i = Some f ->
        artifacts w' !! upload_name env (target req) (ChatSession.turn s) i f
        = Some (Bytes (buffer f)))
  /\ (forall name,
        (forall i f, files req !! i = Some f ->
           name <> upload_name env (target req) (ChatSession.turn s) i f) ->
        artifacts w' !! name = artifacts w !! name).
Proof.
  intros E Hst Hget m.
  destruct (acceptMessage_accepted _ _ _ _ _ E Hst)
    as (l' & s' & parts & Hget' & Hgen & Hne & Hheap & Hsess & _).
  rewrite Hget in Hget'. injection Hget' as <- <-.
  rewrite (acceptMessage_idle _ _ _ _ _ Hget Hgen) in E.
  destruct save_uploads as [w1 [parts1|]] eqn:Hup.
  2:{ inversion E; subst. done. }
  destruct (save_uploads_stored _ _ _ _ _ _ _ _ _ Hup) as (Hp & Hin & Hout).
  apply sessions_get_Some in Hget as [_ Hobj].
  rewrite (deref_lookup _ _ _ Hobj) in Hin, Hout.
  case_bool_decide as Hlen; [inversion E; subst; done|].
  assert (Hart : artifacts w' = artifacts w1).
  { cbn zeta in E. case_bool_decide.
    - destruct renameSessionFile as [[w3 f]|] eqn:Hren.
      + apply renameSessionFile_frame in Hren as (_&_&Ha).
        inversion E; subst. by rewrite Ha.
      + by inversion E; subst.
    - by inversion E; subst. }
  assert (Hparts : parts = parts1).
  { apply save_uploads_frame in Hup as (Hh1 & _).
    assert (Hl : heap w' !! l = Some (ChatSession.push (ChatMessage.mk user parts1) s)).
    { cbn zeta in E.
      assert (H2 : heap (mutate l (ChatSession.push (ChatMessage.mk user parts1)) w1) !! l
                   = Some (ChatSession.push (ChatMessage.mk user parts1) s)).
      { apply mutate_lookup. by rewrite Hh1. }
      case_bool_decide.
      - destruct renameSessionFile as [[w3 f]|] eqn:Hren.
        + apply renameSessionFile_frame in Hren as (Hh&_&_).
          inversion E; subst. by rewrite Hh.
        + by inversion E; subst.
      - by inversion E; subst. }
    rewrite Hheap, list_lookup_alter_eq, Hobj in Hl. simpl in Hl.
    injection Hl as Hl. apply app_inv_head in Hl. by injection Hl. }
  subst parts. rewrite Hart. split; [by rewrite Hheap, Hp|]. done.
Qed.

(** X9: every upload of an accepted message is kept.  When a message is
    accepted, its upload at index [i] is found in the artifact
    directory under [session-<id>-user-<turn+1>-<i>.<ext>] with the
    bytes that were sent, artifacts under other names are untouched,
    and the message pushed on the history holds the trimmed text, if
    any, followed by one inline part per upload, in order. *)
Theorem uploads_are_kept env req w w' r l s :
  acceptMessage env req w = (w', r) ->
  status r = 200%nat ->
  sessions_get w (target req) = Some (l, s) ->
  sessions_get w' (target req)
  = Some (l, ChatSession.push
               (ChatMessage.mk user
                  (text_parts (body_text req) ++ map upload_part (files req))) s)
  /\ (forall i f, files req !! i = Some f ->
        artifacts w' !! upload_name env (target req) (ChatSession.turn s) i f
        = Some (Bytes (buffer f)))
  /\ (forall name,
        (forall i f, files req !! i = Some f ->
           name <> upload_name env (target req) (ChatSession.turn s) i f) ->
        artifacts w' !! name = artifacts w !! name).
Proof.
  intros E Hst Hget.
  destruct (acceptMessage_effect _ _ _ _ _ _ _ E Hst Hget) as (Hh & Hs & Hin & Hout).
  split; [|done].
  apply sessions_get_Some in Hget as [Hreg Hobj].
  apply sessions_get_Some. rewrite Hs, Hh, list_lookup_alter_eq, Hobj. done.
Qed.

Lemma uploads_are_kept_witness :
  let sid := lit "Xk3_9aQz0B" in
  let w := fst (createSession example_env sid empty_world) in
  let cat := {| mimetype := lit "image/jpeg"; buffer := [255; 216; 255] |} in
  let dog := {| mimetype := []; buffer := [137; 80] |} in
  let req := {| body_sessionId := Some sid; body_text := Some (lit " mix them ");
                files := [cat; dog] |} in
  let w' := fst (acceptMessage example_env req w) in
  artifacts w' !! lit "session-Xk3_9aQz0B-user-1-0.jpeg" = Some (Bytes [255; 216; 255])
  /\ artifacts w' !! lit "session-Xk3_9aQz0B-user-1-1.png" = Some (Bytes [137; 80])
  /\ ChatSession.history <$> (snd <$> sessions_get w' sid)
     = Some [ChatMessage.mk user
               [Text (lit "mix them"); InlineData (lit "image/jpeg") (lit "/9j/");
                InlineData (lit "image/png") (lit "iVA=")]].
Proof.
  intros sid w cat dog req w'.
  destruct (uploads_are_kept example_env req w w' (snd (acceptMessage example_env req w))
              0%nat (ChatSession.mk sid [] false 0)) as (Hget & Hin & _).
  - by destruct (acceptMessage example_env req w).
  - by vm_compute.
  - by vm_compute.
  - split; [exact (Hin 0%nat cat eq_refl)|].
    split; [exact (Hin 1%nat dog eq_refl)|].
    change (target req) with sid in Hget. rewrite Hget. by vm_compute.
Defined.



(** ** The request sent to the remote model *)

Lemma base64_empty bs : truthy (base64 bs) = bool_decide (bs <> []).
Proof. by destruct bs as [|a [|b [|c rest]]]. Qed.

Lemma existsb_text_parts text : existsb part_has_image (text_parts text) = false.
Proof.
  unfold text_parts. destruct (trim <$> text) as [t|]; [|done]. by destruct (truthy t).
Qed.

Lemma hasImages_last_user h parts :
  hasImages (h ++ [ChatMessage.mk user parts]) = existsb part_has_image parts.
Proof. unfold hasImages, lastUser. by rewrite rev_app_distr. Qed.

(** X11: what the remote model is asked.  The stream that is started
    after an accepted message hands the remote model the whole history
    of the session, ending with that message, and asks for images
    besides text exactly when the message carries an upload that is not
    empty; a message of text alone gets a text-only generation, whatever
    images earlier turns held. *)
Theorem request_follows_the_message env env' req w w' r l s :
  acceptMessage env req w = (w', r) ->
  status r = 200%nat ->
  sessions_get w (target req) = Some (l, s) ->
  truthy (opt_or (GEMINI_API_KEY env') []) = true ->
  exists w'' t,
    stream_start env' (target req) w' = (w'', Running t)
    /\ gr_contents (t_request t)
       = ChatSession.history s
         ++ [ChatMessage.mk user
               (text_parts (body_text req) ++ map upload_part (files req))]
    /\ gr_image_modality (t_request t)
       = existsb (fun f => bool_decide (buffer f <> [])) (files req).
Proof.
  intros E Hst Hget Hkey.
  destruct (acceptMessage_accepted _ _ _ _ _ E Hst)
    as (l' & s' & parts & Hget' & Hgen & _).
  rewrite Hget in Hget'. injection Hget' as <- <-.
  destruct (acceptMessage_effect _ _ _ _ _ _ _ E Hst Hget) as (Hh & Hs & _).
  apply sessions_get_Some in Hget as [Hreg Hobj].
  set (m := ChatMessage.mk user
              (text_parts (body_text req) ++ map upload_part (files req))) in *.
  assert (Hget1 : sessions_get w' (target req) = Some (l, ChatSession.push m s)).
  { apply sessions_get_Some. by rewrite Hs, Hh, list_lookup_alter_eq, Hobj. }
  eexists _, _. split.
  { by apply (stream_start_started env' _ _ _ _ Hget1). }
  split; [done|]. subst m.
  cbn [t_request first_task gr_image_modality ChatSession.history ChatSession.push].
  rewrite hasImages_last_user.
  rewrite existsb_app, existsb_text_parts. cbn [orb].
  clear. induction (files req) as [|f fs IH]; [done|].
  cbn [map existsb]. rewrite IH. f_equal. apply base64_empty.
Qed.

Lemma request_follows_the_message_witness :
  let sid := lit "Xk3_9aQz0B" in
  let w0 := fst (createSession example_env sid empty_world) in
  let cat := {| mimetype := lit "image/png"; buffer := [1; 2; 3] |} in
  let req1 := {| body_sessionId := Some sid; body_text := Some (lit "hi"); files := [cat] |} in
  let w1 := fst (acceptMessage example_env req1 w0) in
  let w := fst (streamTurn example_env sid [Completes] w1) in
  let req := {| body_sessionId := Some sid; body_text := Some (lit "more"); files := [] |} in
  exists w'' t,
    stream_start example_env sid (fst (acceptMessage example_env req w)) = (w'', Running t)
    /\ length (gr_contents (t_request t)) = 3%nat
    /\ gr_image_modality (t_request t) = false.
Proof.
  intros sid w0 cat req1 w1 w req.
  destruct (request_follows_the_message example_env example_env req w
              (fst (acceptMessage example_env req w))
              (snd (acceptMessage example_env req w)) 0%nat
              (ChatSession.mk sid
                 [ChatMessage.mk user [Text (lit "hi"); InlineData (lit "image/png") (lit "AQID")];
                  ChatMessage.mk model []] false 1))
    as (w'' & t & Hs & Hc & Hm).
  - by destruct (acceptMessage example_env req w).
  - by vm_compute.
  - by vm_compute.
  - reflexivity.
  - exists w'', t. split; [exact Hs|]. split; [by rewrite Hc | exact Hm].
Defined.

(** ** The shape of a title taken from the text *)

Lemma trimStart_nil s : trimStart s = [] <-> Forall (fun c => is_space c = true) s.
Proof.
  induction s as [|c s IH]; simpl; [by split|].
  destruct (is_space c) eqn:Hc.
  - rewrite IH. split; [by constructor | by inversion 1].
  - split; [done|]. inversion 1; congruence.
Qed.

Lemma trimEnd_nil s : trimEnd s = [] <-> Forall (fun c => is_space c = true) s.
Proof.
  induction s as [|c s IH]; simpl; [by split|].
  destruct (trimEnd s) as [|d r] eqn:Er.
  - destruct (is_space c) eqn:Hc.
    + split; [|done]. intros _. constructor; [done|]. by apply IH.
    + split; [done|]. inversion 1; congruence.
  - split; [done|]. inversion 1 as [|? ? _ Hs]. by apply IH in Hs.
Qed.

Lemma trimStart_Forall (P : N -> Prop) s : Forall P s -> Forall P (trimStart s).
Proof.
  induction 1 as [|c s Hc Hs IH]; simpl; [done|].
  destruct (is_space c); [done | by constructor].
Qed.

Lemma trimEnd_Forall (P : N -> Prop) s : Forall P s -> Forall P (trimEnd s).
Proof.
  induction 1 as [|c s Hc Hs IH]; simpl; [done|].
  destruct (trimEnd s); [destruct (is_space c)|]; [done| |]; by constructor.
Qed.

Lemma trimStart_spaces s :
  Forall (fun c => is_space c = true) (trimStart s)
  -> Forall (fun c => is_space c = true) s.
Proof.
  induction s as [|c s IH]; simpl; [done|].
  destruct (is_space c) eqn:Hc; [|done]. intros H. constructor; [done | by apply IH].
Qed.

Lemma trim_nil s : trim s = [] <-> Forall (fun c => is_space c = true) s.
Proof.
  unfold trim. rewrite trimEnd_nil. split; [apply trimStart_spaces|].
  apply trimStart_Forall.
Qed.

Lemma replace_ws_from_spaces b s :
  Forall (fun c => is_space c = true) (replace_ws_from b s)
  -> Forall (fun c => is_space c = true) s.
Proof.
  revert b. induction s as [|c s IH]; intros b; simpl; [done|].
  destruct (is_space c) eqn:Hc.
  - destruct b; [|inversion 1; subst]; constructor; eauto.
  - inversion 1; congruence.
Qed.

Lemma replace_ws_from_only_blanks b s :
  Forall (fun c => is_space c = true -> c = 32) (replace_ws_from b s).
Proof.
  revert b. induction s as [|c s IH]; intros b; simpl; [done|].
  destruct (is_space c) eqn:Hc.
  - destruct b; [done|]. by constructor.
  - constructor; [congruence | done].
Qed.

Lemma trimStart_head s :
  match trimStart s with c :: _ => is_space c = false | [] => True end.
Proof.
  induction s as [|c s IH]; simpl; [done|]. by destruct (is_space c) eqn:Hc.
Qed.

Lemma trimEnd_head s : trimEnd s <> [] -> head (trimEnd s) = head s.
Proof.
  destruct s as [|c s]; simpl; [done|].
  destruct (trimEnd s); [by destruct (is_space c)|done].
Qed.

(** X12: a title taken from the text is one short line.  When the text
    is not blank, the derived title is not empty, has at most 31 code
    units, starts with a code unit that is no white space, and holds no
    line break, tab or other white space than U+0020. *)
Theorem title_is_one_short_line now t n :
  ~ blank (Some t) ->
  let title := deriveTitle now (Some t) n in
  (0 < length title <= 31)%nat
  /\ (exists c, head title = Some c /\ is_space c = false)
  /\ Forall (fun c => is_space c = true -> c = 32) title.
Proof.
  intros Hp title. simpl in Hp.
  assert (Hne : collapsed t <> []).
  { rewrite <- oneLine_collapsed. intros H. apply Hp.
    apply trim_nil. apply trim_nil in H. by apply replace_ws_from_spaces in H. }
  assert (Hhead : exists c, head (collapsed t) = Some c /\ is_space c = false).
  { revert Hne. rewrite <- oneLine_collapsed. unfold trim. intros Hne.
    rewrite trimEnd_head by done.
    pose proof (trimStart_head (replace_ws t)) as Hs.
    destruct (trimStart (replace_ws t)) as [|c r]; [done|]. by exists c. }
  assert (Hall : Forall (fun c => is_space c = true -> c = 32) (collapsed t)).
  { rewrite <- oneLine_collapsed. apply trimEnd_Forall, trimStart_Forall.
    apply replace_ws_from_only_blanks. }
  subst title. rewrite deriveTitle_present by done. unfold maxLen.
  destruct (30 <? length (collapsed t))%nat eqn:Hlen.
  - apply Nat.ltb_lt in Hlen. split; [|split].
    + rewrite length_app, length_take. cbn [length ellipsis]. lia.
    + destruct Hhead as (c & Hc & Hsp). exists c. split; [|done].
      destruct (collapsed t); [done|]. simpl in *. done.
    + apply Forall_app. split; [by apply Forall_take|].
      repeat constructor. by vm_compute.
  - apply Nat.ltb_ge in Hlen. split; [|done].
    destruct (collapsed t); [done|]. cbn [length] in *. lia.
Qed.

Lemma title_is_one_short_line_witness :
  let t := [32; 72; 105; 10; 9; 116; 104; 101; 114; 101; 13; 10] in
  let title := deriveTitle [] (Some t) 0 in
  title = lit "Hi there"
  /\ (0 < length title <= 31)%nat
  /\ (exists c, head title = Some c /\ is_space c = false)
  /\ Forall (fun c => is_space c = true -> c = 32) title.
Proof.
  intros t title. split; [by vm_compute|].
  apply (title_is_one_short_line [] t 0). by vm_compute.
Defined.

(** ** The legacy one-shot endpoints *)

Lemma legacy_relay_open ps r :
  ended r = false -> ended (foldl legacy_relay_part r ps) = false.
Proof.
  revert r. induction ps as [|p ps IH]; intros r Hr; [done|].
  cbn [foldl]. apply IH. unfold legacy_relay_part.
  destruct (inline_image p) as [[mt data]|]; [done|].
  destruct (p_text p) as [s|]; [|done]. by destruct (truthy s).
Qed.

Lemma legacy_step_inv st t s :
  match legacy_step st t s with
  | (st', LRunning t') =>
      st' = st /\ lt_id t' = lt_id t
      /\ (ended (lt_res t) = false -> ended (lt_res t') = false)
  | (st', LClosed res ping) =>
      l_world st' = l_world st /\ ended res = true /\ ping = false
      /\ uploads st' = delete (lt_id t) (uploads st)
  end.
Proof.
  destruct s; cbn [legacy_step legacy_finally]; try done.
  - split; [done|]. split; [done|]. apply legacy_relay_open.
  - split; [done|]. by destruct (lt_ping t).
Qed.

Lemma legacy_run_inv st t ss st' out :
  legacy_run st t ss = (st', out) ->
  l_world st' = l_world st
  /\ match out with
     | LRunning t' =>
         st' = st /\ lt_id t' = lt_id t
         /\ (ended (lt_res t) = false -> ended (lt_res t') = false)
     | LClosed res ping =>
         ended res = true /\ ping = false
         /\ uploads st' = delete (lt_id t) (uploads st)
     end.
Proof.
  revert st t. induction ss as [|s ss IH]; intros st t E.
  - simpl in E. by inversion E; subst.
  - cbn [legacy_run] in E. pose proof (legacy_step_inv st t s) as Hstep.
    destruct (legacy_step st t s) as [st1 [t1|res ping]].
    + destruct Hstep as (-> & Hid & Hend).
      apply IH in E as [Hw Hout]. split; [done|].
      destruct out as [t'|res ping].
      * destruct Hout as (-> & Hid' & Hend'). split; [done|].
        split; [congruence | auto].
      * by rewrite <- Hid.
    + inversion E; subst. by destruct Hstep as (? & ? & ? & ?).
Qed.

Lemma legacy_start_unknown env id st :
  uploads st !! id = None ->
  legacy_start env id st
  = (st, LClosed (res_end (sseSend (sseInit new_res)
                             (EvError (lit "Invalid or expired id")))) false).
Proof. unfold legacy_start. by intros ->. Qed.

(** X13: a legacy upload is good for one stream.  The legacy stream
    never touches the sessions, the stored documents, the artifacts or
    the uploads of other ids.  Once it has ended, in whatever way (an
    unknown id, a missing API key, an error, the end of the chunks), its
    id is no longer known, and any later stream for it is answered with
    the single error [Invalid or expired id].  Until then the upload
    stays in the map. *)
Theorem legacy_stream_is_one_shot env id ss st :
  let st' := fst (legacyStream env id ss st) in
  l_world st' = l_world st
  /\ (forall id', id' <> id -> uploads st' !! id' = uploads st !! id')
  /\ match snd (legacyStream env id ss st) with
     | LClosed res ping =>
         ended res = true /\ ping = false
         /\ uploads st' !! id = None
         /\ forall env' ss',
              exists res',
                legacyStream env' id ss' st' = (st', LClosed res' false)
                /\ events res' = [EvError (lit "Invalid or expired id")]
     | LRunning t =>
         uploads st' = uploads st /\ ended (lt_res t) = false
     end.
Proof.
  assert (Hagain : forall st1, uploads st1 !! id = None ->
            forall env' ss', exists res',
              legacyStream env' id ss' st1 = (st1, LClosed res' false)
              /\ events res' = [EvError (lit "Invalid or expired id")]).
  { intros st1 H env' ss'. unfold legacyStream.
    rewrite (legacy_start_unknown _ _ _ H). by eexists. }
  intros st'. subst st'.
  destruct (legacyStream env id ss st) as [st1 out] eqn:E. cbn [fst snd].
  unfold legacyStream, legacy_start in E.
  destruct (uploads st !! id) as [item|] eqn:Hitem.
  2:{ injection E as <- <-. split; [done|]. split; [done|].
      split; [done|]. split; [done|]. split; [done|]. by apply Hagain. }
  destruct (truthy (opt_or (GEMINI_API_KEY env) [])).
  2:{ unfold legacy_finally in E. injection E as <- <-. cbn [l_world uploads].
      split; [done|]. split; [intros id' Hne; by apply lookup_delete_ne|].
      split; [done|]. split; [done|].
      split; [apply lookup_delete_eq|]. apply Hagain. apply lookup_delete_eq. }
  apply legacy_run_inv in E as [Hw Hout]. cbn [lt_id lt_res] in Hout.
  split; [done|].
  destruct out as [t'|res ping].
  - destruct Hout as (-> & _ & Hend). split; [done|]. split; [done|]. by apply Hend.
  - destruct Hout as (Hend & -> & Hup). rewrite Hup.
    split; [intros id' Hne; by apply lookup_delete_ne|].
    split; [done|]. split; [done|]. split; [apply lookup_delete_eq|].
    apply Hagain. rewrite Hup. apply lookup_delete_eq.
Qed.

Lemma legacy_stream_is_one_shot_witness :
  let a := lit "V1StGXR8_Z5j" in
  let b := lit "b7Qq2mNw0LpX" in
  let item := mkUpload (lit "AQID") (lit "image/png") None (lit "input.png") in
  let st := mkLegacy empty_world (<[a := item]> (<[b := item]> ∅)) in
  let st' := fst (legacyStream example_env a [Completes] st) in
  uploads st' !! b = Some item /\ uploads st' !! a = None.
Proof.
  intros a b item st st'.
  destruct (legacy_stream_is_one_shot example_env a [Completes] st) as (_ & Hother & Hout).
  split.
  - subst st'. rewrite (Hother b); by vm_compute.
  - by vm_compute.
Defined.

(** X14: what a legacy upload leaves and what its stream asks.  An
    accepted upload stores the image under [input-<id>.<ext>] and
    changes nothing else of the chat state.  A stream then started
    for its id, with the API key set, sends the remote model one user
    message: the trimmed prompt, unless it is blank, followed by the
    image; and it always asks for images besides text. *)
Theorem legacy_upload_then_stream env env' newId req st st' id :
  legacyUpload env newId req st = (st', UpId id) ->
  truthy (opt_or (GEMINI_API_KEY env') []) = true ->
  exists f t,
    req_file req = Some f /\ id = newId
    /\ only_artifacts (l_world st) (l_world st')
    /\ artifacts (l_world st')
       = <[input_name newId (extFromMime env (upload_mime f)) := Bytes (buffer f)]>
           (artifacts (l_world st))
    /\ legacy_start env' newId st' = (st', LRunning t)
    /\ gr_contents (lt_request t)
       = [ChatMessage.mk user (text_parts (req_prompt req) ++ [upload_part f])]
    /\ gr_image_modality (lt_request t) = true.
Proof.
  unfold legacyUpload. intros E Hkey.
  destruct (req_file req) as [f|]; [|done].
  destruct saveBufferToArtifacts as [w'|] eqn:Es; [|done].
  pose proof (saveBufferToArtifacts_frame _ _ _ _ _ Es) as Hfr.
  unfold saveBufferToArtifacts in Es. destruct artifact_write_ok; [|done].
  injection Es as <-. injection E as <- <-.
  eexists f, _. split; [done|]. split; [done|]. split; [done|]. split; [done|].
  unfold legacy_start. cbn [uploads]. rewrite lookup_insert_eq, Hkey.
  split; [done|]. split; [|done].
  cbn [lt_request gr_contents]. do 2 f_equal.
  unfold legacy_parts, text_parts, upload_part, upload_mime. cbn [up_prompt up_mimeType up_base64].
  f_equal. destruct (req_prompt req) as [p|]; [|done]. simpl.
  destruct p as [|c p]; [done|]. done.
Qed.

Lemma legacy_upload_then_stream_witness :
  let st := mkLegacy empty_world ∅ in
  let cat := {| mimetype := lit "image/jpeg"; buffer := [255; 216; 255] |} in
  let req := {| req_file := Some cat; req_prompt := Some (lit "  make it blue ") |} in
  let st' := fst (legacyUpload example_env (lit "V1StGXR8_Z5j") req st) in
  artifacts (l_world st') !! lit "input-V1StGXR8_Z5j.jpeg" = Some (Bytes [255; 216; 255])
  /\ exists t, legacy_start example_env (lit "V1StGXR8_Z5j") st' = (st', LRunning t)
       /\ gr_contents (lt_request t)
          = [ChatMessage.mk user [Text (lit "make it blue");
                                  InlineData (lit "image/jpeg") (lit "/9j/")]].
Proof.
  intros st cat req st'.
  destruct (legacy_upload_then_stream example_env example_env (lit "V1StGXR8_Z5j")
              req st st' (lit "V1StGXR8_Z5j"))
    as (f & t & Hf & _ & _ & Ha & Hs & Hc & _).
  - reflexivity.
  - reflexivity.
  - injection Hf as <-. split.
    + rewrite Ha. by vm_compute.
    + exists t. split; [exact Hs|]. rewrite Hc. by vm_compute.
Defined.

(** ** Renaming a stored session *)



(** ** Generated images in the artifact directory *)

Section Generated.
Variable env : Env.








End Generated.



(** ** One generation per session object *)

Section Flags.

Implicit Types (w : World) (l : nat).

Lemma flag_deref w l : flag w l = ChatSession.generating (deref w l).
Proof.
unfold flag, flags, deref. rewrite list_lookup_fmap.
by destruct (heap w !! l).
Qed.

Lemma flag_heap w w' l : heap w' = heap w -> flag w' l = flag w l.
Proof. unfold flag, flags. by intros ->. Qed.

(** A mutation that keeps the flag of the object. *)
Lemma flag_mutate_keep w l l' f :
(forall s, ChatSession.generating (f s) = ChatSession.generating s) ->
flag (mutate l f w) l' = flag w l'.
Proof.
intros Hf. rewrite !flag_deref. unfold deref. simpl.
destruct (decide (l = l')) as [->|Hne].
- rewrite list_lookup_alter_eq. destruct (heap w !! l'); simpl; [apply Hf | done].
- by rewrite list_lookup_alter_ne.
Qed.

(** Taking the lock of an existing object. *)
Lemma flag_mutate_set w l l' s :
heap w !! l = Some s ->
flag (mutate l (ChatSession.set_generating true) w) l'
= if decide (l' = l) then true else flag w l'.
Proof.
intros Hobj. rewrite !flag_deref. unfold deref. simpl.
case_decide as Hl.
- subst. by rewrite list_lookup_alter_eq, Hobj.
- by rewrite list_lookup_alter_ne.
Qed.

(** Releasing a lock. *)
Lemma flag_mutate_unset w l l' :
flag (mutate l (ChatSession.set_generating false) w) l'
= if decide (l' = l) then false else flag w l'.
Proof.
rewrite !flag_deref. unfold deref. simpl.
case_decide as Hl.
- subst. rewrite list_lookup_alter_eq. by destruct (heap w !! l).
- by rewrite list_lookup_alter_ne.
Qed.

(** A newly allocated object comes with the flag unset and leaves the
  other flags alone. *)
Lemma flag_sessions_set w sid s l :
ChatSession.generating s = false ->
flag (sessions_set sid s w) l = flag w l.
Proof.
intros Hs. rewrite !flag_deref. unfold deref. simpl.
destruct (decide (l < length (heap w))%nat) as [Hlt|Hge].
- by rewrite lookup_app_l.
- rewrite lookup_app_r by lia. rewrite (lookup_ge_None_2 (heap w)) by lia.
  destruct (l - length (heap w))%nat; simpl; by rewrite ?Hs.
Qed.

End Flags.

Section Counting.

Context {A : Type} (P : A -> Prop) `{!forall x, Decision (P x)}.

Lemma count_snoc (xs : list A) y :
length (filter P (xs ++ [y]))
= (length (filter P xs) + if decide (P y) then 1 else 0)%nat.
Proof.
rewrite filter_app, length_app. f_equal.
rewrite filter_cons, filter_nil. by destruct (decide (P y)).
Qed.

Lemma count_insert (xs : list A) i x y :
xs !! i = Some x ->
(length (filter P (<[i := y]> xs)) + (if decide (P x) then 1 else 0)
 = length (filter P xs) + (if decide (P y) then 1 else 0))%nat.
Proof.
revert i. induction xs as [|z xs IH]; intros i Hi; [done|].
destruct i as [|i]; simpl in *.
- injection Hi as ->. rewrite !filter_cons.
  destruct (decide (P x)), (decide (P y)); simpl; lia.
- specialize (IH i Hi). rewrite !filter_cons.
  destruct (decide (P z)); simpl; lia.
Qed.

Lemma count_none_holds (xs : list A) i x :
length (filter P xs) = 0%nat -> xs !! i = Some x -> ~ P x.
Proof.
intros Hlen Hi Hx. apply nil_length_inv in Hlen.
assert (Hin : x ∈ filter P xs).
{ apply list_elem_of_filter. split; [done|]. by eapply list_elem_of_lookup_2. }
rewrite Hlen in Hin. by apply not_elem_of_nil in Hin.
Qed.

Lemma count_one_unique (xs : list A) i j x y :
(length (filter P xs) <= 1)%nat ->
xs !! i = Some x -> xs !! j = Some y -> P x -> P y -> i = j.
Proof.
revert i j. induction xs as [|z xs IH]; intros i j Hlen Hi Hj Hx Hy; [done|].
rewrite filter_cons in Hlen.
destruct i as [|i], j as [|j]; simpl in *; [done| | |].
- injection Hi as ->. rewrite decide_True in Hlen by done. simpl in Hlen.
  exfalso. apply (count_none_holds xs j y); [lia|done|done].
- injection Hj as ->. rewrite decide_True in Hlen by done. simpl in Hlen.
  exfalso. apply (count_none_holds xs i x); [lia|done|done].
- f_equal. apply (IH i j); try done.
  destruct (decide (P z)); simpl in Hlen; lia.
Qed.

End Counting.

Section Holders.

Variable env : Env.

Implicit Types (w : World) (l : nat) (t : StreamTask).

Lemma perform_heap op w : heap (fst (perform env op w)) = heap w.
Proof.
destruct op as [name buf|sid|file|sid]; cbn [perform].
- destruct saveBufferToArtifacts as [w'|] eqn:E; [|done].
  apply saveBufferToArtifacts_frame in E as (Hh & _). cbn [fst]. congruence.
- by destruct (loadSessionFile w sid).
- destruct writeFile as [w'|] eqn:E; [|done].
  by apply writeFile_frame in E as ->.
- unfold unlink. by destruct (store w !! sessPath w sid).
Qed.

Lemma message_after_uploads_holder sid l text n parts w :
holder (snd (message_after_uploads env sid l text n parts w)) = None
/\ forall l', flag (fst (message_after_uploads env sid l text n parts w)) l'
              = flag w l'.
Proof.
unfold message_after_uploads. case_bool_decide; [done|].
case_bool_decide; (split; [done|]); intros l'; cbn [fst];
  by apply flag_mutate_keep.
Qed.

Lemma message_uploads_holder sid l text n idx fs parts w :
holder (snd (message_uploads env sid l text n idx fs parts w)) = None
/\ forall l', flag (fst (message_uploads env sid l text n idx fs parts w)) l'
              = flag w l'.
Proof.
destruct fs as [|f rest]; cbn [message_uploads]; [|done].
apply message_after_uploads_holder.
Qed.

Lemma message_start_holder req w :
holder (snd (message_start env req w)) = None
/\ forall l', flag (fst (message_start env req w)) l' = flag w l'.
Proof.
unfold message_start.
destruct (sessions_get w _) as [[l s]|]; [|done].
destruct (ChatSession.generating s); [done|].
apply message_uploads_holder.
Qed.

(** The relay loop keeps the lock it holds. *)
Lemma relay_parts_holder t ps w :
holder (snd (relay_parts env t ps w)) = Some (t_sess t).
Proof.
revert t. induction ps as [|p ps IH]; intros t; cbn [relay_parts]; [done|].
destruct (inline_image p) as [[mt data]|]; [done|].
destruct (p_text p) as [x|]; [destruct (truthy x)|]; by rewrite IH.
Qed.

Lemma touch_sess s t : t_sess (touch s t) = t_sess t.
Proof. destruct s; try done. simpl. by destruct (t_ping t). Qed.

Lemma touch_kont_stream s k :
t_sess <$> kont_stream (touch_kont s k) = t_sess <$> kont_stream k.
Proof.
unfold touch_kont. destruct k; try done; simpl; by rewrite touch_sess.
Qed.

End Holders.

Lemma start_lock_move a w w' task :
  start a w = Some (w', task) -> lock_move w w' None (holder task).
Proof.
  destruct a as [env newId|sid|sid|env req|env sid|env i|env i|env i s];
    cbn [start]; try done.
  - intros [= <- <-]. apply lock_kept; [done|].
    intros l. by apply flag_sessions_set.
  - intros [= <- <-]. by apply lock_kept.
  - intros [= <- <-]. by apply lock_kept.
  - intros E. injection E as E.
    destruct (message_start_holder env req w) as [Hh Hf].
    rewrite E in Hh, Hf. by apply lock_kept.
  - destruct (sessions_get w sid) as [[l0 s]|] eqn:Hget.
    2:{ rewrite stream_start_unregistered by done. intros [= <- <-].
        by apply lock_kept. }
    destruct (ChatSession.generating s) eqn:Hgen.
    { rewrite (stream_start_generating _ _ _ _ _ Hget Hgen). intros [= <- <-].
      by apply lock_kept. }
    destruct (truthy (opt_or (GEMINI_API_KEY env) [])) eqn:Hkey.
    + rewrite (stream_start_started _ _ _ _ _ Hget Hgen Hkey). intros [= <- <-].
      apply sessions_get_Some in Hget as [_ Hobj].
      apply (lock_taken _ _ _ _ l0); [done|done| |].
      * by rewrite flag_deref, (deref_lookup _ _ _ Hobj).
      * intros l. by apply flag_mutate_set with (s := s).
    + rewrite (stream_start_no_key _ _ _ _ _ Hget Hgen Hkey). intros [= <- <-].
      by apply lock_kept.
Qed.

Lemma resume_lock_move env k r w :
  lock_move w (fst (resume env k r w))
    (t_sess <$> kont_stream k) (holder (snd (resume env k r w))).
Proof.
  destruct k; cbn [resume kont_stream fmap option_fmap option_map].
  - apply lock_kept; by destruct r.
  - destruct r; try by apply lock_kept.
    apply lock_kept; [done|]. intros l. by apply flag_sessions_set.
  - by apply lock_kept.
  - destruct r; try by apply lock_kept.
    all: by apply lock_kept; apply message_uploads_holder.
  - by destruct r; apply lock_kept.
  - by apply lock_kept.
  - apply lock_kept; [by rewrite relay_parts_holder|].
    intros l. by rewrite relay_parts_world.
  - by apply lock_kept.
  - apply (lock_released _ _ _ _ (t_sess t)); [done|done|].
    intros l. apply flag_mutate_unset.
Qed.

Lemma deliver_lock_move env t s w :
  lock_move w (fst (deliver env t s w))
    (Some (t_sess t)) (holder (snd (deliver env t s w))).
Proof.
  destruct s as [c|e| |now|]; cbn [deliver].
  - apply lock_kept; [by rewrite relay_parts_holder|].
    intros l. by rewrite relay_parts_world.
  - rewrite stream_catch_effect. cbn [fst snd task_of].
    apply (lock_released _ _ _ _ (t_sess t)); [done|done|].
    intros l. apply flag_mutate_unset.
  - apply lock_kept; [done|]. intros l. cbn [fst].
    by rewrite !flag_mutate_keep.
  - apply lock_kept; [|done]. cbn [snd]. unfold holder. simpl.
    by destruct (t_ping t).
  - by apply lock_kept.
Qed.

Lemma advance_lock_move a task w :
  lock_move w (fst (advance a task w)) (holder task)
    (holder (snd (advance a task w))).
Proof.
  destruct a as [env newId|sid|sid|env req|env sid|env i|env i|env i s];
    cbn [advance]; try by apply lock_kept.
  - destruct task as [k op|k r|t|r]; try by apply lock_kept.
    pose proof (perform_heap env op w) as Hh.
    destruct (perform env op w) as [w' r]. apply lock_kept; [done|].
    intros l. by apply flag_heap.
  - destruct task as [k op|k r|t|r]; try by apply lock_kept.
    apply resume_lock_move.
  - destruct task as [k op|k r|t|r]; try by apply lock_kept.
    + apply lock_kept; [|done]. apply touch_kont_stream.
    + apply lock_kept; [|done]. apply touch_kont_stream.
    + apply deliver_lock_move.
Qed.

Lemma lock_agrees_initial : lock_agrees initial.
Proof. intros l. unfold streams_on, flag, flags. simpl. by destruct l. Qed.

Lemma lock_agrees_step sys a : lock_agrees sys -> lock_agrees (sys_step sys a).
Proof.
  intros Hinv. destruct sys as [w ts]. unfold lock_agrees, streams_on in *.
  cbn [world tasks] in Hinv. unfold sys_step. cbn [world tasks].
  destruct (start a w) as [[w' task]|] eqn:E.
  - cbn [world tasks]. intros l. rewrite count_snoc.
    specialize (Hinv l).
    destruct (start_lock_move _ _ _ _ E) as [Ha Hf|l0 _ Ha Hfree Hf|l0 Hb _ _];
      [| |done]; rewrite Ha, Hf.
    + rewrite decide_False by done. lia.
    + destruct (decide (l = l0)) as [->|Hne].
      * rewrite decide_True by done. rewrite Hfree in Hinv. lia.
      * rewrite decide_False by congruence. lia.
  - destruct (ts !! target_task a) as [task|] eqn:Hi; [|done].
    pose proof (advance_lock_move a task w) as Hmove.
    destruct (advance a task w) as [w' task']. cbn [fst snd world tasks] in *.
    intros l. specialize (Hinv l).
    pose proof (count_insert (fun task => holder task = Some l) ts _ task task' Hi)
      as Hcount.
    cbv beta in Hcount.
    destruct Hmove as [Ha Hf|l0 Hb Ha Hfree Hf|l0 Hb Ha Hf]; rewrite Hf.
    + rewrite Ha in Hcount. lia.
    + rewrite Hb, Ha in Hcount. rewrite (decide_False (P := None = Some l)) in Hcount by done.
      destruct (decide (l = l0)) as [->|Hne].
      * rewrite decide_True in Hcount by done. rewrite Hfree in Hinv. lia.
      * rewrite decide_False in Hcount by congruence. lia.
    + rewrite Hb, Ha in Hcount. rewrite (decide_False (P := None = Some l)) in Hcount by done.
      destruct (decide (l = l0)) as [->|Hne].
      * rewrite decide_True in Hcount by done. destruct (flag w l0); lia.
      * rewrite decide_False in Hcount by congruence. lia.
Qed.

Lemma lock_agrees_run acts : lock_agrees (run_system acts).
Proof.
  unfold run_system. induction acts as [|a acts IH] using rev_ind.
  - apply lock_agrees_initial.
  - rewrite foldl_app. simpl. by apply lock_agrees_step.
Qed.

(** X18: one generation per session object.  In every state the chat
    endpoints can reach, whatever the interleaving of the handlers at
    their awaits, the [generating] flag of a session object is set
    exactly when one stream handler is between taking the lock and
    its [finally] block on that object, and never more than one is:
    two such handlers never share an object, each of them has an
    object whose flag is set, and a registered session whose flag is
    unset has none. *)
Theorem one_generation_per_object acts :
  let sys := run_system acts in
  (forall l,
     streams_on l sys
     = if ChatSession.generating (deref (world sys) l) then 1%nat else 0%nat)
  /\ (forall i j ti tj l,
        tasks sys !! i = Some ti -> tasks sys !! j = Some tj ->
        holder ti = Some l -> holder tj = Some l -> i = j)
  /\ (forall i task l,
        tasks sys !! i = Some task -> holder task = Some l ->
        exists s, heap (world sys) !! l = Some s
                  /\ ChatSession.generating s = true)
  /\ (forall sid l s,
        sessions_get (world sys) sid = Some (l, s) ->
        streams_on l sys = if ChatSession.generating s then 1%nat else 0%nat).
Proof.
  cbv zeta. pose proof (lock_agrees_run acts) as Hinv.
  split; [|split; [|split]].
  - intros l. rewrite (Hinv l). by rewrite flag_deref.
  - intros i j ti tj l Hi Hj Hti Htj.
    apply (count_one_unique (fun task => holder task = Some l)
             (tasks (run_system acts)) i j ti tj); try done.
    specialize (Hinv l). unfold streams_on in Hinv. rewrite Hinv.
    destruct (flag _ l); lia.
  - intros i task l Hi Hl.
    specialize (Hinv l). unfold streams_on in Hinv.
    destruct (flag (world (run_system acts)) l) eqn:Hflag.
    + rewrite flag_deref in Hflag. unfold deref in Hflag.
      destruct (heap (world (run_system acts)) !! l) as [s|]; [by exists s | done].
    + exfalso.
      by apply (count_none_holds (fun task => holder task = Some l)
                  (tasks (run_system acts)) i task Hinv Hi).
  - intros sid l s Hget. rewrite (Hinv l).
    apply sessions_get_Some in Hget as [_ Hobj].
    by rewrite flag_deref, (deref_lookup _ _ _ Hobj).
Qed.

Lemma one_generation_per_object_witness :
  let sid := lit "Xk3_9aQz0B" in
  let hello := {| body_sessionId := Some sid;
                  body_text := Some (lit "draw a cat"); files := [] |} in
  let env := example_env in
  let acts :=
    [ACreate env sid; APerform env 0; AResume env 0;
     AMessage env hello; APerform env 1; AResume env 1; APerform env 1; AResume env 1;
     AStream env sid;
     (* the document is loaded again while the stream is suspended *)
     ALoad sid; APerform env 3; AResume env 3;
     AStream env sid; AStream env sid] in
  let sys := run_system acts in
  streams_on 0 sys = 1%nat /\ streams_on 1 sys = 1%nat
  /\ in_flight sid sys = 2%nat
  /\ sessions (world sys) !! sid = Some 1%nat
  /\ (forall i j ti tj l,
        tasks sys !! i = Some ti -> tasks sys !! j = Some tj ->
        holder ti = Some l -> holder tj = Some l -> i = j).
Proof.
  intros sid hello env acts sys.
  split; [vm_compute; reflexivity|]. split; [vm_compute; reflexivity|].
  split; [vm_compute; reflexivity|]. split; [vm_compute; reflexivity|].
  exact (proj1 (proj2 (one_generation_per_object acts))).
Defined.

(** ** The handlers in steps against the handlers as functions *)

Section Uninterrupted.

Variable env : Env.
Implicit Types (w : World) (t : StreamTask).

Lemma drive_streaming fuel t w : drive fuel env (Streaming t) w = (w, Streaming t).
Proof. by destruct fuel. Qed.

Lemma drive_finished fuel r w : drive fuel env (Finished r) w = (w, Finished r).
Proof. by destruct fuel. Qed.

Lemma drive_awaiting fuel k op w :
drive (S fuel) env (Awaiting k op) w
= let '(w1, r) := perform env op w in
  let '(w2, task') := resume env k r w1 in
  drive fuel env task' w2.
Proof. done. Qed.

Lemma drive_reply fuel sid l w :
drive fuel env (message_reply sid l w) w = (w, message_reply sid l w).
Proof. apply drive_finished. Qed.

(** The auto-naming in steps is [renameSessionFile] in its [try]. *)
Lemma drive_message_after_uploads fuel sid l text n parts w :
(2 <= fuel)%nat ->
drive fuel env (snd (message_after_uploads env sid l text n parts w))
  (fst (message_after_uploads env sid l text n parts w))
= if bool_decide (length parts = 0%nat)
  then (w, Finished (Answered (json 400 (BError (lit "Empty message")))))
  else
    let w2 := mutate l (ChatSession.push (ChatMessage.mk user parts)) w in
    let w3 :=
      if bool_decide (ChatSession.turn (deref w2 l) = 0%nat) then
        match renameSessionFile env sid (deriveTitle (now_locale env) text n) w2 with
        | Some (w', _) => w'
        | None => w2
        end
      else w2 in
    (w3, Finished (Answered
                     (json 200 (BTurn sid (ChatSession.turn (deref w3 l) + 1))))).
Proof.
intros Hfuel. unfold message_after_uploads.
case_bool_decide; [cbn [fst snd]; apply drive_finished|]. cbv zeta.
set (w2 := mutate l _ w).
case_bool_decide; cbn [fst snd]; [|apply drive_reply].
destruct fuel as [|[|fuel]]; [lia|lia|].
cbn [drive perform].
destruct (loadSessionFile w2 sid) as [f0|] eqn:Hf.
- rewrite (renameSessionFile_found env sid _ w2 f0 Hf). cbv zeta.
  cbn [resume drive perform]. unfold writeFile.
  cbn [ChatSessionFile.id ChatSessionFile.set_title ChatSessionFile.set_updatedAt].
  destruct (session_write_ok env _); cbn [resume];
    unfold message_reply; rewrite ?drive_finished; reflexivity.
- rewrite renameSessionFile_missing by done. cbn [resume].
  unfold message_reply. rewrite ?drive_finished. reflexivity.
Qed.

(** The loop over the uploads in steps is [save_uploads]. *)
Lemma drive_message_uploads fs : forall fuel sid l text n idx parts w,
(length fs + 2 <= fuel)%nat ->
drive fuel env (snd (message_uploads env sid l text n idx fs parts w))
  (fst (message_uploads env sid l text n idx fs parts w))
= match save_uploads env sid l idx fs parts w with
  | (w1, None) =>
      (w1, Finished (Answered (json 500 (BError (lit "Failed to accept message")))))
  | (w1, Some parts') =>
      drive fuel env (snd (message_after_uploads env sid l text n parts' w1))
        (fst (message_after_uploads env sid l text n parts' w1))
  end.
Proof.
induction fs as [|f fs IH]; intros fuel sid l text n idx parts w Hfuel.
- done.
- cbn [message_uploads save_uploads fst snd length] in *.
  destruct fuel as [|fuel]; [lia|]. rewrite drive_awaiting. cbn [perform].
  destruct saveBufferToArtifacts as [w1|] eqn:Es; cbn [resume].
  + destruct (message_uploads env sid l text n (S idx) fs _ w1) as [wm tm] eqn:Em.
    pose proof (IH fuel sid l text n (S idx)
                  (parts ++ [InlineData (or_default (mimetype f) (lit "image/png"))
                               (base64 (buffer f))]) w1) as H.
    rewrite Em in H. cbn [fst snd] in H. rewrite H by lia.
    destruct save_uploads as [w2 [parts'|]]; [|done].
    (* the rest needs two steps at most, with or without this one *)
    rewrite !drive_message_after_uploads by lia. done.
  + apply drive_finished.
Qed.

(** [POST /message], run without interruption. *)
Lemma drive_message req w fuel :
(length (files req) + 2 <= fuel)%nat ->
drive fuel env (snd (message_start env req w)) (fst (message_start env req w))
= (fst (acceptMessage env req w),
   Finished (Answered (snd (acceptMessage env req w)))).
Proof.
intros Hfuel. unfold message_start, acceptMessage.
destruct (sessions_get w _) as [[l s]|]; [|apply drive_finished].
destruct (ChatSession.generating s); [apply drive_finished|].
rewrite drive_message_uploads by done.
destruct save_uploads as [w1 [parts|]]; [|done].
rewrite drive_message_after_uploads by lia.
by case_bool_decide.
Qed.

(** The relay of a chunk in steps is [relay_chunk]. *)
Lemma drive_relay_parts ps : forall fuel t w,
(length ps <= fuel)%nat ->
drive fuel env (snd (relay_parts env t ps w)) (fst (relay_parts env t ps w))
= let '(w', t') := foldl (relay_part env) (w, t) ps in (w', Streaming t').
Proof.
induction ps as [|p ps IH]; intros fuel t w Hfuel.
- apply drive_streaming.
- cbn [relay_parts foldl length] in *. unfold relay_part at 2.
  destruct (inline_image p) as [[mt data]|].
  + destruct fuel as [|fuel]; [lia|]. cbn [fst snd]. rewrite drive_awaiting.
    cbn [perform].
    destruct saveBufferToArtifacts as [w1|]; cbn [resume t_res t_sessionId t_sess
      t_ping t_request t_assistantParts t_genIndex];
      match goal with
      | |- context [relay_parts env ?t2 ps ?w2] =>
          pose proof (IH fuel t2 w2 ltac:(lia)) as H;
          destruct (relay_parts env t2 ps w2) as [wr tr]; exact H
      end.
  + destruct (p_text p) as [x|]; [destruct (truthy x)|]; apply IH; lia.
Qed.

(** The commit in steps is [stream_commit]. *)
Lemma drive_commit t w fuel :
(2 <= fuel)%nat ->
drive fuel env (snd (deliver env t Completes w)) (fst (deliver env t Completes w))
= let '(w', st) := stream_commit env w t in (w', task_of st).
Proof.
intros Hfuel. destruct fuel as [|[|fuel]]; [lia|lia|].
cbn [deliver fst snd]. rewrite drive_awaiting. unfold stream_commit.
set (w2 := mutate _ ChatSession.bump _). cbn [perform].
destruct (loadSessionFile w2 (t_sessionId t)) as [f0|] eqn:Hf;
  cbn [resume]; rewrite drive_awaiting; cbn [perform]; unfold saveSessionFile;
  destruct writeFile as [w3|]; cbn [resume stream_finally task_of fmap option_fmap option_map];
  by rewrite drive_finished.
Qed.

(** One reaction of the stream handler, run without interruption. *)
Lemma drive_deliver t s w fuel :
(length (match s with Yields c => default [] c | _ => [] end) + 2 <= fuel)%nat ->
drive fuel env (snd (deliver env t s w)) (fst (deliver env t s w))
= let '(w', st) := stream_step env w t s in (w', task_of st).
Proof.
intros Hfuel. destruct s as [c|e| |now|].
- cbn [deliver stream_step]. unfold relay_chunk.
  rewrite drive_relay_parts by lia. by destruct foldl.
- cbn [deliver stream_step]. destruct stream_catch as [w' st] eqn:E.
  rewrite stream_catch_effect in E. injection E as <- <-. apply drive_finished.
- cbn [stream_step]. apply drive_commit. lia.
- apply drive_streaming.
- apply drive_streaming.
Qed.

End Uninterrupted.

(** X17: the handlers as functions are the handlers in steps, run
    without interruption.  When every file operation of a handler is
    performed and the handler resumed at once, with no step of another
    handler in between, the stepwise handler of each chat request and
    of each reaction of a stream ends in the state and with the
    response that the handler as one function gives.  A message needs
    one round per upload and two for the naming, a reaction to a chunk
    one round per part, a commit two rounds. *)
Theorem steps_run_alone_are_the_handlers env w :
  (forall newId fuel, (1 <= fuel)%nat ->
     handle_alone fuel env (ACreate env newId) w
     = Some (fst (createSession env newId w),
             Finished (reply_of (snd (createSession env newId w)))))
  /\ (forall sid fuel, (1 <= fuel)%nat ->
        handle_alone fuel env (ALoad sid) w
        = Some (fst (loadSession sid w), Finished (Answered (snd (loadSession sid w)))))
  /\ (forall sid fuel, (1 <= fuel)%nat ->
        handle_alone fuel env (ADelete sid) w
        = Some (fst (deleteSession sid w),
                Finished (Answered (snd (deleteSession sid w)))))
  /\ (forall req fuel, (length (files req) + 2 <= fuel)%nat ->
        handle_alone fuel env (AMessage env req) w
        = Some (fst (acceptMessage env req w),
                Finished (Answered (snd (acceptMessage env req w)))))
  /\ (forall sid fuel,
        handle_alone fuel env (AStream env sid) w
        = Some (fst (stream_start env sid w), task_of (snd (stream_start env sid w))))
  /\ (forall t s fuel,
        (length (match s with Yields c => default [] c | _ => [] end) + 2 <= fuel)%nat ->
        drive fuel env (snd (deliver env t s w)) (fst (deliver env t s w))
        = (fst (stream_step env w t s), task_of (snd (stream_step env w t s)))).
Proof.
  split.
  { intros newId [|fuel] Hfuel; [lia|]. unfold handle_alone. cbn [start].
    cbn [mbind option_bind]. rewrite drive_awaiting. cbn [perform].
    unfold createSession, createSessionFile.
    destruct writeFile as [w2|]; cbn [resume mbind option_bind fst snd reply_of];
      by rewrite drive_finished. }
  split.
  { intros sid [|fuel] Hfuel; [lia|]. unfold handle_alone. cbn [start].
    cbn [mbind option_bind]. rewrite drive_awaiting. cbn [perform].
    unfold loadSession.
    destruct loadSessionFile as [file|]; cbn [resume fst snd];
      by rewrite drive_finished. }
  split.
  { intros sid [|fuel] Hfuel; [lia|]. unfold handle_alone. cbn [start].
    cbn [mbind option_bind]. rewrite drive_awaiting. cbn [perform].
    unfold deleteSession, deleteSessionFile.
    destruct unlink as [w1|]; cbn [resume fst snd]; by rewrite drive_finished. }
  split.
  { intros req fuel Hfuel. unfold handle_alone. cbn [start mbind option_bind].
    pose proof (drive_message env req w fuel Hfuel) as H.
    destruct (message_start env req w) as [w1 task]. by rewrite <- H. }
  split.
  { intros sid fuel. unfold handle_alone. cbn [start].
    destruct (stream_start env sid w) as [w1 [t|res ping]];
      cbn [mbind option_bind task_of fst snd].
    - by rewrite drive_streaming.
    - by rewrite drive_finished. }
  intros t s fuel Hfuel. rewrite drive_deliver by done.
  by destruct (stream_step env w t s).
Qed.

Lemma steps_run_alone_are_the_handlers_witness :
  let sid := lit "Xk3_9aQz0B" in
  let env := example_env in
  let w := fst (createSession env sid empty_world) in
  let cat := {| mimetype := lit "image/png"; buffer := [137; 80; 78; 71] |} in
  let req := {| body_sessionId := Some sid; body_text := Some (lit "a cat");
                files := [cat] |} in
  world (run_system [ACreate env sid; APerform env 0; AResume env 0;
                     AMessage env req; APerform env 1; AResume env 1;
                     APerform env 1; AResume env 1; APerform env 1; AResume env 1])
  = fst (acceptMessage env req w)
  /\ handle_alone 3 env (AMessage env req) w
     = Some (fst (acceptMessage env req w), Finished (Answered (json 200 (BTurn sid 1)))).
Proof.
  intros sid env w cat req. split; [by vm_compute|].
  destruct (steps_run_alone_are_the_handlers env w) as (_ & _ & _ & Hmsg & _).
  rewrite (Hmsg req 3%nat); [reflexivity|]. vm_compute. lia.
Defined.

